(** * mind_snag: cross-recording neuron stitching and its numerical inputs

    A shallow embedding of the stitching engine
    ([stitching/stitch_neurons.py]), the PSTH estimator ([utils/psth.py]),
    the reaction-time sorter ([utils/sorting_utils.py]), the trial-aligned
    spike extractor ([trials/trial_spike.py]), the task-type fallback
    policy ([analysis/extract_rasters.py]) and the cluster channel profiler
    ([utils/channel_info.py]).

    NumPy [float64] values are IEEE 754 binary64 numbers, modelled by the
    standard library's [spec_float]; Python dictionaries keyed by strings
    are [gmap string _]; Python exceptions are the left summand of
    [result]. *)

From Stdlib Require Import ZArith Lia Bool.
From Stdlib Require Import Floats.SpecFloat.
From Stdlib Require Import Sorting.Sorted Sorting.Permutation.
From stdpp Require Import base list strings gmap sorting.

(** ** Binary64 values *)

Module F64.

Local Open Scope Z_scope.

Definition float : Type := spec_float.

Definition prec : Z := 53.
Definition emax : Z := 1024.

Definition nan : float := S754_nan.
Definition zero : float := S754_zero false.
Definition neg_inf : float := S754_infinity true.
Definition pos_inf : float := S754_infinity false.
Definition max_float : float := Eval cbv in SFmax_float prec emax.

Definition of_Z (z : Z) : float := binary_normalize prec emax z 0 false.

Definition add : float -> float -> float := SFadd prec emax.
Definition sub : float -> float -> float := SFsub prec emax.
Definition mul : float -> float -> float := SFmul prec emax.
Definition div : float -> float -> float := SFdiv prec emax.

(** [np.isnan] *)
Definition isnan (x : float) : bool :=
  match x with S754_nan => true | _ => false end.

(** Python's [a <= b], [a < b], [a == b], [a >= b], [a > b] on floats: every
    comparison with a NaN operand is [False]. *)
Definition leb (a b : float) : bool := SFleb a b.
Definition ltb (a b : float) : bool := SFltb a b.
Definition eqb (a b : float) : bool := SFeqb a b.
Definition geb (a b : float) : bool := SFleb b a.
Definition gtb (a b : float) : bool := SFltb b a.

(** Neither NaN nor an infinity. *)
Definition is_finite (x : float) : bool :=
  match x with
  | S754_zero _ | S754_finite _ _ _ => true
  | S754_infinity _ | S754_nan => false
  end.

(** Python's [int(x)] on a float: truncation toward zero, [ValueError] on
    NaN and [OverflowError] on an infinity (both [None] here). *)
Definition to_int (x : float) : option Z :=
  match x with
  | S754_zero _ => Some 0
  | S754_finite s m e =>
      let a := if (0 <=? e) then Z.pos m * 2 ^ e else Z.pos m / 2 ^ (- e) in
      Some (if s then - a else a)
  | S754_infinity _ | S754_nan => None
  end.

(** The three-way comparison NumPy's sorts use on floats: the usual order
    with NaN placed after every number. *)
Definition sort_cmp (a b : float) : comparison :=
  match SFcompare a b with
  | Some c => c
  | None => if isnan a then (if isnan b then Eq else Gt) else Lt
  end.

End F64.

(** ** Order facts on binary64 values *)

Lemma cmp_cont_Eq_opp (p q : positive) :
  Pos.compare_cont Eq q p = CompOpp (Pos.compare_cont Eq p q).
Proof. exact (Pos.compare_antisym p q). Qed.

Lemma sort_cmp_antisym (a b : F64.float) :
  F64.sort_cmp b a = CompOpp (F64.sort_cmp a b).
Proof.
  unfold F64.sort_cmp.
  destruct a as [[]|[]| |[] ma ea], b as [[]|[]| |[] mb eb]; cbn; try reflexivity.
  all: rewrite (Z.compare_antisym ea eb); destruct (ea ?= eb)%Z; cbn; try reflexivity.
  all: rewrite (cmp_cont_Eq_opp ma mb); destruct (Pos.compare_cont Eq ma mb); reflexivity.
Qed.

Lemma sort_cmp_refl (a : F64.float) : F64.sort_cmp a a = Eq.
Proof.
  unfold F64.sort_cmp.
  destruct a as [[]|[]| |[] ma ea]; cbn; try reflexivity.
  all: rewrite Z.compare_refl; fold (Pos.compare ma ma); rewrite Pos.compare_refl; reflexivity.
Qed.

Definition cmp_le (c : comparison) : bool :=
  match c with Gt => false | _ => true end.

Local Ltac cmp_cases :=
  repeat match goal with
  | |- context [(?x ?= ?y)%Z] => destruct (Z.compare_spec x y)
  | H : context [(?x ?= ?y)%Z] |- _ => destruct (Z.compare_spec x y)
  | |- context [Pos.compare_cont Eq ?x ?y] =>
      change (Pos.compare_cont Eq x y) with (Pos.compare x y);
      destruct (Pos.compare_spec x y)
  | H : context [Pos.compare_cont Eq ?x ?y] |- _ =>
      change (Pos.compare_cont Eq x y) with (Pos.compare x y) in H;
      destruct (Pos.compare_spec x y)
  end.

Lemma sort_cmp_le_trans (a b c : F64.float) :
  cmp_le (F64.sort_cmp a b) = true ->
  cmp_le (F64.sort_cmp b c) = true ->
  cmp_le (F64.sort_cmp a c) = true.
Proof.
  unfold F64.sort_cmp.
  destruct a as [[]|[]| |[] ma ea], b as [[]|[]| |[] mb eb], c as [[]|[]| |[] mc ec];
    cbn; try reflexivity; try discriminate.
  all: cmp_cases; cbn; intros; subst; try reflexivity; try discriminate; try lia.
Qed.

Lemma sort_cmp_Eq_trans (a b c : F64.float) :
  F64.sort_cmp a b = Eq -> F64.sort_cmp b c = Eq -> F64.sort_cmp a c = Eq.
Proof.
  unfold F64.sort_cmp.
  destruct a as [[]|[]| |[] ma ea], b as [[]|[]| |[] mb eb], c as [[]|[]| |[] mc ec];
    cbn; try reflexivity; try discriminate.
  all: cmp_cases; cbn; intros; subst; try reflexivity; try discriminate; try lia.
Qed.

(** ** Python exceptions *)

Inductive exn : Type :=
  | FileNotFoundError
  | ValueError
  | IndexError
  | OverflowError
  | TypeError.

Definition result (A : Type) : Type := exn + A.

Definition raise {A : Type} (e : exn) : result A := inl e.
Definition ret {A : Type} (x : A) : result A := inr x.

Definition bind {A B : Type} (m : result A) (k : A -> result B) : result B :=
  match m with
  | inl e => inl e
  | inr x => k x
  end.

Notation "'let*' x ':=' m 'in' k" := (bind m (fun x => k))
  (at level 10, x name, m at level 100, k at level 200).

Definition raises {A : Type} (m : result A) : bool :=
  match m with inl _ => true | inr _ => false end.

(** ** Correlation matcher ([_pairwise_corr]) *)

(** Boolean-mask indexing [l[mask]]. *)
Fixpoint mask_select {A : Type} (mask : list bool) (l : list A) : list A :=
  match mask, l with
  | m :: mask', x :: l' =>
      if m then x :: mask_select mask' l' else mask_select mask' l'
  | _, _ => []
  end.

(** [np.sum] of a boolean array. *)
Definition count_true (mask : list bool) : nat :=
  length (List.filter (fun m => m) mask).

Section Correlation.

(** [np.corrcoef(x, y)[0, 1]] on two equally long sample vectors. *)
Variable corrcoef : list F64.float -> list F64.float -> F64.float.

Definition _pairwise_corr (a b : list F64.float) : F64.float :=
  let min_len := Nat.min (length a) (length b) in
  if Nat.eqb min_len 0 then F64.nan
  else
    let a' := take min_len a in
    let b' := take min_len b in
    let valid := zip_with (fun x y => negb (F64.isnan x || F64.isnan y)) a' b' in
    if Nat.ltb (count_true valid) 2 then F64.nan
    else corrcoef (mask_select valid a') (mask_select valid b').

(** The matcher in the words of its contract: both vectors are cut to the
    shorter length, the positions are paired, and the pairs with a NaN on
    either side are dropped. *)
Definition paired (a b : list F64.float) : list (F64.float * F64.float) :=
  let n := Nat.min (length a) (length b) in
  zip (take n a) (take n b).

Definition valid_pairs (a b : list F64.float) : list (F64.float * F64.float) :=
  List.filter (fun p => negb (F64.isnan (fst p)) && negb (F64.isnan (snd p)))
    (paired a b).

Lemma mask_select_zip (a b : list F64.float) :
  let keep := fun p : F64.float * F64.float =>
    negb (F64.isnan (fst p)) && negb (F64.isnan (snd p)) in
  let valid := zip_with (fun x y => negb (F64.isnan x || F64.isnan y)) a b in
  mask_select valid a = map fst (List.filter keep (zip a b)) /\
  mask_select valid b = map snd (List.filter keep (zip a b)) /\
  count_true valid = length (List.filter keep (zip a b)).
Proof.
  cbv zeta. revert b. induction a as [|x a IH]; intros [|y b]; cbn; auto.
  destruct (IH b) as (Ha & Hb & Hc). unfold count_true in *.
  rewrite negb_orb.
  destruct (negb (F64.isnan x) && negb (F64.isnan y)); cbn;
    rewrite ?Ha, ?Hb, ?Hc; auto.
Qed.

(** C4. The correlation of [a] and [b] is computed on the valid pairs of
    the two vectors cut to the shorter length; with fewer than two valid
    pairs the result is NaN, and so it is when either vector is empty. The
    function is total: it returns a float on every input. *)
Theorem pairwise_corr_few_valid_is_nan (a b : list F64.float) :
  _pairwise_corr a b =
    (if Nat.ltb (length (valid_pairs a b)) 2 then F64.nan
     else corrcoef (map fst (valid_pairs a b)) (map snd (valid_pairs a b)))
  /\ _pairwise_corr [] b = F64.nan
  /\ _pairwise_corr a [] = F64.nan.
Proof.
  split; [|split].
  - unfold _pairwise_corr, valid_pairs, paired.
    set (n := Nat.min (length a) (length b)).
    destruct (mask_select_zip (take n a) (take n b)) as (Ha & Hb & Hc).
    cbv zeta in Ha, Hb, Hc. rewrite Ha, Hb, Hc.
    destruct (Nat.eqb_spec n 0) as [Hn|Hn]; [|reflexivity].
    rewrite Hn. reflexivity.
  - reflexivity.
  - unfold _pairwise_corr. rewrite Nat.min_0_r. reflexivity.
Qed.

End Correlation.

(** ** Row deduplication: [np.unique(axis=0, return_index=True)]

    [np.unique] sorts the rows with a stable sort, marks the first row of
    every run of equal rows in the sorted order, and returns, for the marked
    rows, their positions in the input. *)

Definition cmp_eq (c : comparison) : bool :=
  match c with Eq => true | _ => false end.

Section Unique.

Context {K : Type}.

(** Three-way comparison of two rows (the sort order) and the elementwise
    [!=] that delimits the runs. *)
Variable cmp : K -> K -> comparison.
Variable neq : K -> K -> bool.
Variable d : K.
Variable keys : list K.

Definition key (i : nat) : K := nth i keys d.

Definition key_le (i j : nat) : bool := cmp_le (cmp (key i) (key j)).
Definition same_key (i j : nat) : bool := cmp_eq (cmp (key i) (key j)).

(** [ar.argsort(kind='mergesort')]: the stable sorting permutation. Indices
    are inserted from the last to the first, each one in front of the first
    index whose key is not smaller, so that equal keys stay in input
    order. *)
Fixpoint insert_index (i : nat) (l : list nat) : list nat :=
  match l with
  | [] => [i]
  | j :: l' => if key_le i j then i :: j :: l' else j :: insert_index i l'
  end.

Definition argsort : list nat :=
  foldr insert_index [] (seq 0 (length keys)).

(** [mask[:1] = True; mask[1:] = aux[1:] != aux[:-1]] *)
Fixpoint run_mask_from (prev : K) (aux : list K) : list bool :=
  match aux with
  | [] => []
  | k :: aux' => neq k prev :: run_mask_from k aux'
  end.

Definition run_mask (aux : list K) : list bool :=
  match aux with
  | [] => []
  | k :: aux' => true :: run_mask_from k aux'
  end.

(** The [return_index] output: [perm[mask]]. *)
Definition unique_index : list nat :=
  let perm := argsort in
  let aux := map key perm in
  mask_select (run_mask aux) perm.

(** [np.sort] on an index array. *)
Definition np_sort (l : list nat) : list nat := merge_sort le l.

(** Position [i] holds the first occurrence of its key. *)
Definition is_first (i : nat) : bool :=
  forallb (fun j => negb (same_key j i)) (seq 0 i).

Hypothesis cmp_antisym : forall a b, cmp b a = CompOpp (cmp a b).
Hypothesis cmp_le_trans : forall a b c,
  cmp_le (cmp a b) = true -> cmp_le (cmp b c) = true -> cmp_le (cmp a c) = true.
Hypothesis neq_cmp : forall i j,
  (i < length keys)%nat -> (j < length keys)%nat ->
  neq (key i) (key j) = negb (same_key i j).

Lemma key_le_total (i j : nat) : key_le i j = false -> key_le j i = true.
Proof.
  unfold key_le. rewrite (cmp_antisym (key i) (key j)).
  destruct (cmp (key i) (key j)); cbn; congruence.
Qed.

Lemma key_le_trans (i j k : nat) :
  key_le i j = true -> key_le j k = true -> key_le i k = true.
Proof. unfold key_le. apply cmp_le_trans. Qed.

Lemma same_key_le (i j : nat) : same_key i j = key_le i j && key_le j i.
Proof.
  unfold same_key, key_le. rewrite (cmp_antisym (key i) (key j)).
  destruct (cmp (key i) (key j)); reflexivity.
Qed.

Lemma same_key_sym (i j : nat) : same_key i j = same_key j i.
Proof. rewrite !same_key_le. apply andb_comm. Qed.

(** The order of a stable sort: by key, and by position among equal keys. *)
Definition stable_lt (i j : nat) : Prop :=
  key_le i j = true /\ (key_le j i = true -> (i < j)%nat).

Lemma insert_index_perm (i : nat) (l : list nat) : insert_index i l ≡ₚ i :: l.
Proof.
  induction l as [|j l IH]; cbn; [done|].
  destruct (key_le i j); [done|].
  rewrite IH. apply Permutation_swap.
Qed.

Lemma insert_index_sorted (i : nat) (l : list nat) :
  StronglySorted stable_lt l ->
  Forall (fun j => (i < j)%nat) l ->
  StronglySorted stable_lt (insert_index i l).
Proof.
  induction 1 as [|j l Hl IH Hj]; intros Hi; cbn.
  - repeat constructor.
  - apply Forall_cons in Hi as [Hij Hi].
    destruct (key_le i j) eqn:E.
    + constructor; [constructor; assumption|].
      constructor; [split; [assumption|intros; assumption]|].
      rewrite Forall_forall in Hj, Hi |- *. intros x Hx.
      destruct (Hj x Hx) as [Hjx _]. split.
      * eapply key_le_trans; eassumption.
      * intros _. apply Hi, Hx.
    + constructor; [apply IH, Hi|].
      rewrite (insert_index_perm i l). constructor; [|assumption].
      split; [apply key_le_total, E|]. intros E'. congruence.
Qed.

Lemma argsort_from (a n : nat) :
  let s := foldr insert_index [] (seq a n) in
  StronglySorted stable_lt s /\ s ≡ₚ seq a n.
Proof.
  cbv zeta. revert a. induction n as [|n IH]; intros a; cbn.
  - split; [constructor|done].
  - destruct (IH (S a)) as [Hs Hp]. split.
    + apply insert_index_sorted; [assumption|].
      rewrite Hp. apply Forall_forall. intros x Hx.
      apply elem_of_seq in Hx. lia.
    + rewrite insert_index_perm, Hp. done.
Qed.

Lemma argsort_sorted : StronglySorted stable_lt argsort.
Proof. apply (argsort_from 0 (length keys)). Qed.

Lemma argsort_perm : argsort ≡ₚ seq 0 (length keys).
Proof. apply (argsort_from 0 (length keys)). Qed.

Lemma elem_of_argsort (i : nat) : i ∈ argsort <-> (i < length keys)%nat.
Proof. rewrite argsort_perm, elem_of_seq. lia. Qed.

(** In a stably sorted list of positions the run starts are the positions
    that no smaller position of the list shares its key with. *)
Lemma run_starts_from (p : nat) (l : list nat) :
  StronglySorted stable_lt (p :: l) ->
  Forall (fun j => (j < length keys)%nat) (p :: l) ->
  forall i,
    i ∈ mask_select (run_mask_from (key p) (map key l)) l <->
    i ∈ l /\ forall j, j ∈ p :: l -> (j < i)%nat -> same_key j i = false.
Proof.
  revert p. induction l as [|q l IH]; intros p Hs Hb i; cbn.
  - split; [intros H; inversion H|intros [H _]; inversion H].
  - apply StronglySorted_inv in Hs as [Hs Hp].
    apply Forall_cons in Hp as [Hpq Hpl].
    pose proof Hb as Hb'. apply Forall_cons in Hb' as [Hbp Hbl].
    pose proof Hbl as Hbl'. apply Forall_cons in Hbl' as [Hbq _].
    pose proof Hs as Hs'. apply StronglySorted_inv in Hs' as [_ Hql].
    specialize (IH q Hs Hbl i).
    rewrite (neq_cmp q p Hbq Hbp).
    assert (Hfirst : same_key q p = false ->
      forall j, j ∈ p :: q :: l -> (j < q)%nat -> same_key j q = false).
    { intros Hqp j Hj Hlt. rewrite !elem_of_cons in Hj.
      destruct Hj as [->|[->|Hj]].
      - rewrite same_key_sym. exact Hqp.
      - lia.
      - rewrite Forall_forall in Hql. destruct (Hql j Hj) as [Hle Himp].
        rewrite same_key_le. destruct (key_le j q) eqn:E; [|reflexivity].
        specialize (Himp eq_refl). lia. }
    assert (Hrest : i ∈ l ->
      (forall j, j ∈ q :: l -> (j < i)%nat -> same_key j i = false) ->
      forall j, j ∈ p :: q :: l -> (j < i)%nat -> same_key j i = false).
    { intros Hi Hall j Hj Hlt. apply elem_of_cons in Hj as [->|Hj]; [|auto].
      rewrite Forall_forall in Hql, Hpl.
      destruct (Hql i Hi) as [Hqi Hiq]. destruct Hpq as [Hpq _].
      rewrite same_key_le. destruct (key_le i p) eqn:E; [|apply andb_false_r].
      assert (Hiq' : key_le i q = true) by (eapply key_le_trans; eassumption).
      specialize (Hiq Hiq').
      assert (Hsame : same_key q i = false)
        by (apply Hall; [apply elem_of_cons; auto|assumption]).
      rewrite same_key_le, Hqi, Hiq' in Hsame. discriminate. }
    destruct (same_key q p) eqn:Hqp; cbn.
    + rewrite IH. split.
      * intros [Hi Hall]. split; [apply elem_of_cons; auto|]. auto.
      * intros [Hi Hall]. apply elem_of_cons in Hi as [->|Hi].
        -- exfalso. destruct Hpq as [Hpq Himp].
           rewrite same_key_le in Hqp. apply andb_prop in Hqp as [Hqp1 Hqp2].
           specialize (Himp Hqp1).
           assert (same_key p q = false)
             by (apply Hall; [apply elem_of_cons; auto|assumption]).
           rewrite same_key_sym, same_key_le, Hqp1, Hqp2 in H. discriminate.
        -- split; [assumption|]. intros j Hj. apply Hall.
           apply elem_of_cons; auto.
    + rewrite elem_of_cons, IH. split.
      * intros [->|[Hi Hall]].
        -- split; [apply elem_of_cons; auto|]. auto.
        -- split; [apply elem_of_cons; auto|]. auto.
      * intros [Hi Hall]. apply elem_of_cons in Hi as [->|Hi]; [auto|].
        right. split; [assumption|]. intros j Hj. apply Hall.
        apply elem_of_cons; auto.
Qed.

Lemma elem_of_unique_index (i : nat) :
  i ∈ unique_index <->
  (i < length keys)%nat /\ forall j, (j < i)%nat -> same_key j i = false.
Proof.
  unfold unique_index. pose proof argsort_sorted as Hs.
  pose proof elem_of_argsort as Hin.
  destruct argsort as [|p l] eqn:E; cbn.
  - split; [intros H; inversion H|].
    intros [Hi _]. apply Hin in Hi. inversion Hi.
  - assert (Hb : Forall (fun j => (j < length keys)%nat) (p :: l))
      by (apply Forall_forall; intros x Hx; apply Hin, Hx).
    rewrite elem_of_cons, (run_starts_from p l Hs Hb i). split.
    + intros [->|[Hi Hall]].
      * split; [apply Hin; apply elem_of_cons; auto|]. intros j Hj.
        assert (Hp : (p < length keys)%nat)
          by (apply Hin; apply elem_of_cons; auto).
        assert (Hjin : j ∈ p :: l) by (apply Hin; lia).
        apply elem_of_cons in Hjin as [->|Hjin]; [lia|].
        apply StronglySorted_inv in Hs as [_ Hpl].
        rewrite Forall_forall in Hpl. destruct (Hpl j Hjin) as [Hle Himp].
        rewrite same_key_le. destruct (key_le j p) eqn:E'; [|reflexivity].
        specialize (Himp eq_refl). lia.
      * split; [apply Hin; apply elem_of_cons; auto|]. intros j Hj.
        apply Hall; [|assumption]. apply Hin.
        assert ((i < length keys)%nat)
          by (apply Hin; apply elem_of_cons; auto).
        lia.
    + intros [Hi Hall]. apply Hin in Hi. apply elem_of_cons in Hi as [->|Hi].
      * left; reflexivity.
      * right. split; [assumption|]. intros j _ Hj. apply Hall, Hj.
Qed.

Lemma is_first_spec (i : nat) :
  is_first i = true <-> forall j, (j < i)%nat -> same_key j i = false.
Proof.
  unfold is_first. rewrite forallb_forall. split.
  - intros H j Hj. specialize (H j). rewrite negb_true_iff in H. apply H.
    apply in_seq. lia.
  - intros H j Hj. apply in_seq in Hj. rewrite negb_true_iff. apply H. lia.
Qed.

Lemma mask_select_sublist {A : Type} (mask : list bool) (l : list A) :
  mask_select mask l `sublist_of` l.
Proof.
  revert mask. induction l as [|x l IH]; intros [|[] mask]; cbn;
    try apply sublist_nil_l.
  - apply sublist_skip, IH.
  - apply sublist_cons, IH.
Qed.

Lemma filter_seq_sorted (f : nat -> bool) (a n : nat) :
  StronglySorted le (List.filter f (seq a n)).
Proof.
  revert a. induction n as [|n IH]; intros a; cbn; [constructor|].
  destruct (f a); [|apply IH].
  constructor; [apply IH|].
  apply Forall_forall. intros x Hx. apply list_elem_of_In, filter_In in Hx.
  destruct Hx as [Hx _]. apply in_seq in Hx. lia.
Qed.

(** Sorting the positions returned by [np.unique] lists, in increasing
    order, exactly the positions that hold the first occurrence of a key. *)
Lemma np_sort_unique_index :
  np_sort unique_index = List.filter is_first (seq 0 (length keys)).
Proof.
  unfold np_sort. apply (StronglySorted_unique le).
  - apply StronglySorted_merge_sort; apply _.
  - apply filter_seq_sorted.
  - rewrite merge_sort_Permutation. apply NoDup_Permutation.
    + eapply sublist_NoDup; [|apply mask_select_sublist].
      rewrite argsort_perm. apply NoDup_seq.
    + apply NoDup_ListNoDup, List.NoDup_filter, NoDup_ListNoDup, NoDup_seq.
    + intros i. rewrite elem_of_unique_index, list_elem_of_In, filter_In.
      rewrite in_seq, is_first_spec. intuition lia.
Qed.




End Unique.

(** ** Stitch rows and their ordering *)

(** A stitch row: one float per recording, NaN where no unit was matched. *)
Definition row : Type := list F64.float.

(** [dedup[np.isnan(dedup)] = 0] on one row. *)
Definition nan_to_zero (r : row) : row :=
  map (fun x => if F64.isnan x then F64.zero else x) r.

(** Order of two rows seen as records of floats: field by field. *)
Fixpoint row_cmp (r1 r2 : row) : comparison :=
  match r1, r2 with
  | [], [] => Eq
  | [], _ :: _ => Lt
  | _ :: _, [] => Gt
  | x :: r1', y :: r2' =>
      match F64.sort_cmp x y with
      | Eq => row_cmp r1' r2'
      | c => c
      end
  end.

(** [r1 != r2] on two rows seen as records: some field differs. *)
Fixpoint row_neq (r1 r2 : row) : bool :=
  match r1, r2 with
  | [], [] => false
  | x :: r1', y :: r2' => negb (F64.eqb x y) || row_neq r1' r2'
  | _, _ => true
  end.

(** Two rows are identical: same length and equal entries. *)
Definition rows_identical (r1 r2 : row) : bool := negb (row_neq r1 r2).

(** [np.sum(~np.isnan(row))] *)
Definition valid_count (r : row) : nat :=
  length (List.filter (fun x => negb (F64.isnan x)) r).

(** The deduplication step of [_run_stitching]. *)
Definition deduplicate (stitch_array : list row) : list row :=
  let dedup := map nan_to_zero stitch_array in
  let unique_idx := unique_index row_cmp row_neq [] dedup in
  map (fun i => nth i stitch_array []) (np_sort unique_idx).

(** The filter on the number of recordings a row covers. *)
Definition filter_min_recs (min_recs : Z) (unique_stitch : list row) : list row :=
  List.filter (fun r => (min_recs <=? Z.of_nat (valid_count r))%Z) unique_stitch.

Lemma sort_cmp_trans_full (a b c : F64.float) :
  cmp_le (F64.sort_cmp a b) = true ->
  cmp_le (F64.sort_cmp b c) = true ->
  F64.sort_cmp a c = Lt \/
  (F64.sort_cmp a c = Eq /\ F64.sort_cmp a b = Eq /\ F64.sort_cmp b c = Eq).
Proof.
  unfold F64.sort_cmp.
  destruct a as [[]|[]| |[] ma ea], b as [[]|[]| |[] mb eb], c as [[]|[]| |[] mc ec];
    cbn; try discriminate; auto.
  all: cmp_cases; cbn; intros; subst; try discriminate; auto; try lia.
Qed.

Lemma row_cmp_antisym (r1 r2 : row) : row_cmp r2 r1 = CompOpp (row_cmp r1 r2).
Proof.
  revert r2. induction r1 as [|x r1 IH]; intros [|y r2]; cbn; try reflexivity.
  rewrite (sort_cmp_antisym x y).
  destruct (F64.sort_cmp x y); cbn; auto.
Qed.

Lemma row_cmp_le_trans (r1 r2 r3 : row) :
  cmp_le (row_cmp r1 r2) = true ->
  cmp_le (row_cmp r2 r3) = true ->
  cmp_le (row_cmp r1 r3) = true.
Proof.
  revert r2 r3.
  induction r1 as [|x r1 IH]; intros [|y r2] [|z r3]; cbn; try reflexivity;
    try discriminate.
  intros H12 H23.
  destruct (sort_cmp_trans_full x y z) as [Hlt|(Hxz & Hxy & Hyz)].
  - destruct (F64.sort_cmp x y); [reflexivity|reflexivity|discriminate].
  - destruct (F64.sort_cmp y z); [reflexivity|reflexivity|discriminate].
  - rewrite Hlt. reflexivity.
  - rewrite Hxz. rewrite Hxy in H12. rewrite Hyz in H23. eapply IH; eassumption.
Qed.

Definition nan_free (r : row) : Prop := Forall (fun x => F64.isnan x = false) r.

Lemma nan_to_zero_nan_free (r : row) : nan_free (nan_to_zero r).
Proof.
  unfold nan_free, nan_to_zero. apply Forall_forall. intros x Hx.
  apply list_elem_of_fmap in Hx as (y & -> & _).
  destruct (F64.isnan y) eqn:E; [reflexivity|exact E].
Qed.

Lemma eqb_sort_cmp (x y : F64.float) :
  F64.isnan x = false -> F64.isnan y = false ->
  F64.eqb x y = cmp_eq (F64.sort_cmp x y).
Proof.
  unfold F64.eqb, SFeqb, F64.sort_cmp.
  destruct x as [[]|[]| |[] mx ex], y as [[]|[]| |[] my ey]; cbn;
    try discriminate; try reflexivity.
  all: intros _ _; destruct (ex ?= ey)%Z; try reflexivity.
  all: destruct (Pos.compare_cont Eq mx my); reflexivity.
Qed.

Lemma row_neq_cmp (r1 r2 : row) :
  nan_free r1 -> nan_free r2 -> row_neq r1 r2 = negb (cmp_eq (row_cmp r1 r2)).
Proof.
  revert r2. induction r1 as [|x r1 IH]; intros [|y r2] H1 H2; cbn;
    try reflexivity.
  apply Forall_cons in H1 as [Hx H1]. apply Forall_cons in H2 as [Hy H2].
  rewrite (eqb_sort_cmp x y Hx Hy), (IH r2 H1 H2).
  destruct (F64.sort_cmp x y); reflexivity.
Qed.

(** Position [i] of the emitted rows holds the first row of its class: no
    earlier row is identical to it once missing entries are replaced by 0. *)
Definition first_occurrence (rows : list row) (i : nat) : bool :=
  forallb
    (fun j => negb (rows_identical (nan_to_zero (nth j rows []))
                                   (nan_to_zero (nth i rows []))))
    (seq 0 i).

Lemma key_nan_to_zero (rows : list row) (i : nat) :
  key [] (map nan_to_zero rows) i = nan_to_zero (nth i rows []).
Proof. unfold key. exact (map_nth nan_to_zero rows [] i). Qed.

Lemma forallb_pointwise {A : Type} (f g : A -> bool) (l : list A) :
  (forall x, f x = g x) -> forallb f l = forallb g l.
Proof. intros H. induction l as [|x l IH]; cbn; [reflexivity|]. rewrite H, IH. reflexivity. Qed.

Lemma is_first_first_occurrence (rows : list row) (i : nat) :
  is_first row_cmp [] (map nan_to_zero rows) i = first_occurrence rows i.
Proof.
  unfold is_first, first_occurrence, same_key, rows_identical.
  apply forallb_pointwise. intros j. rewrite !key_nan_to_zero.
  rewrite row_neq_cmp by apply nan_to_zero_nan_free.
  rewrite negb_involutive. reflexivity.
Qed.



(** ** Stitching engine ([NeuronStitcher]) *)

(** [np.nan_to_num(x, nan=-np.inf)]: NaN becomes minus infinity; an
    infinity becomes the largest finite float of its sign. *)
Definition nan_to_num_neg_inf (x : F64.float) : F64.float :=
  match x with
  | S754_nan => F64.neg_inf
  | S754_infinity false => F64.max_float
  | S754_infinity true => SFopp F64.max_float
  | _ => x
  end.

(** [np.argmax] on a float array: the running maximum is replaced by every
    later entry that is not [<=] it, and the scan stops at a NaN. The
    stitcher only calls it on a non-empty array. *)
Fixpoint argmax_loop (mp : F64.float) (max_ind i : nat) (l : list F64.float) : nat :=
  match l with
  | [] => max_ind
  | x :: l' =>
      if negb (F64.leb x mp) then
        if F64.isnan x then i else argmax_loop x i (S i) l'
      else argmax_loop mp max_ind (S i) l'
  end.

Definition argmax (l : list F64.float) : nat :=
  match l with
  | [] => 0%nat
  | x :: l' => if F64.isnan x then 0%nat else argmax_loop x 0 1 l'
  end.

(** One neighbourhood candidate: the entries appended together to
    [all_cluster_ids], [all_wfs] and [all_rates]. *)
Record candidate : Type := Candidate {
  cand_id : Z;
  cand_wf : list F64.float;
  cand_rate : list F64.float
}.

Definition no_candidate : candidate := Candidate 0 [] [].

(** *** The best candidate *)

Definition isinf (x : F64.float) : bool :=
  match x with S754_infinity _ => true | _ => false end.

(** A NaN correlation counts as minus infinity. *)
Definition nan_as_neg_inf (x : F64.float) : F64.float :=
  if F64.isnan x then F64.neg_inf else x.

Lemma leb_sort_cmp (x y : F64.float) :
  F64.isnan x = false -> F64.isnan y = false ->
  F64.leb x y = cmp_le (F64.sort_cmp x y).
Proof.
  unfold F64.leb, SFleb, F64.sort_cmp.
  destruct x as [[]|[]| |[] mx ex], y as [[]|[]| |[] my ey]; cbn;
    try discriminate; try reflexivity.
  all: intros _ _; destruct (ex ?= ey)%Z; try reflexivity.
  all: destruct (Pos.compare_cont Eq mx my); reflexivity.
Qed.

Lemma leb_refl (x : F64.float) : F64.isnan x = false -> F64.leb x x = true.
Proof. intros H. rewrite leb_sort_cmp, sort_cmp_refl by assumption. reflexivity. Qed.

Lemma leb_total (x y : F64.float) :
  F64.isnan x = false -> F64.isnan y = false ->
  F64.leb x y = false -> F64.leb y x = true.
Proof.
  intros Hx Hy. rewrite !leb_sort_cmp by assumption.
  rewrite (sort_cmp_antisym x y). destruct (F64.sort_cmp x y); cbn; congruence.
Qed.

Lemma leb_trans (x y z : F64.float) :
  F64.isnan x = false -> F64.isnan y = false -> F64.isnan z = false ->
  F64.leb x y = true -> F64.leb y z = true -> F64.leb x z = true.
Proof.
  intros Hx Hy Hz. rewrite !leb_sort_cmp by assumption. apply sort_cmp_le_trans.
Qed.

Lemma argmax_loop_max (l pre : list F64.float) (mp : F64.float) (mi : nat) :
  nan_free (pre ++ l) ->
  pre !! mi = Some mp ->
  (forall x, x ∈ pre -> F64.leb x mp = true) ->
  exists y,
    (pre ++ l) !! argmax_loop mp mi (length pre) l = Some y /\
    forall x, x ∈ pre ++ l -> F64.leb x y = true.
Proof.
  revert pre mp mi. induction l as [|x l IH]; intros pre mp mi Hnan Hmi Hmax; cbn.
  - exists mp. rewrite app_nil_r. auto.
  - assert (Hx : F64.isnan x = false).
    { unfold nan_free in Hnan. rewrite Forall_forall in Hnan. apply Hnan.
      apply elem_of_app. right. apply elem_of_cons. auto. }
    assert (Hmp : F64.isnan mp = false).
    { unfold nan_free in Hnan. rewrite Forall_forall in Hnan. apply Hnan.
      apply elem_of_app. left. eapply list_elem_of_lookup_2, Hmi. }
    assert (Hpre : forall z, z ∈ pre -> F64.isnan z = false).
    { intros z Hz. unfold nan_free in Hnan. rewrite Forall_forall in Hnan.
      apply Hnan, elem_of_app. auto. }
    replace (pre ++ x :: l) with ((pre ++ [x]) ++ l) in *
      by (rewrite <- app_assoc; reflexivity).
    replace (S (length pre)) with (length (pre ++ [x]))
      by (rewrite length_app; cbn; lia).
    destruct (F64.leb x mp) eqn:E; cbn.
    + apply IH; [assumption| |].
      * apply lookup_app_l_Some, Hmi.
      * intros z Hz. apply elem_of_app in Hz as [Hz|Hz]; [auto|].
        apply list_elem_of_singleton in Hz as ->. exact E.
    + rewrite Hx. apply IH; [assumption| |].
      * rewrite lookup_app_r by lia. rewrite Nat.sub_diag. reflexivity.
      * intros z Hz. apply elem_of_app in Hz as [Hz|Hz].
        -- apply (leb_trans z mp x); auto. apply leb_total; auto.
        -- apply list_elem_of_singleton in Hz as ->. apply leb_refl, Hx.
Qed.

Lemma argmax_max (l : list F64.float) :
  l <> [] -> nan_free l ->
  exists y, l !! argmax l = Some y /\ forall x, x ∈ l -> F64.leb x y = true.
Proof.
  destruct l as [|x l]; [congruence|]. intros _ Hnan. cbn.
  assert (Hx : F64.isnan x = false) by (apply Forall_cons in Hnan as [? _]; assumption).
  rewrite Hx. apply (argmax_loop_max l [x] x 0 Hnan eq_refl).
  intros z Hz. apply list_elem_of_singleton in Hz as ->. apply leb_refl, Hx.
Qed.

Lemma nan_to_num_nan_free (l : list F64.float) :
  nan_free (map nan_to_num_neg_inf l).
Proof.
  apply Forall_forall. intros x Hx. apply list_elem_of_fmap in Hx as (y & -> & _).
  destruct y as [[]|[]| |[] m e]; reflexivity.
Qed.

Lemma nan_to_num_not_inf (x : F64.float) :
  isinf x = false -> nan_to_num_neg_inf x = nan_as_neg_inf x.
Proof. destruct x as [[]|[]| |[] m e]; cbn; congruence. Qed.

(** Conditional writes at distinct positions of a row. *)
Lemma foldl_slot (f : nat -> option F64.float) (idxs : list nat)
    (init : list F64.float) (k : nat) :
  NoDup idxs ->
  foldl (fun st j => match f j with Some v => <[j := v]> st | None => st end)
        init idxs !! k =
  match (if bool_decide (k ∈ idxs) then f k else None) with
  | Some v => if bool_decide (k < length init)%nat then Some v else None
  | None => init !! k
  end.
Proof.
  revert init. induction idxs as [|j idxs IH]; intros init Hnd; cbn.
  - reflexivity.
  - apply NoDup_cons in Hnd as [Hj Hnd].
    assert (Hiff : k <> j -> bool_decide (k ∈ j :: idxs) = bool_decide (k ∈ idxs)).
    { intros Hkj. apply bool_decide_ext. rewrite elem_of_cons. tauto. }
    destruct (f j) as [v|] eqn:Ef; rewrite (IH _ Hnd); rewrite ?length_insert.
    + destruct (decide (k = j)) as [->|Hkj].
      * rewrite (bool_decide_eq_false_2 _ Hj).
        rewrite (bool_decide_eq_true_2 (j ∈ j :: idxs)) by (apply elem_of_cons; auto).
        rewrite Ef.
        destruct (decide (j < length init)%nat) as [Hlt|Hlt];
          [rewrite (bool_decide_eq_true_2 _ Hlt)
          |rewrite (bool_decide_eq_false_2 _ Hlt)].
        -- apply list_lookup_insert_eq, Hlt.
        -- apply lookup_ge_None. rewrite length_insert. lia.
      * rewrite (Hiff Hkj).
        destruct (if bool_decide (k ∈ idxs) then f k else None); [reflexivity|].
        apply list_lookup_insert_ne. congruence.
    + destruct (decide (k = j)) as [->|Hkj].
      * rewrite (bool_decide_eq_false_2 _ Hj).
        rewrite (bool_decide_eq_true_2 (j ∈ j :: idxs)) by (apply elem_of_cons; auto).
        rewrite Ef. reflexivity.
      * rewrite (Hiff Hkj). reflexivity.
Qed.

Section Stitcher.

Variable corrcoef : list F64.float -> list F64.float -> F64.float.

(** Configuration ([cfg.stitching]). *)
Variable fr_threshold wf_threshold : F64.float.
Variable min_recs : Z.
Variable chan_range : Z.

(** State set up by [_load_cluster_info]: the selected cluster table of
    every recording, rows [(cluster id, channel index)]; the channel map
    (channel index to channel id); the sorted distinct channel ids. *)
Variable clu_info_per_rec : list (list (Z * nat)).
Variable chan_map : list nat.
Variable uni_chans : list nat.

(** Electrode number of every channel ([get_np_chan_depth_info], empty when
    the metadata is unavailable). *)
Variable elec_num : list Z.

(** Per-unit features read from the unit's files: [_get_waveform(clu, rec)]
    and [_get_firing_rate(clu, rec)], the recording given by its index. *)
Variable _get_waveform : Z -> nat -> list F64.float.
Variable _get_firing_rate : Z -> nat -> list F64.float.

Definition num_recs : nat := length clu_info_per_rec.

(** [np.where(arr == v)[0]] *)
Definition where_eq (arr : list nat) (v : nat) : list nat :=
  List.filter (fun i => Nat.eqb (nth i arr 0%nat) v) (seq 0 (length arr)).

Definition _get_cluster_ids (channel_id : nat) : list (list Z) :=
  let chan_ind := where_eq chan_map channel_id in
  map (fun info : list (Z * nat) =>
         if Nat.eqb (length info) 0 || Nat.eqb (length chan_ind) 0 then []
         else
           map fst
             (List.filter (fun r => existsb (Nat.eqb (snd r)) chan_ind) info))
      clu_info_per_rec.

Definition _get_within_range_channels (selected_channel : nat) : list nat :=
  if Nat.eqb (length elec_num) 0 || Nat.leb (length elec_num) selected_channel
  then [selected_channel]
  else
    let corr_elec := nth selected_channel elec_num 0%Z in
    let lo := (corr_elec - chan_range)%Z in
    let hi := (corr_elec + chan_range + 1)%Z in
    List.filter
      (fun i => let e := nth i elec_num 0%Z in (lo <=? e)%Z && (e <? hi)%Z)
      (seq 0 (length elec_num)).

(** The gathering loop over the nearby channels: for every recording, the
    candidates of the nearby channels in the order they are appended. *)
Definition gather (nearby_chans : list nat) : list (list candidate) :=
  map (fun i_rec =>
         flat_map
           (fun ch =>
              match chan_map !! ch with
              | None => []
              | Some ch_id =>
                  map (fun c => Candidate c (_get_waveform c i_rec)
                                            (_get_firing_rate c i_rec))
                      (nth i_rec (_get_cluster_ids ch_id) [])
              end)
           nearby_chans)
      (seq 0 num_recs).

(** The body of the loop over [other_recs]: the value written to the slot
    of the other recording, or [None] when the slot is left as it is. *)
Definition match_in (fr wf : list F64.float) (others : list candidate)
  : option F64.float :=
  if Nat.eqb (length others) 0 then None
  else
    let fr_corrs := map (fun o => _pairwise_corr corrcoef fr (cand_rate o)) others in
    let wf_corrs := map (fun o => _pairwise_corr corrcoef wf (cand_wf o)) others in
    let fr_corrs := map nan_to_num_neg_inf fr_corrs in
    let best_idx := argmax fr_corrs in
    if F64.geb (nth best_idx fr_corrs F64.nan) fr_threshold
       && F64.geb (nth best_idx wf_corrs F64.nan) wf_threshold
    then Some (F64.of_Z (cand_id (nth best_idx others no_candidate)))
    else None.

(** The row emitted for unit [clu_id] of recording [i_rec]. *)
Definition stitch_unit (all : list (list candidate)) (i_rec : nat) (clu_id : Z)
  : row :=
  let fr := _get_firing_rate clu_id i_rec in
  let wf := _get_waveform clu_id i_rec in
  let stitched := <[i_rec := F64.of_Z clu_id]> (replicate num_recs F64.nan) in
  let other_recs := filter (fun r => r <> i_rec) (seq 0 num_recs) in
  foldl
    (fun stitched other_rec =>
       match match_in fr wf (nth other_rec all []) with
       | Some v => <[other_rec := v]> stitched
       | None => stitched
       end)
    stitched other_recs.

(** The rows emitted while [current_chan] is the current channel. *)
Definition stitch_channel (current_chan : nat) : list row :=
  let nearby_chans := _get_within_range_channels current_chan in
  let all := gather nearby_chans in
  let current_clu_ids := _get_cluster_ids current_chan in
  flat_map
    (fun i_rec => map (stitch_unit all i_rec) (nth i_rec current_clu_ids []))
    (seq 0 num_recs).

Definition prediction_list : list row := flat_map stitch_channel uni_chans.

Definition _run_stitching : list row :=
  match prediction_list with
  | [] => []
  | _ :: _ =>
      let stitch_array := prediction_list in
      let unique_stitch := deduplicate stitch_array in
      filter_min_recs min_recs unique_stitch
  end.

Lemma pairwise_corr_not_inf (a b : list F64.float) :
  (forall x y, isinf (corrcoef x y) = false) ->
  isinf (_pairwise_corr corrcoef a b) = false.
Proof.
  intros H. unfold _pairwise_corr.
  destruct (Nat.eqb _ 0); [reflexivity|]. cbv zeta.
  destruct (Nat.ltb _ 2); [reflexivity|apply H].
Qed.

Lemma stitch_unit_slot (all : list (list candidate)) (i_rec : nat) (clu_id : Z)
    (k : nat) :
  (k < num_recs)%nat ->
  stitch_unit all i_rec clu_id !! k =
    if decide (k = i_rec) then Some (F64.of_Z clu_id)
    else
      Some (default F64.nan
              (match_in (_get_firing_rate clu_id i_rec) (_get_waveform clu_id i_rec)
                        (nth k all []))).
Proof.
  intros Hk. unfold stitch_unit. cbv zeta.
  rewrite (foldl_slot
    (fun j => match_in (_get_firing_rate clu_id i_rec) (_get_waveform clu_id i_rec)
                       (nth j all []))).
  2: { apply NoDup_filter, NoDup_seq. }
  rewrite length_insert, length_replicate.
  rewrite (bool_decide_eq_true_2 _ Hk).
  destruct (decide (k = i_rec)) as [->|Hne].
  - rewrite bool_decide_eq_false_2.
    + apply list_lookup_insert_eq. rewrite length_replicate. exact Hk.
    + rewrite list_elem_of_filter. tauto.
  - rewrite bool_decide_eq_true_2.
    + destruct (match_in _ _ _); [reflexivity|]. cbn.
      rewrite list_lookup_insert_ne by congruence.
      apply lookup_replicate_2, Hk.
    + rewrite list_elem_of_filter, elem_of_seq. split; [assumption|lia].
Qed.

Lemma match_in_best (fr wf : list F64.float) (others : list candidate) :
  (forall x y, isinf (corrcoef x y) = false) ->
  others <> [] ->
  let fr_corr := fun o => nan_as_neg_inf (_pairwise_corr corrcoef fr (cand_rate o)) in
  let wf_corr := fun o => _pairwise_corr corrcoef wf (cand_wf o) in
  exists best,
    best ∈ others /\
    (forall o, o ∈ others -> F64.leb (fr_corr o) (fr_corr best) = true) /\
    match_in fr wf others =
      if F64.geb (fr_corr best) fr_threshold && F64.geb (wf_corr best) wf_threshold
      then Some (F64.of_Z (cand_id best)) else None.
Proof.
  intros Hinf Hne. cbv zeta. unfold match_in.
  destruct (Nat.eqb_spec (length others) 0) as [H0|_].
  { destruct others; [congruence|discriminate]. }
  cbv zeta. rewrite map_map.
  set (frc := map (fun o => nan_to_num_neg_inf
                    (_pairwise_corr corrcoef fr (cand_rate o))) others).
  assert (Hfrc : frc = map (fun o => nan_as_neg_inf
                    (_pairwise_corr corrcoef fr (cand_rate o))) others).
  { apply map_ext. intros o. apply nan_to_num_not_inf, pairwise_corr_not_inf, Hinf. }
  destruct (argmax_max frc) as (y & Hy & Hmax).
  { subst frc. destruct others; [congruence|discriminate]. }
  { subst frc. rewrite <- map_map. apply nan_to_num_nan_free. }
  set (b := argmax frc) in *.
  assert (Hb : (b < length others)%nat).
  { apply lookup_lt_Some in Hy. subst frc. rewrite length_map in Hy. exact Hy. }
  destruct (lookup_lt_is_Some_2 others b Hb) as [best Hbest].
  exists best. split; [eapply list_elem_of_lookup_2, Hbest|].
  rewrite Hfrc in Hy. rewrite list_lookup_fmap, Hbest in Hy. cbn in Hy.
  injection Hy as Hy. split.
  - intros o Ho. rewrite Hy. apply Hmax. rewrite Hfrc.
    apply list_elem_of_fmap. exists o. auto.
  - rewrite (nth_lookup_Some _ _ _ _ Hbest).
    assert (E1 : nth b frc F64.nan = y).
    { apply nth_lookup_Some. rewrite Hfrc, list_lookup_fmap, Hbest. cbn. congruence. }
    assert (E2 : nth b (map (fun o => _pairwise_corr corrcoef wf (cand_wf o)) others)
                   F64.nan = _pairwise_corr corrcoef wf (cand_wf best)).
    { apply nth_lookup_Some. rewrite list_lookup_fmap, Hbest. reflexivity. }
    rewrite E1, E2, Hy. reflexivity.
Qed.

Lemma length_get_cluster_ids (channel_id : nat) :
  length (_get_cluster_ids channel_id) = num_recs.
Proof. unfold _get_cluster_ids, num_recs. cbv zeta. apply length_map. Qed.

(** C1. For a unit [clu_id] that recording [i_rec] has on the current
    channel, the emitted row carries the unit in its own slot, and for every
    other recording: with no candidate the slot stays missing; otherwise
    some candidate has the largest firing-rate correlation to the unit (a
    NaN correlation counting as minus infinity), and the slot holds that
    candidate's id exactly when its firing-rate correlation reaches
    [fr_threshold] and its waveform correlation reaches [wf_threshold], and
    stays missing otherwise. Correlation coefficients are never infinite. *)
Theorem stitch_slot_is_best_candidate_above_thresholds
    (current_chan i_rec other_rec : nat) (clu_id : Z) :
  (forall x y, isinf (corrcoef x y) = false) ->
  clu_id ∈ nth i_rec (_get_cluster_ids current_chan) [] ->
  (other_rec < num_recs)%nat ->
  other_rec <> i_rec ->
  let all := gather (_get_within_range_channels current_chan) in
  let others := nth other_rec all [] in
  let fr := _get_firing_rate clu_id i_rec in
  let wf := _get_waveform clu_id i_rec in
  let fr_corr := fun o => nan_as_neg_inf (_pairwise_corr corrcoef fr (cand_rate o)) in
  let wf_corr := fun o => _pairwise_corr corrcoef wf (cand_wf o) in
  let stitched := stitch_unit all i_rec clu_id in
  stitched ∈ stitch_channel current_chan /\
  stitched !! i_rec = Some (F64.of_Z clu_id) /\
  match others with
  | [] => stitched !! other_rec = Some F64.nan
  | _ :: _ =>
      exists best,
        best ∈ others /\
        (forall o, o ∈ others -> F64.leb (fr_corr o) (fr_corr best) = true) /\
        stitched !! other_rec =
          Some (if F64.geb (fr_corr best) fr_threshold
                   && F64.geb (wf_corr best) wf_threshold
                then F64.of_Z (cand_id best) else F64.nan)
  end.
Proof.
  intros Hinf Hclu Hother Hne. cbv zeta.
  assert (Hi : (i_rec < num_recs)%nat).
  { destruct (Nat.lt_ge_cases i_rec num_recs) as [|Hge]; [assumption|].
    rewrite nth_overflow in Hclu by (rewrite length_get_cluster_ids; exact Hge).
    inversion Hclu. }
  split; [|split].
  - unfold stitch_channel. cbv zeta. apply list_elem_of_In, in_flat_map.
    exists i_rec. split; [apply in_seq; lia|].
    apply in_map, list_elem_of_In, Hclu.
  - rewrite stitch_unit_slot by exact Hi. rewrite decide_True; reflexivity.
  - rewrite stitch_unit_slot by exact Hother. rewrite decide_False by exact Hne.
    destruct (nth other_rec (gather (_get_within_range_channels current_chan)) [])
      as [|o others] eqn:E.
    + reflexivity.
    + destruct (match_in_best (_get_firing_rate clu_id i_rec)
                  (_get_waveform clu_id i_rec) (o :: others) Hinf)
        as (best & Hin & Hmax & Hm); [discriminate|].
      exists best. split; [exact Hin|]. split; [exact Hmax|].
      rewrite Hm. destruct (_ && _); reflexivity.
Qed.

(** A row holds a cluster of recording [i]: its entry there is not
    missing. *)
Definition holds_cluster (r : row) (i : nat) : Prop :=
  exists x, r !! i = Some x /\ F64.isnan x = false.

(** A row covers at least [n] recordings: there are [n] or more distinct
    recordings of which it holds a cluster. *)
Definition covers_at_least (n : Z) (r : row) : Prop :=
  exists recs : list nat,
    NoDup recs /\ (forall i, i ∈ recs -> holds_cluster r i) /\
    (n <= Z.of_nat (length recs))%Z.

(** The recordings of which a row holds a cluster. *)
Lemma holds_cluster_positions (r : list F64.float) :
  exists recs : list nat,
    NoDup recs /\ (forall i, i ∈ recs <-> holds_cluster r i) /\
    length recs = valid_count r.
Proof.
  unfold valid_count. induction r as [|x r IH].
  - exists []. split; [constructor|]. split; [|reflexivity].
    intros i. split; [intros H; inversion H|]. intros (y & Hy & _). discriminate Hy.
  - destruct IH as (recs & Hnd & Hin & Hlen).
    assert (Hshift : NoDup (map S recs))
      by (apply (NoDup_fmap_2 S), Hnd).
    assert (Htail : forall i, i ∈ map S recs <->
                      exists j, i = S j /\ holds_cluster r j).
    { intros i. rewrite list_elem_of_In, in_map_iff. split.
      - intros (j & <- & Hj). exists j. split; [reflexivity|].
        apply Hin, list_elem_of_In, Hj.
      - intros (j & -> & Hj). exists j. split; [reflexivity|].
        apply list_elem_of_In, Hin, Hj. }
    cbn [List.filter]. destruct (F64.isnan x) eqn:Ex; cbn [negb].
    + exists (map S recs). split; [exact Hshift|]. split.
      * intros i. rewrite Htail. split.
        -- intros (j & -> & Hj). exact Hj.
        -- intros (y & Hy & Hnan). destruct i as [|j].
           ++ cbn in Hy. injection Hy as <-. congruence.
           ++ exists j. split; [reflexivity|]. exists y. auto.
      * rewrite length_map. exact Hlen.
    + exists (0%nat :: map S recs). split.
      * constructor; [|exact Hshift]. rewrite Htail. intros (j & Hj & _). discriminate.
      * split.
        -- intros i. rewrite elem_of_cons, Htail. split.
           ++ intros [->|(j & -> & Hj)]; [exists x; auto|exact Hj].
           ++ intros (y & Hy & Hnan). destruct i as [|j]; [left; reflexivity|].
              right. exists j. split; [reflexivity|]. exists y. auto.
        -- cbn [length]. rewrite length_map, Hlen. reflexivity.
Qed.

Lemma covers_at_least_valid_count (n : Z) (r : list F64.float) :
  covers_at_least n r <-> (n <= Z.of_nat (valid_count r))%Z.
Proof.
  destruct (holds_cluster_positions r) as (all & Hnd & Hall & Hlen). split.
  - intros (recs & Hnd' & Hin & Hn).
    assert (Hle : (length recs <= length all)%nat).
    { apply submseteq_length, NoDup_submseteq; [exact Hnd'|].
      intros i Hi. apply Hall, Hin, Hi. }
    lia.
  - intros Hn. exists all. split; [exact Hnd|]. split; [|lia].
    intros i Hi. apply Hall, Hi.
Qed.

(** C3. Every row of the final table holds a cluster of at least
    [min_recs] recordings; and the table is made of exactly the deduplicated
    rows that do: a deduplicated row covering fewer recordings is removed,
    and none covering [min_recs] or more is. *)
Theorem final_table_rows_cover_min_recs :
  Forall (covers_at_least min_recs) _run_stitching /\
  (forall r, r ∈ _run_stitching <->
     r ∈ deduplicate prediction_list /\ covers_at_least min_recs r).
Proof.
  assert (Heq : _run_stitching =
                filter_min_recs min_recs (deduplicate prediction_list)).
  { unfold _run_stitching. destruct prediction_list; reflexivity. }
  assert (Hiff : forall r, r ∈ _run_stitching <->
            r ∈ deduplicate prediction_list /\ covers_at_least min_recs r).
  { intros r. rewrite Heq. unfold filter_min_recs.
    rewrite list_elem_of_In, filter_In, Z.leb_le, <- list_elem_of_In.
    rewrite covers_at_least_valid_count. reflexivity. }
  split; [|exact Hiff].
  apply Forall_forall. intros r Hr. apply Hiff, Hr.
Qed.

End Stitcher.

(** *** A two-recording session

    Two recordings with one unit each (ids 1 and 2) on channel 0, identical
    feature vectors, every correlation equal to 1, both thresholds at 1. *)
Module TwoRecordings.

Definition one : F64.float := F64.of_Z 1.
Definition corrcoef (x y : list F64.float) : F64.float := one.
Definition clu_info_per_rec : list (list (Z * nat)) := [[(1%Z, 0%nat)]; [(2%Z, 0%nat)]].
Definition chan_map : list nat := [0%nat].
Definition elec_num : list Z := [].
Definition features (clu : Z) (rec : nat) : list F64.float :=
  [F64.of_Z 1; F64.of_Z 2; F64.of_Z 4].

Definition unit_row : row :=
  stitch_unit corrcoef one one clu_info_per_rec features features
    (gather clu_info_per_rec chan_map features features
       (_get_within_range_channels 10 elec_num 0))
    0 1.

End TwoRecordings.

Lemma stitch_slot_is_best_candidate_above_thresholds_witness :
  (forall x y, isinf (TwoRecordings.corrcoef x y) = false) /\
  TwoRecordings.unit_row !! 0%nat = Some (F64.of_Z 1) /\
  TwoRecordings.unit_row !! 1%nat = Some (F64.of_Z 2).
Proof.
  assert (Hinf : forall x y, isinf (TwoRecordings.corrcoef x y) = false)
    by (intros x y; reflexivity).
  assert (Hclu : 1%Z ∈ nth 0 (_get_cluster_ids TwoRecordings.clu_info_per_rec
                               TwoRecordings.chan_map 0) [])
    by (vm_compute; constructor).
  assert (Hlt : (1 < num_recs TwoRecordings.clu_info_per_rec)%nat)
    by (vm_compute; lia).
  assert (Hne : 1%nat <> 0%nat) by lia.
  pose proof (stitch_slot_is_best_candidate_above_thresholds
                TwoRecordings.corrcoef TwoRecordings.one TwoRecordings.one
                2%Z 10%Z TwoRecordings.clu_info_per_rec TwoRecordings.chan_map
                TwoRecordings.elec_num TwoRecordings.features
                TwoRecordings.features 0%nat 0%nat 1%nat 1%Z
                Hinf Hclu Hlt Hne) as (_ & Hown & _).
  split; [exact Hinf|]. split; [exact Hown|].
  vm_compute. reflexivity.
Defined.

(** ** PSTH estimator ([psth]) *)

(** Python's [int(x)] on a float. *)
Definition py_int (x : F64.float) : result Z :=
  match F64.to_int x with
  | Some z => ret z
  | None => raise (if F64.isnan x then ValueError else OverflowError)
  end.

(** [np.arange(a, b)] on integers. *)
Definition arange (a b : Z) : list Z :=
  map (fun k => (a + Z.of_nat k)%Z) (seq 0 (Z.to_nat (b - a))).

(** [np.zeros(n)]: a negative length is a [ValueError]. *)
Definition np_zeros (n : Z) : result (list F64.float) :=
  if (n <? 0)%Z then raise ValueError
  else ret (replicate (Z.to_nat n) F64.zero).

(** Python's [l[a:b]]: a negative bound counts from the end, and both
    bounds are clipped to the list. *)
Definition slice_bound {A : Type} (l : list A) (i : Z) : nat :=
  let n := Z.of_nat (length l) in
  Z.to_nat (if (i <? 0)%Z then Z.max 0 (n + i) else Z.min n i).

Definition py_slice {A : Type} (a b : Z) (l : list A) : list A :=
  let a' := slice_bound l a in
  let b' := slice_bound l b in
  take (b' - a') (drop a' l).

(** Pointwise sum of two vectors, the longer one keeping its tail. *)
Fixpoint add_shifted (u v : list F64.float) : list F64.float :=
  match u, v with
  | [], _ => v
  | _, [] => u
  | x :: u', y :: v' => F64.add x y :: add_shifted u' v'
  end.

(** The full discrete convolution: the sum over [j] of the copies of [v]
    scaled by [a[j]] and shifted by [j]. The order in which NumPy adds the
    terms of one output sample is internal to it; no statement below depends
    on it. *)
Fixpoint convolve_full (a v : list F64.float) : list F64.float :=
  match a with
  | [] => []
  | x :: a' =>
      add_shifted (map (F64.mul x) v)
        (match a' with [] => [] | _ :: _ => F64.zero :: convolve_full a' v end)
  end.

(** [np.convolve(a, v)]: an empty operand is a [ValueError]. *)
Definition np_convolve (a v : list F64.float) : result (list F64.float) :=
  if Nat.eqb (length a) 0 || Nat.eqb (length v) 0 then raise ValueError
  else ret (convolve_full a v).

Section Psth.

(** Bin of one sample in [np.histogram(_, bins, range=(start, stop))], or
    [None] for a sample outside the range (NaN included). *)
Variable hist_bin : Z -> Z -> nat -> F64.float -> option nat.

(** [scipy.stats.norm.pdf(x, 0, scale)] *)
Variable norm_pdf : F64.float -> F64.float -> F64.float.

Definition in_bin (start stop : Z) (bins k : nat) (x : F64.float) : bool :=
  match hist_bin start stop bins x with
  | Some j => Nat.eqb j k
  | None => false
  end.

(** [np.histogram(xx, bins, range=(start, stop))[0]]: the number of samples
    in every bin; fewer than one bin or a reversed range is a
    [ValueError]. *)
Definition np_histogram (xx : list F64.float) (bins : nat) (start stop : Z)
  : result (list Z) :=
  if Nat.ltb bins 1 then raise ValueError
  else if (stop <? start)%Z then raise ValueError
  else
    ret (map (fun k => Z.of_nat (length (List.filter (in_bin start stop bins k) xx)))
             (seq 0 bins)).

(** The pooled spikes: the trials that are neither [None] nor empty, one
    after the other. *)
Definition pooled (spike_cell : list (option (list F64.float))) : list F64.float :=
  concat
    (omap (fun spikes =>
             match spikes with
             | Some arr => if Nat.ltb 0 (length arr) then Some arr else None
             | None => None
             end)
          spike_cell).

Definition psth (spike_cell : list (option (list F64.float))) (bn : Z * Z)
    (smoothing : F64.float) : result (list F64.float * nat) :=
  let n_tr := length spike_cell in
  if Nat.eqb n_tr 0 then
    let* zeros := np_zeros (snd bn - fst bn + 1)%Z in
    ret (zeros, 0%nat)
  else
    let start := fst bn in
    let stop := snd bn in
    let time_bins := arange start (stop + 1)%Z in
    let xx := pooled spike_cell in
    let* z := np_histogram xx (length time_bins) start stop in
    let z := map F64.of_Z z in
    let* half_width := py_int (F64.mul (F64.of_Z 3) smoothing) in
    let kernel_x := map F64.of_Z (arange (- half_width) (half_width + 1))%Z in
    let window := map (fun x => norm_pdf x smoothing) kernel_x in
    let* conv := np_convolve z window in
    let rate := map (F64.mul (F64.div (F64.of_Z 1000) (F64.of_Z (Z.of_nat n_tr)))) conv in
    let rate := py_slice half_width (half_width + Z.of_nat (length time_bins))%Z rate in
    ret (rate, n_tr).

Lemma length_arange (a b : Z) : length (arange a b) = Z.to_nat (b - a).
Proof. unfold arange. rewrite length_map, length_seq. reflexivity. Qed.







(** *** Sorting the trials by reaction time ([sort_spikes_by_rt]) *)

(** [np.argsort(rt)]: a sorting permutation of the positions, NaN last.
    Which of several equal entries comes first is not fixed by the default
    sort; the stable order stands for it. *)
Definition np_argsort (rt : list F64.float) : list nat :=
  argsort F64.sort_cmp F64.nan rt.

(** [[l[i] for i in idx]]: a position outside the list is an
    [IndexError]. *)
Fixpoint gather_items {A : Type} (l : list A) (idx : list nat) : result (list A) :=
  match idx with
  | [] => ret []
  | i :: idx' =>
      match l !! i with
      | None => raise IndexError
      | Some x => let* rest := gather_items l idx' in ret (x :: rest)
      end
  end.

Definition sort_spikes_by_rt (rt : option (list F64.float))
    (spike_cell : list (option (list F64.float)))
  : result (list F64.float * list (option (list F64.float))) :=
  match rt with
  | None => ret ([], spike_cell)
  | Some rt =>
      if Nat.eqb (length rt) 0 then ret ([], spike_cell)
      else
        let sort_idx := np_argsort rt in
        let sorted_rt := map (fun i => nth i rt F64.nan) sort_idx in
        let* sorted_spx := gather_items spike_cell sort_idx in
        ret (sorted_rt, sorted_spx)
  end.







End Psth.

(** *** A worked PSTH: three bins, one spike, smoothing 1 ms *)
Module PsthExample.

Definition hist_bin (start stop : Z) (bins : nat) (x : F64.float) : option nat :=
  Some 0%nat.
Definition norm_pdf (x scale : F64.float) : F64.float := scale.
Definition one : F64.float := F64.of_Z 1.
Definition trials : list (option (list F64.float)) :=
  [Some [F64.of_Z 10; F64.of_Z 20]; None; Some [F64.of_Z 40]].
Definition rt : list F64.float := [F64.of_Z 300; F64.of_Z 100; F64.of_Z 200].

End PsthExample.




(** The same call, evaluated. *)
Example psth_with_negative_smoothing :
  psth PsthExample.hist_bin PsthExample.norm_pdf PsthExample.trials (-1, 1)%Z
    (F64.of_Z (-1)) = raise ValueError.
Proof. vm_compute. reflexivity. Qed.

(** The trials of the example come out in the order of their reaction
    times. *)
Example sort_spikes_by_rt_example :
  sort_spikes_by_rt (Some PsthExample.rt) PsthExample.trials =
    ret ([F64.of_Z 100; F64.of_Z 200; F64.of_Z 300],
         [None; Some [F64.of_Z 40]; Some [F64.of_Z 10; F64.of_Z 20]]).
Proof. vm_compute. reflexivity. Qed.

(** ** Trial-aligned spike extractor ([trial_np_spike]) *)

(** A value of a trial dictionary loaded from a MATLAB struct: a scalar, or
    an array (an event that did not occur is commonly stored as an empty
    array). *)
Inductive value : Type :=
  | VFloat (x : F64.float)
  | VArray (a : list F64.float).

(** A trial: its day and recording, its index within the recording (when
    the [Trial] field is present) and its event fields. *)
Record trial : Type := Trial {
  trial_day : string;
  trial_rec : string;
  trial_index : option Z;
  trial_fields : gmap string value
}.

(** An events table: named arrays of timestamps indexed by trial. *)
Definition events_table : Type := gmap string (list F64.float).

(** The [NPclu] matrix: rows [(spike_time, cluster_id)]. *)
Definition npclu_table : Type := list (F64.float * Z).

(** Neuropixel sampling rate. *)
Definition FS : Z := 30000.

(** A Python integer converted to a float, as a division by a float does
    with its integer operand: an integer beyond the floats is an
    [OverflowError]. *)
Definition py_float_of_int (z : Z) : result F64.float :=
  let x := F64.of_Z z in
  if F64.is_finite x then ret x else raise OverflowError.

(** [ms * FS / 1000.0] for an integer [ms]: the product is an integer, which
    the division converts. *)
Definition samples_of_ms (ms : Z) : result F64.float :=
  let* x := py_float_of_int (ms * FS) in
  ret (F64.div x (F64.of_Z 1000)).

(** A loop whose body may raise: the state is threaded through the items in
    order and the first error ends the loop. *)
Fixpoint fold_result {A B : Type} (f : A -> B -> result A) (a : A) (l : list B)
  : result A :=
  match l with
  | [] => ret a
  | x :: l' =>
      let* a' := f a x in
      fold_result f a' l'
  end.

Definition _load_np_spike (npclu : npclu_table) (events : events_table)
    (subtrial : Z) (event_field : string) (bn : Z * Z) (cluster_id : Z)
  : result (list F64.float) :=
  if Nat.eqb (length npclu) 0 then ret []
  else
    match events !! event_field with
    | None => ret []
    | Some event_times =>
        let idx := if (0 <? subtrial)%Z then (subtrial - 1)%Z else 0%Z in
        if (Z.of_nat (length event_times) <=? idx)%Z then ret []
        else
          let event_time := nth (Z.to_nat idx) event_times F64.nan in
          if F64.isnan event_time || F64.eqb event_time F64.zero then ret []
          else
            let event_sample :=
              F64.div (F64.mul event_time (F64.of_Z FS)) (F64.of_Z 1000) in
            let clu_spikes :=
              map fst (List.filter (fun r => Z.eqb (snd r) cluster_id) npclu) in
            let* start_offset := samples_of_ms (fst bn) in
            let start_sample := F64.add event_sample start_offset in
            let* end_offset := samples_of_ms (snd bn) in
            let end_sample := F64.add event_sample end_offset in
            let window_spikes :=
              List.filter (fun s => F64.geb s start_sample && F64.leb s end_sample)
                clu_spikes in
            ret (map (fun s => F64.div (F64.mul (F64.sub s event_sample)
                                                (F64.of_Z 1000))
                                       (F64.of_Z FS))
                     window_spikes)
    end.

(** Both bounds of the window, in samples, are within the floats. *)
Definition window_ok (bn : Z * Z) : bool :=
  F64.is_finite (F64.of_Z (fst bn * FS)) && F64.is_finite (F64.of_Z (snd bn * FS)).

Lemma samples_of_ms_cases (ms : Z) :
  if F64.is_finite (F64.of_Z (ms * FS))
  then exists x, samples_of_ms ms = ret x
  else samples_of_ms ms = raise OverflowError.
Proof.
  unfold samples_of_ms, py_float_of_int. cbv zeta.
  destruct (F64.is_finite (F64.of_Z (ms * FS))); cbn [bind]; eauto.
Qed.

(** The only error of [_load_np_spike] is the [OverflowError] of a window
    bound that is beyond the floats. *)
Lemma load_np_spike_cases (npclu : npclu_table) (events : events_table)
    (subtrial : Z) (event_field : string) (bn : Z * Z) (cluster_id : Z) :
  match _load_np_spike npclu events subtrial event_field bn cluster_id with
  | inr _ => True
  | inl e => e = OverflowError /\ window_ok bn = false
  end.
Proof.
  unfold _load_np_spike, window_ok. cbv zeta.
  destruct (Nat.eqb (length npclu) 0); [exact I|].
  destruct (events !! event_field) as [event_times|]; [|exact I].
  destruct (Z.of_nat (length event_times) <=? _)%Z; [exact I|].
  destruct (F64.isnan _ || F64.eqb _ F64.zero); [exact I|].
  pose proof (samples_of_ms_cases (fst bn)) as H1.
  pose proof (samples_of_ms_cases (snd bn)) as H2.
  destruct (F64.is_finite (F64.of_Z (fst bn * FS))).
  - destruct H1 as [x ->]. cbn [bind].
    destruct (F64.is_finite (F64.of_Z (snd bn * FS))).
    + destruct H2 as [y ->]. exact I.
    + rewrite H2. split; reflexivity.
  - rewrite H1. split; reflexivity.
Qed.

Lemma load_np_spike_returns (npclu : npclu_table) (events : events_table)
    (subtrial : Z) (event_field : string) (bn : Z * Z) (cluster_id : Z) :
  window_ok bn = true ->
  exists v, _load_np_spike npclu events subtrial event_field bn cluster_id = ret v.
Proof.
  intros Hok.
  pose proof (load_np_spike_cases npclu events subtrial event_field bn cluster_id)
    as H.
  destruct (_load_np_spike _ _ _ _ _ _) as [e|v]; [|exists v; reflexivity].
  destruct H as [_ H]. congruence.
Qed.

Section TrialSpikes.

(** The recordings of a day ([dayrecs]) and the per-recording tables
    ([_load_events], [_load_npclu]); [None] when no file provides the
    table. *)
Variable dayrecs : string -> list string.
Variable _load_events : string -> string -> option events_table.
Variable _load_npclu : string -> string -> option npclu_table.

(** The loop over the trials of one recording. *)
Definition load_rec_trials (trials : list trial) (npclu : npclu_table)
    (events : events_table) (event_field : string) (bn : Z * Z)
    (cluster_id : Z) (rec_trial_indices : list nat)
    (spike_result : list (list F64.float)) : result (list (list F64.float)) :=
  fold_result
    (fun spike_result i_tr =>
       match trials !! i_tr with
       | None => ret spike_result
       | Some t =>
           let subtrial := default (Z.of_nat i_tr) (trial_index t) in
           let* spikes :=
             _load_np_spike npclu events subtrial event_field bn cluster_id in
           ret (<[i_tr := spikes]> spike_result)
       end)
    spike_result rec_trial_indices.

Definition trial_np_spike (trials : list trial) (cluster_id : Z)
    (event_field : string) (bn : Z * Z) : result (list (list F64.float)) :=
  match trials with
  | [] => ret []
  | t0 :: _ =>
      let day := trial_day t0 in
      let n_total_tr := length trials in
      let spike_result := replicate n_total_tr [] in
      let trial_recs := map trial_rec trials in
      let all_recs := dayrecs day in
      fold_result
        (fun spike_result rec =>
           let rec_trial_indices :=
             List.filter (fun i => String.eqb (nth i trial_recs EmptyString) rec)
               (seq 0 n_total_tr) in
           match rec_trial_indices with
           | [] => ret spike_result
           | _ :: _ =>
               match _load_events day rec with
               | None => ret spike_result
               | Some events =>
                   match _load_npclu day rec with
                   | None => ret spike_result
                   | Some npclu =>
                       load_rec_trials trials npclu events event_field bn
                         cluster_id rec_trial_indices spike_result
                   end
               end
           end)
        spike_result all_recs
  end.

(** The trial's local index into the event arrays. *)
Definition local_index (i_tr : nat) (t : trial) : Z :=
  let subtrial := default (Z.of_nat i_tr) (trial_index t) in
  if (0 <? subtrial)%Z then (subtrial - 1)%Z else 0%Z.

(** The aligning event has no usable timestamp for the trial: the field is
    absent, the local index is out of range, or the timestamp is NaN or
    zero. *)
Definition no_timestamp (events : events_table) (event_field : string)
    (idx : Z) : Prop :=
  match events !! event_field with
  | None => True
  | Some event_times =>
      (Z.of_nat (length event_times) <= idx)%Z \/
      exists x, event_times !! Z.to_nat idx = Some x /\
                (F64.isnan x = true \/ F64.eqb x F64.zero = true)
  end.

Lemma load_np_spike_no_timestamp (npclu : npclu_table) (events : events_table)
    (i_tr : nat) (t : trial) (event_field : string) (bn : Z * Z) (cluster_id : Z) :
  no_timestamp events event_field (local_index i_tr t) ->
  _load_np_spike npclu events (default (Z.of_nat i_tr) (trial_index t))
    event_field bn cluster_id = ret [].
Proof.
  unfold no_timestamp, _load_np_spike, local_index. cbv zeta.
  destruct (Nat.eqb (length npclu) 0); [reflexivity|].
  destruct (events !! event_field) as [event_times|]; [|reflexivity].
  set (idx := if (0 <? _)%Z then _ else _).
  intros [Hlen|(x & Hx & Hbad)].
  - destruct (Z.leb_spec (Z.of_nat (length event_times)) idx); [reflexivity|lia].
  - destruct (Z.of_nat (length event_times) <=? idx)%Z; [reflexivity|].
    rewrite (nth_lookup_Some _ _ _ _ Hx).
    destruct Hbad as [-> | ->]; [reflexivity|].
    rewrite orb_true_r. reflexivity.
Qed.

(** What the loop over the trials of one recording leaves in the slots. *)
Lemma load_rec_trials_cases (trials : list trial) (npclu : npclu_table)
    (events : events_table) (event_field : string) (bn : Z * Z) (cluster_id : Z)
    (indices : list nat) (spike_result : list (list F64.float)) :
  length spike_result = length trials ->
  match load_rec_trials trials npclu events event_field bn cluster_id
          indices spike_result with
  | inr out =>
      length out = length trials /\
      forall i t, trials !! i = Some t ->
        (i ∈ indices ->
         exists v,
           _load_np_spike npclu events (default (Z.of_nat i) (trial_index t))
             event_field bn cluster_id = ret v /\
           out !! i = Some v) /\
        (i ∉ indices -> out !! i = spike_result !! i)
  | inl e => e = OverflowError /\ window_ok bn = false
  end.
Proof.
  unfold load_rec_trials.
  revert spike_result. induction indices as [|j indices IH]; intros sr Hlen.
  - cbn [fold_result ret]. split; [exact Hlen|]. intros i t Hi.
    split; [|reflexivity]. intros H. inversion H.
  - cbn [fold_result].
    destruct (trials !! j) as [tj|] eqn:Etj.
    + cbv zeta.
      pose proof (load_np_spike_cases npclu events
                    (default (Z.of_nat j) (trial_index tj)) event_field bn
                    cluster_id) as Hcase.
      destruct (_load_np_spike npclu events _ event_field bn cluster_id)
        as [e|vj] eqn:Ej; cbn [bind ret]; [exact Hcase|].
      specialize (IH (<[j := vj]> sr)).
      rewrite length_insert in IH. specialize (IH Hlen).
      destruct (fold_result _ (<[j := vj]> sr) indices) as [e|out]; [exact IH|].
      destruct IH as [Hl Hslots]. split; [exact Hl|].
      intros i t Hi. destruct (Hslots i t Hi) as [Hin Hout].
      destruct (decide (i ∈ indices)) as [Hmem|Hnot].
      * split; [intros _; exact (Hin Hmem)|].
        intros Hn. exfalso. apply Hn, elem_of_cons. auto.
      * split.
        -- intros Hc. apply elem_of_cons in Hc as [->|Hc]; [|contradiction].
           assert (t = tj) by congruence. subst t.
           exists vj. split; [exact Ej|]. rewrite (Hout Hnot).
           apply list_lookup_insert_eq. rewrite Hlen. eapply lookup_lt_Some, Hi.
        -- intros Hn. rewrite (Hout Hnot).
           apply list_lookup_insert_ne. intros ->. apply Hn, elem_of_cons. auto.
    + cbn [bind ret]. specialize (IH sr Hlen).
      destruct (fold_result _ sr indices) as [e|out]; [exact IH|].
      destruct IH as [Hl Hslots]. split; [exact Hl|].
      intros i t Hi. destruct (Hslots i t Hi) as [Hin Hout].
      destruct (decide (i ∈ indices)) as [Hmem|Hnot].
      * split; [intros _; exact (Hin Hmem)|].
        intros Hn. exfalso. apply Hn, elem_of_cons. auto.
      * split; [|intros _; exact (Hout Hnot)].
        intros Hc. apply elem_of_cons in Hc as [->|Hc]; [|contradiction].
        congruence.
Qed.

(** What the slot of trial [i] holds once the recordings [done] have been
    gone through: the window cut out of the tables of the trial's recording
    when that is one of [done] and both its tables load, nothing
    otherwise. *)
Definition slot_holds (day : string) (done : list string) (i : nat) (t : trial)
    (event_field : string) (bn : Z * Z) (cluster_id : Z) (v : list F64.float)
  : Prop :=
  if bool_decide (trial_rec t ∈ done) then
    match _load_events day (trial_rec t), _load_npclu day (trial_rec t) with
    | Some events, Some npclu =>
        _load_np_spike npclu events (default (Z.of_nat i) (trial_index t))
          event_field bn cluster_id = ret v
    | _, _ => v = []
    end
  else v = [].

Lemma slot_holds_snoc (day : string) (done : list string) (rec : string)
    (i : nat) (t : trial) (event_field : string) (bn : Z * Z) (cluster_id : Z)
    (v : list F64.float) :
  trial_rec t <> rec ->
  slot_holds day (done ++ [rec])%list i t event_field bn cluster_id v <->
  slot_holds day done i t event_field bn cluster_id v.
Proof.
  intros Hne. unfold slot_holds.
  destruct (bool_decide_reflect (trial_rec t ∈ (done ++ [rec])%list)) as [H1|H1];
    destruct (bool_decide_reflect (trial_rec t ∈ done)) as [H2|H2]; try reflexivity.
  - apply elem_of_app in H1 as [H1|H1]; [contradiction|].
    apply list_elem_of_singleton in H1. contradiction.
  - exfalso. apply H1, elem_of_app. auto.
Qed.

(** The slots of a result of the extractor. *)
Definition slots_hold (trials : list trial) (day : string) (done : list string)
    (event_field : string) (bn : Z * Z) (cluster_id : Z)
    (spike_result : list (list F64.float)) : Prop :=
  length spike_result = length trials /\
  forall i t, trials !! i = Some t ->
    exists v, spike_result !! i = Some v /\
              slot_holds day done i t event_field bn cluster_id v.

Lemma trial_np_spike_cases (t0 : trial) (rest : list trial) (cluster_id : Z)
    (event_field : string) (bn : Z * Z) :
  match trial_np_spike (t0 :: rest) cluster_id event_field bn with
  | inr out =>
      slots_hold (t0 :: rest) (trial_day t0) (dayrecs (trial_day t0))
        event_field bn cluster_id out
  | inl e => e = OverflowError /\ window_ok bn = false
  end.
Proof.
  unfold trial_np_spike. cbv zeta.
  set (trials := t0 :: rest). set (day := trial_day t0).
  set (step := fun (spike_result : list (list F64.float)) (rec : string) => _).
  assert (Hgen : forall recs done sr,
    slots_hold trials day done event_field bn cluster_id sr ->
    match fold_result step sr recs with
    | inr out =>
        slots_hold trials day (done ++ recs)%list event_field bn cluster_id out
    | inl e => e = OverflowError /\ window_ok bn = false
    end).
  { induction recs as [|rec recs IH]; intros done sr Hinv.
    - cbn [fold_result ret]. rewrite app_nil_r. exact Hinv.
    - cbn [fold_result].
      assert (Hstep : match step sr rec with
                      | inr sr' =>
                          slots_hold trials day (done ++ [rec])%list event_field
                            bn cluster_id sr'
                      | inl e => e = OverflowError /\ window_ok bn = false
                      end).
      { subst step. cbv beta zeta. destruct Hinv as [Hlen Hslots].
        set (indices := List.filter _ _).
        assert (Hidx : forall i t, trials !! i = Some t ->
                  (i ∈ indices <-> trial_rec t = rec)).
        { intros i t Hi. subst indices. rewrite list_elem_of_In, filter_In, in_seq.
          rewrite (nth_lookup_Some _ _ _ (trial_rec t))
            by (rewrite list_lookup_fmap, Hi; reflexivity).
          rewrite String.eqb_eq. apply lookup_lt_Some in Hi. split; [tauto|].
          intros ->. split; [lia|reflexivity]. }
        (* a recording whose tables are missing leaves every slot as it is *)
        assert (Hskip : (_load_events day rec = None \/ _load_npclu day rec = None \/
                         indices = []) ->
                  slots_hold trials day (done ++ [rec])%list event_field bn
                    cluster_id sr).
        { intros Hmiss. split; [exact Hlen|]. intros i t Hi.
          destruct (Hslots i t Hi) as (v & Hv & Hslot). exists v.
          split; [exact Hv|].
          destruct (decide (trial_rec t = rec)) as [Heq|Hne];
            [|apply slot_holds_snoc; assumption].
          unfold slot_holds in Hslot |- *.
          rewrite bool_decide_eq_true_2
            by (apply elem_of_app; right; apply list_elem_of_singleton, Heq).
          destruct Hmiss as [Hm|[Hm|Hm]].
          - rewrite Heq, Hm in Hslot |- *. destruct (bool_decide _); exact Hslot.
          - rewrite Heq, Hm in Hslot |- *.
            destruct (_load_events day rec); destruct (bool_decide _); exact Hslot.
          - exfalso. apply (Hidx i t Hi) in Heq. rewrite Hm in Heq. inversion Heq. }
        destruct indices as [|j indices'] eqn:Eind; [apply Hskip; auto|].
        rewrite <- Eind in *. clear Eind.
        destruct (_load_events day rec) as [events|] eqn:Hev; [|apply Hskip; auto].
        destruct (_load_npclu day rec) as [npclu|] eqn:Hnp; [|apply Hskip; auto].
        pose proof (load_rec_trials_cases trials npclu events event_field bn
                      cluster_id indices sr Hlen) as Hrec.
        destruct (load_rec_trials trials npclu events event_field bn cluster_id
                    indices sr) as [e|out]; [exact Hrec|].
        destruct Hrec as [Hl Hout]. split; [exact Hl|]. intros i t Hi.
        destruct (Hout i t Hi) as [Hin Hnin].
        destruct (decide (trial_rec t = rec)) as [Heq|Hne].
        - destruct (Hin (proj2 (Hidx i t Hi) Heq)) as (v & Hv & Hslot).
          exists v. split; [exact Hslot|]. unfold slot_holds.
          rewrite bool_decide_eq_true_2
            by (apply elem_of_app; right; apply list_elem_of_singleton, Heq).
          rewrite Heq, Hev, Hnp. exact Hv.
        - destruct (Hslots i t Hi) as (v & Hv & Hslot). exists v. split.
          + rewrite Hnin by (intros Hc; apply Hne, (Hidx i t Hi), Hc). exact Hv.
          + apply slot_holds_snoc; assumption. }
      destruct (step sr rec) as [e|sr']; cbn [bind]; [exact Hstep|].
      replace (done ++ rec :: recs)%list with ((done ++ [rec]) ++ recs)%list
        by (rewrite <- app_assoc; reflexivity).
      apply IH, Hstep. }
  apply (Hgen (dayrecs day) [] (replicate (length trials) [])).
  split; [apply length_replicate|]. intros i t Hi. exists [].
  split; [apply lookup_replicate_2; eapply lookup_lt_Some, Hi|reflexivity].
Qed.

(** C6. For every trial handed to the extractor: when its recording has no
    events table or no spike table, or the aligning event has no usable
    timestamp at the trial's local index (field absent, index out of range,
    NaN, or exactly zero), the trial's result is the empty array and
    handling the trial raises no error: whenever the extractor returns, the
    trial's slot is empty; it returns for every window whose bounds, in
    samples, are within the floats; and the extraction for the trial itself
    returns the empty array whatever the window. *)
Theorem trial_without_event_has_no_spikes (t0 : trial) (rest : list trial)
    (i_tr : nat) (t : trial) (cluster_id : Z) (event_field : string)
    (bn : Z * Z) :
  (t0 :: rest) !! i_tr = Some t ->
  let day := trial_day t0 in
  (_load_events day (trial_rec t) = None \/
   _load_npclu day (trial_rec t) = None \/
   exists events,
     _load_events day (trial_rec t) = Some events /\
     no_timestamp events event_field (local_index i_tr t)) ->
  (forall out, trial_np_spike (t0 :: rest) cluster_id event_field bn = ret out ->
               out !! i_tr = Some []) /\
  (window_ok bn = true ->
   exists out, trial_np_spike (t0 :: rest) cluster_id event_field bn = ret out /\
               out !! i_tr = Some []) /\
  (forall events npclu,
     _load_events day (trial_rec t) = Some events ->
     _load_npclu day (trial_rec t) = Some npclu ->
     _load_np_spike npclu events (default (Z.of_nat i_tr) (trial_index t))
       event_field bn cluster_id = ret []).
Proof.
  intros Ht day Hcond.
  assert (Hown : forall events npclu,
            _load_events day (trial_rec t) = Some events ->
            _load_npclu day (trial_rec t) = Some npclu ->
            _load_np_spike npclu events (default (Z.of_nat i_tr) (trial_index t))
              event_field bn cluster_id = ret []).
  { intros events npclu Hev Hnp.
    destruct Hcond as [H|[H|(events' & Hev' & Hno)]]; [congruence|congruence|].
    assert (events' = events) by congruence. subst events'.
    apply load_np_spike_no_timestamp, Hno. }
  assert (Hslot : forall out,
            trial_np_spike (t0 :: rest) cluster_id event_field bn = ret out ->
            out !! i_tr = Some []).
  { intros out Hout.
    pose proof (trial_np_spike_cases t0 rest cluster_id event_field bn) as Hc.
    rewrite Hout in Hc. destruct Hc as [_ Hslots].
    destruct (Hslots i_tr t Ht) as (v & Hv & Hs). rewrite Hv. f_equal.
    unfold slot_holds in Hs. fold day in Hs.
    destruct (bool_decide _); [|exact Hs].
    destruct (_load_events day (trial_rec t)) as [events|] eqn:Hev; [|exact Hs].
    destruct (_load_npclu day (trial_rec t)) as [npclu|] eqn:Hnp; [|exact Hs].
    rewrite (Hown events npclu eq_refl eq_refl) in Hs. injection Hs as <-.
    reflexivity. }
  split; [exact Hslot|]. split; [|exact Hown].
  intros Hok.
  pose proof (trial_np_spike_cases t0 rest cluster_id event_field bn) as Hc.
  destruct (trial_np_spike (t0 :: rest) cluster_id event_field bn) as [e|out] eqn:E.
  - destruct Hc as [_ Hc]. congruence.
  - exists out. split; [reflexivity|]. apply Hslot. reflexivity.
Qed.

End TrialSpikes.

(** ** Task-type event selection ([_extract_task_rasters]) *)

Local Open Scope string_scope.

Record TaskTypeConfig : Type := {
  name : string;
  py_task_types : list string;
  primary_event : string;
  fallback_event : option string;
  time_window : Z * Z;
  rt_event : string;
  rt_baseline : string;
  rt_fallback_event : option string;
  rt_fallback_baseline : option string
}.

Definition TASK_TYPES : list TaskTypeConfig := [
  {| name := "CO"; py_task_types := ["delayed_saccade"];
     primary_event := "TargsOn"; fallback_event := Some "disTargsOn";
     time_window := (-300, 500)%Z;
     rt_event := "SaccStart"; rt_baseline := "TargsOn";
     rt_fallback_event := Some "SaccStart";
     rt_fallback_baseline := Some "disTargsOn" |};
  {| name := "Lum"; py_task_types := ["luminance_reward_selection"];
     primary_event := "disGo"; fallback_event := Some "Go";
     time_window := (-300, 500)%Z;
     rt_event := "SaccStart"; rt_baseline := "disGo";
     rt_fallback_event := Some "SaccStart"; rt_fallback_baseline := Some "Go" |};
  {| name := "Reach";
     py_task_types := ["delayed_reach_and_saccade"; "delayed_reach"; "gaze_anchoring"];
     primary_event := "ReachStart"; fallback_event := None;
     time_window := (-400, 400)%Z;
     rt_event := "ReachStart"; rt_baseline := "TargsOn";
     rt_fallback_event := None; rt_fallback_baseline := None |};
  {| name := "GAF"; py_task_types := ["gaze_anchoring_fast"];
     primary_event := "disTargsOn"; fallback_event := Some "TargsOn";
     time_window := (-300, 500)%Z;
     rt_event := "SaccStart"; rt_baseline := "disGo";
     rt_fallback_event := Some "SaccStart"; rt_fallback_baseline := Some "Go" |};
  {| name := "Saccade"; py_task_types := ["doublestep_saccade_fast"];
     primary_event := "disTargsOn"; fallback_event := Some "TargsOn";
     time_window := (-300, 500)%Z;
     rt_event := "SaccStart"; rt_baseline := "disGo";
     rt_fallback_event := Some "SaccStart"; rt_fallback_baseline := Some "Go" |};
  {| name := "Touch_feed"; py_task_types := ["simple_touch_task_feedback"];
     primary_event := "disTargsOn"; fallback_event := Some "TargsOn";
     time_window := (-300, 500)%Z;
     rt_event := "SaccStart"; rt_baseline := "disGo";
     rt_fallback_event := Some "SaccStart"; rt_fallback_baseline := Some "Go" |};
  {| name := "Touch"; py_task_types := ["simple_touch_task"];
     primary_event := "disTargsOn"; fallback_event := Some "TargsOn";
     time_window := (-300, 500)%Z;
     rt_event := "SaccStart"; rt_baseline := "disGo";
     rt_fallback_event := Some "SaccStart"; rt_fallback_baseline := Some "Go" |};
  {| name := "Null"; py_task_types := ["null"];
     primary_event := "Pulse_start"; fallback_event := None;
     time_window := (-300, 500)%Z;
     rt_event := ""; rt_baseline := "";
     rt_fallback_event := None; rt_fallback_baseline := None |}
].

(** Python's [float(v)]. A scalar converts. An array of exactly one number
    converts under the NumPy releases that still convert arrays of size 1 to
    scalars ([size1_converts]; NumPy before 2.4) and is a [TypeError] under
    the later ones; every other array is a [TypeError]. *)
Definition py_float (size1_converts : bool) (v : value) : result F64.float :=
  match v with
  | VFloat x => ret x
  | VArray [x] => if size1_converts then ret x else raise TypeError
  | VArray _ => raise TypeError
  end.

(** Truth value of an optional string: [None] and [""] are false. *)
Definition truthy (s : option string) : bool :=
  match s with
  | Some s => negb (String.eqb s "")
  | None => false
  end.

(** [a or b] on an optional string and a string. *)
Definition or_else (a : option string) (b : string) : string :=
  match a with
  | Some s => if String.eqb s "" then b else s
  | None => b
  end.

(** [[f(x) for x in l]] with a body that may raise. *)
Fixpoint for_each {A B : Type} (f : A -> result B) (l : list A) : result (list B) :=
  match l with
  | [] => ret []
  | x :: l' =>
      let* y := f x in
      let* ys := for_each f l' in
      ret (y :: ys)
  end.

Definition _compute_rt (size1_converts : bool) (trials : list trial)
    (event_field baseline_field : string) : result (list F64.float) :=
  if String.eqb event_field "" || String.eqb baseline_field "" then ret []
  else
    for_each
      (fun t =>
         match trial_fields t !! event_field, trial_fields t !! baseline_field with
         | Some ev, Some bl =>
             let* e := py_float size1_converts ev in
             let* b := py_float size1_converts bl in
             ret (F64.sub e b)
         | _, _ => ret F64.nan
         end)
      trials.

Section TaskRasters.

Variable dayrecs : string -> list string.
Variable _load_events : string -> string -> option events_table.
Variable _load_npclu : string -> string -> option npclu_table.
Variable size1_converts : bool.

(** The body of the [try] block: extraction with the primary event. *)
Definition primary_attempt (trials : list trial) (clu : Z) (task_cfg : TaskTypeConfig)
  : result (list (list F64.float) * list F64.float) :=
  let* spikes :=
    trial_np_spike dayrecs _load_events _load_npclu trials clu
      (primary_event task_cfg) (time_window task_cfg) in
  let* rt := _compute_rt size1_converts trials (rt_event task_cfg)
               (rt_baseline task_cfg) in
  ret (spikes, rt).

(** The retry of the [except] block, with event [fb]. *)
Definition fallback_attempt (trials : list trial) (clu : Z) (task_cfg : TaskTypeConfig)
    (fb : string) : result (list (list F64.float) * list F64.float) :=
  let* spikes :=
    trial_np_spike dayrecs _load_events _load_npclu trials clu fb
      (time_window task_cfg) in
  let fb_event := or_else (rt_fallback_event task_cfg) (rt_event task_cfg) in
  let fb_base := or_else (rt_fallback_baseline task_cfg) (rt_baseline task_cfg) in
  let* rt := _compute_rt size1_converts trials fb_event fb_base in
  ret (spikes, rt).

Definition _extract_task_rasters (trials : list trial) (clu : Z)
    (task_cfg : TaskTypeConfig)
  : result (list (list F64.float) * list F64.float) :=
  match primary_attempt trials clu task_cfg with
  | inr r => ret r
  | inl _ =>
      if truthy (fallback_event task_cfg) then
        fallback_attempt trials clu task_cfg (default "" (fallback_event task_cfg))
      else
        ret (map (fun _ => []) trials, [])
  end.

(** What the [except] branch does when the primary attempt raises: with a
    fallback event the result is that of the retry, an error of the retry
    included; without one it is one empty spike array per trial next to an
    empty list of reaction times. *)
Lemma extract_task_rasters_except_branch (trials : list trial) (clu : Z)
    (task_cfg : TaskTypeConfig) :
  raises (primary_attempt trials clu task_cfg) = true ->
  match fallback_event task_cfg with
  | Some fb =>
      if String.eqb fb "" then
        _extract_task_rasters trials clu task_cfg =
          ret (replicate (length trials) [], [])
      else
        _extract_task_rasters trials clu task_cfg =
          fallback_attempt trials clu task_cfg fb
  | None =>
      _extract_task_rasters trials clu task_cfg =
        ret (replicate (length trials) [], [])
  end.
Proof.
  intros Hraise. unfold _extract_task_rasters.
  destruct (primary_attempt trials clu task_cfg) as [e|r]; [|discriminate].
  assert (Hempty : map (fun _ : trial => ([] : list F64.float)) trials =
                   replicate (length trials) []).
  { induction trials as [|t ts IH]; cbn; [reflexivity|]. f_equal. exact IH. }
  unfold truthy.
  destruct (fallback_event task_cfg) as [fb|]; cbn [default negb].
  - destruct (String.eqb fb ""); cbn [negb]; [rewrite Hempty|]; reflexivity.
  - rewrite Hempty. reflexivity.
Qed.

End TaskRasters.

(** The defaults of the [TaskTypeConfig] dataclass. *)
Definition default_task_type : TaskTypeConfig :=
  {| name := ""; py_task_types := [];
     primary_event := "TargsOn"; fallback_event := None;
     time_window := (-300, 500)%Z;
     rt_event := "SaccStart"; rt_baseline := "TargsOn";
     rt_fallback_event := None; rt_fallback_baseline := None |}.

(** *** A trial whose movement events did not occur

    One trial of recording 007 whose [ReachStart] and [SaccStart] fields are
    empty arrays; no file of the day is on disk. *)
Module RasterExample.

Definition dayrecs (day : string) : list string := [].
Definition _load_events (day rec : string) : option events_table := None.
Definition _load_npclu (day rec : string) : option npclu_table := None.

Definition the_trial : trial :=
  {| trial_day := "250101"; trial_rec := "007"; trial_index := Some 1%Z;
     trial_fields :=
       <["ReachStart" := VArray []]>
       (<["SaccStart" := VArray []]>
       (<["TargsOn" := VFloat (F64.of_Z 100)]>
       (<["disTargsOn" := VFloat (F64.of_Z 100)]> ∅))) |}.

Definition reach : TaskTypeConfig := nth 2 TASK_TYPES default_task_type.
Definition center_out : TaskTypeConfig := nth 0 TASK_TYPES default_task_type.

(** The reaction time [_compute_rt] gives the trial once its [ReachStart]
    is missing from the dictionary instead of being an empty array. *)
Definition trial_without_reach_start : trial :=
  {| trial_day := "250101"; trial_rec := "007"; trial_index := Some 1%Z;
     trial_fields := <["TargsOn" := VFloat (F64.of_Z 100)]> ∅ |}.

End RasterExample.

(** C7. The code at the failing inputs. The trial's primary extraction
    raises ([float()] of an empty array). For the reaches, which have no
    fallback event, the result is one empty spike array next to no reaction
    time at all, where [_compute_rt] itself pairs a trial whose field is
    missing with a NaN. For the centre-out task the retry with the fallback
    event raises in turn, and the error reaches the caller. Both hold under
    either NumPy behaviour. *)
Theorem extract_task_rasters_at_failing_input (size1_converts : bool) :
  raises (primary_attempt RasterExample.dayrecs RasterExample._load_events
            RasterExample._load_npclu size1_converts [RasterExample.the_trial] 5
            RasterExample.reach) = true /\
  _extract_task_rasters RasterExample.dayrecs RasterExample._load_events
    RasterExample._load_npclu size1_converts [RasterExample.the_trial] 5
    RasterExample.reach = ret ([[]], []) /\
  _compute_rt size1_converts [RasterExample.trial_without_reach_start]
    "ReachStart" "TargsOn" = ret [F64.nan] /\
  _extract_task_rasters RasterExample.dayrecs RasterExample._load_events
    RasterExample._load_npclu size1_converts [RasterExample.the_trial] 5
    RasterExample.center_out = raise TypeError.
Proof. destruct size1_converts; vm_compute; repeat split; reflexivity. Qed.

(** C7 as the specification words it: when the primary attempt raises and
    there is no fallback event, or the retry raises as well, the result is
    an empty spike array and a NaN reaction time for every trial. *)
Definition fallback_never_raises_claim : Prop :=
  forall (dayrecs : string -> list string)
         (_load_events : string -> string -> option events_table)
         (_load_npclu : string -> string -> option npclu_table)
         (size1_converts : bool)
         (trials : list trial) (clu : Z) (task_cfg : TaskTypeConfig),
    raises (primary_attempt dayrecs _load_events _load_npclu size1_converts
              trials clu task_cfg) = true ->
    truthy (fallback_event task_cfg) = false \/
    raises (fallback_attempt dayrecs _load_events _load_npclu size1_converts
              trials clu task_cfg (default "" (fallback_event task_cfg))) = true ->
    _extract_task_rasters dayrecs _load_events _load_npclu size1_converts
      trials clu task_cfg =
      ret (map (fun _ => []) trials, map (fun _ => F64.nan) trials).

(** The code does not do that: without a fallback event the reaction times
    come back as an empty list, not as one NaN per trial. *)
Lemma fallback_never_raises_claim_fails : ~ fallback_never_raises_claim.
Proof.
  intros H.
  specialize (H RasterExample.dayrecs RasterExample._load_events
                RasterExample._load_npclu true [RasterExample.the_trial] 5%Z
                RasterExample.reach).
  assert (H1 : raises (primary_attempt RasterExample.dayrecs
                         RasterExample._load_events RasterExample._load_npclu
                         true [RasterExample.the_trial] 5 RasterExample.reach)
               = true)
    by (vm_compute; reflexivity).
  specialize (H H1 (or_introl eq_refl)).
  vm_compute in H. discriminate H.
Qed.

(** ** Cluster channel profiler ([clus_channel_info]) *)

(** Python's [l[i]]: a negative index counts from the end; an index outside
    the list is an [IndexError]. *)
Definition py_index {A : Type} (l : list A) (i : Z) : result A :=
  let n := Z.of_nat (length l) in
  let j := if (i <? 0)%Z then (i + n)%Z else i in
  if (j <? 0)%Z then raise IndexError
  else
    match l !! Z.to_nat j with
    | Some x => ret x
    | None => raise IndexError
    end.

(** [np.max] on a float array: NaN wins; an empty array is a
    [ValueError]. *)
Definition np_max (l : list F64.float) : result F64.float :=
  match l with
  | [] => raise ValueError
  | x :: l' =>
      ret (foldl (fun m y => if F64.isnan m then m
                             else if F64.isnan y then y
                             else if F64.ltb m y then y else m) x l')
  end.

(** [np.argmin] on a float array, the mirror image of [argmax]. *)
Fixpoint argmin_loop (mp : F64.float) (min_ind i : nat) (l : list F64.float) : nat :=
  match l with
  | [] => min_ind
  | x :: l' =>
      if negb (F64.geb x mp) then
        if F64.isnan x then i else argmin_loop x i (S i) l'
      else argmin_loop mp min_ind (S i) l'
  end.

Definition argmin (l : list F64.float) : nat :=
  match l with
  | [] => 0%nat
  | x :: l' => if F64.isnan x then 0%nat else argmin_loop x 0 1 l'
  end.

(** The PC features [pc_feat]: for every spike and every principal
    component, one value per local channel; [pc_n_chan] is [shape[2]]. *)
Record pc_features : Type := {
  pc_n_chan : nat;
  pc_rows : list (list (list F64.float))
}.

(** The part of the sorter output the profiler reads: the cluster of every
    spike, the template of every cluster (time by channel), the local
    channels of every cluster and the PC features (possibly absent). *)
Record KsOutput : Type := {
  sp_clu : list Z;
  sp_temps : list (list (list F64.float));
  sp_pc_feat_ind : list (list Z);
  sp_pc_feat : option pc_features
}.

Definition alpha : F64.float := F64.of_Z 1.
Definition one_half : F64.float := F64.div (F64.of_Z 1) (F64.of_Z 2).
Definition min_pc_threshold : F64.float := F64.div (F64.of_Z 1) (F64.of_Z 10).

(** [np.where(mask)[0]] for a mask given as a predicate on positions. *)
Definition where_ (n : nat) (mask : nat -> bool) : list nat :=
  List.filter mask (seq 0 n).

(** The spikes of a cluster: [np.where(spike_temps == clu_id)[0]]. *)
Definition spikes_of (sp : KsOutput) (clu_id : Z) : list nat :=
  where_ (length (sp_clu sp)) (fun i => Z.eqb (nth i (sp_clu sp) 0%Z) clu_id).

(** [np.sum(this_clu_wfs ** 2, axis=0)] on a time-by-channel matrix with
    [n_local] columns. *)
Definition column_energy (this_clu_wfs : list (list F64.float)) (n_local : nat)
  : list F64.float :=
  map (fun j =>
         foldl (fun acc r => let x := nth j r F64.zero in F64.add acc (F64.mul x x))
               F64.zero this_clu_wfs)
      (seq 0 n_local).

(** The share of the spikes whose three PC features on channel [ch] are not
    all zero. *)
Definition non_zero_ratio (my_pc_feat : list (list (list F64.float))) (ch : nat)
  : F64.float :=
  let zero_mask :=
    map (fun spike =>
           forallb (fun pc => F64.eqb (nth ch pc F64.zero) F64.zero) spike)
        my_pc_feat in
  F64.sub (F64.of_Z 1)
    (F64.div (F64.of_Z (Z.of_nat (count_true zero_mask)))
             (F64.of_Z (Z.of_nat (length my_pc_feat)))).

(** The body of the loop over the clusters: best and worst channel of one
    cluster. *)
Definition cluster_sites (sp : KsOutput) (clu_id : Z) : result (Z * Z) :=
  let my_spikes := spikes_of sp clu_id in
  if Nat.eqb (length my_spikes) 0 then ret (0%Z, 0%Z)
  else
    let* this_clu_temp := py_index (sp_temps sp) clu_id in
    let* tmp_ind := py_index (sp_pc_feat_ind sp) clu_id in
    let* this_clu_wfs :=
      for_each (fun r => for_each (py_index r) tmp_ind) this_clu_temp in
    let n_local := length tmp_ind in
    let ptp_energy := column_energy this_clu_wfs n_local in
    let* my_pc_feat :=
      match sp_pc_feat sp with
      | None => ret None
      | Some pf =>
          let* rows :=
            for_each (fun i => py_index (pc_rows pf) (Z.of_nat i)) my_spikes in
          ret (Some (pc_n_chan pf, map (take 3) rows))
      end in
    let non_zeros_pc_ratios :=
      match my_pc_feat with
      | None => replicate n_local F64.zero
      | Some (n_chan, rows) =>
          map (fun ch => if Nat.ltb ch (Nat.min n_local n_chan)
                         then non_zero_ratio rows ch else F64.zero)
              (seq 0 n_local)
      end in
    let* max_e := np_max ptp_energy in
    let max_energy := if F64.gtb max_e F64.zero then max_e else F64.of_Z 1 in
    let ptp_norm := map (fun e => F64.div e max_energy) ptp_energy in
    let* max_r := np_max non_zeros_pc_ratios in
    let max_nzr := if F64.gtb max_r F64.zero then max_r else F64.of_Z 1 in
    let nzr_norm := map (fun r => F64.div r max_nzr) non_zeros_pc_ratios in
    let combined_score :=
      zip_with (fun p r => F64.add (F64.mul alpha p)
                             (F64.mul (F64.sub (F64.of_Z 1) alpha) r))
               ptp_norm nzr_norm in
    let best_idx := argmax combined_score in
    let best_idx :=
      if F64.ltb (nth best_idx non_zeros_pc_ratios F64.nan) one_half then
        let eligible :=
          where_ n_local (fun i => F64.geb (nth i non_zeros_pc_ratios F64.nan) one_half) in
        if Nat.ltb 0 (length eligible) then
          nth (argmax (map (fun i => nth i combined_score F64.nan) eligible))
              eligible 0%nat
        else best_idx
      else best_idx in
    let max_site := nth best_idx tmp_ind 0%Z in
    let worst_idx := argmin ptp_energy in
    let worst_idx :=
      if F64.ltb (nth worst_idx non_zeros_pc_ratios F64.nan) min_pc_threshold then
        let eligible :=
          where_ n_local
            (fun i => F64.geb (nth i non_zeros_pc_ratios F64.nan) min_pc_threshold
                      && F64.gtb (nth i ptp_energy F64.nan) F64.zero) in
        if Nat.ltb 0 (length eligible) then
          nth (argmin (map (fun i => nth i ptp_energy F64.nan) eligible))
              eligible 0%nat
        else worst_idx
      else worst_idx in
    let min_site := nth worst_idx tmp_ind 0%Z in
    ret (max_site, min_site).

(** [clus_channel_info]: the sites of the clusters [cids], in order. *)
Definition clus_channel_info (sp : KsOutput) (cids : list Z)
  : result (list Z * list Z) :=
  let* sites := for_each (cluster_sites sp) cids in
  ret (map fst sites, map snd sites).

Lemma for_each_lookup {A B : Type} (f : A -> result B) (l : list A)
    (ys : list B) (k : nat) (x : A) :
  for_each f l = ret ys -> l !! k = Some x ->
  exists y, f x = ret y /\ ys !! k = Some y.
Proof.
  revert ys k. induction l as [|a l IH]; intros ys k Hf Hk; [inversion Hk|].
  cbn in Hf. destruct (f a) as [e|y] eqn:Ea; [discriminate|]. cbn in Hf.
  destruct (for_each f l) as [e|ys'] eqn:El; [discriminate|]. cbn in Hf.
  injection Hf as <-. destruct k as [|k].
  - injection Hk as <-. exists y. auto.
  - destruct (IH ys' k eq_refl Hk) as (y' & Hy' & Hl). exists y'. auto.
Qed.

(** C8. A cluster none of whose spikes is recorded gets channel 0 as its
    best and as its worst channel, whatever the templates and the PC
    features are (they are not read for it); and so it does in the arrays
    [clus_channel_info] returns. *)
Theorem cluster_without_spikes_gets_channel_zero (sp : KsOutput) (clu_id : Z) :
  spikes_of sp clu_id = [] ->
  cluster_sites sp clu_id = ret (0%Z, 0%Z) /\
  forall (cids max_site min_site : list Z) (k : nat),
    clus_channel_info sp cids = ret (max_site, min_site) ->
    cids !! k = Some clu_id ->
    max_site !! k = Some 0%Z /\ min_site !! k = Some 0%Z.
Proof.
  intros Hno.
  assert (Hsite : cluster_sites sp clu_id = ret (0%Z, 0%Z)).
  { unfold cluster_sites. cbv zeta. rewrite Hno. reflexivity. }
  split; [exact Hsite|].
  intros cids max_site min_site k Hinfo Hk. unfold clus_channel_info in Hinfo.
  destruct (for_each (cluster_sites sp) cids) as [e|sites] eqn:Es; [discriminate|].
  cbn in Hinfo. injection Hinfo as <- <-.
  destruct (for_each_lookup _ _ _ _ _ Es Hk) as (y & Hy & Hl).
  rewrite Hsite in Hy. injection Hy as <-.
  rewrite !list_lookup_fmap, Hl. split; reflexivity.
Qed.

(** *** A sorter output with a silent cluster

    Two spikes, both of cluster 1, whose template is strongest on channel 1
    and weakest on channel 2; cluster 0 has no spike. *)
Module ProfilerExample.

Definition f (z : Z) : F64.float := F64.of_Z z.

Definition sp : KsOutput :=
  {| sp_clu := [1%Z; 1%Z];
     sp_temps := [[]; [[f 0; f 1; f 2]; [f 0; f 3; f 0]]];
     sp_pc_feat_ind := [[]; [2%Z; 1%Z]];
     sp_pc_feat :=
       Some {| pc_n_chan := 2;
               pc_rows := [[[f 1; f 0]; [f 0; f 0]; [f 0; f 0]];
                           [[f 1; f 1]; [f 0; f 0]; [f 0; f 0]]] |} |}.

End ProfilerExample.

Lemma cluster_without_spikes_gets_channel_zero_witness :
  spikes_of ProfilerExample.sp 0 = [] /\
  cluster_sites ProfilerExample.sp 0 = ret (0%Z, 0%Z) /\
  clus_channel_info ProfilerExample.sp [0%Z; 1%Z] = ret ([0%Z; 1%Z], [0%Z; 2%Z]).
Proof.
  assert (Hno : spikes_of ProfilerExample.sp 0 = []) by reflexivity.
  destruct (cluster_without_spikes_gets_channel_zero ProfilerExample.sp 0 Hno)
    as [Hsite _].
  split; [exact Hno|]. split; [exact Hsite|]. vm_compute. reflexivity.
Defined.

(** ** Running the stitcher ([NeuronStitcher.run]) *)

(** The cluster tables of one recording's [NPclu] file: all clusters, the
    sorter's good clusters, and the isolated clusters when they were
    extracted. *)
Record NPcluFile : Type := {
  clu_info : list (Z * nat);
  ks_clu_info : list (Z * nat);
  iso_clu_info : option (list (Z * nat))
}.

(** The state [_load_cluster_info] builds up. *)
Record ClusterState : Type := {
  st_clu_info_per_rec : list (list (Z * nat));
  st_chan_map : option (list nat);
  st_all_iso_chans : list (list nat)
}.

(** [MindSnagConfig.validate]: the data root has to exist. *)
Definition validate (data_root_exists : bool) : result unit :=
  if data_root_exists then ret tt else raise FileNotFoundError.

(** The choice of the cluster table by [cluster_type]. *)
Definition select_cluster_info (cluster_type : string) (f : NPcluFile)
  : result (list (Z * nat)) :=
  if String.eqb cluster_type "All" then ret (clu_info f)
  else if String.eqb cluster_type "Good" then ret (ks_clu_info f)
  else if String.eqb cluster_type "Isolated" then
    match iso_clu_info f with
    | None => raise ValueError
    | Some info => ret info
    end
  else raise ValueError.

(** [np.unique] on channel ids: sorted, without repetition. *)
Definition np_unique (l : list nat) : list nat := remove_dups (merge_sort le l).

(** *** The stitching loop on the unit files

    [_get_waveform] and [_get_firing_rate] read the files of a unit, and a
    read may raise: the loop of [_run_stitching] is here with such reads,
    in the order in which it makes them. When every read returns, it
    computes the table [_run_stitching] above computes from the features
    read ([run_stitching_reading_cases]). *)

Lemma for_each_cases {A B : Type} (f : A -> result B) (g : A -> B)
    (P : exn -> Prop) (l : list A) :
  (forall x, x ∈ l -> match f x with inr y => y = g x | inl e => P e end) ->
  match for_each f l with inr ys => ys = map g l | inl e => P e end.
Proof.
  induction l as [|a l IH]; intros Hall; [reflexivity|].
  cbn [for_each map].
  pose proof (Hall a ltac:(apply elem_of_cons; auto)) as Ha.
  destruct (f a) as [e|y]; cbn [bind]; [exact Ha|]. subst y.
  specialize (IH (fun x Hx => Hall x ltac:(apply elem_of_cons; auto))).
  destruct (for_each f l) as [e|ys]; cbn [bind ret]; [exact IH|].
  rewrite IH. reflexivity.
Qed.

Lemma for_each_raises_eq {A B C : Type} (f : A -> result B) (g : A -> result C)
    (l : list A) :
  (forall x, raises (f x) = raises (g x)) ->
  raises (for_each f l) = raises (for_each g l).
Proof.
  intros Hfg. induction l as [|a l IH]; [reflexivity|].
  cbn [for_each]. specialize (Hfg a).
  destruct (f a), (g a); try discriminate Hfg; cbn [bind]; [reflexivity|].
  destruct (for_each f l), (for_each g l); try discriminate IH; reflexivity.
Qed.

Lemma nth_map_seq {A : Type} (F : nat -> A) (d : A) (n i : nat) :
  (i < n)%nat -> nth i (map F (seq 0 n)) d = F i.
Proof.
  intros Hi. apply nth_lookup_Some.
  rewrite list_lookup_fmap, lookup_seq_lt by exact Hi. reflexivity.
Qed.

(** The features a read gives when it returns. *)
Definition features_read (get : Z -> nat -> result (list F64.float))
  : Z -> nat -> list F64.float :=
  fun clu rec => match get clu rec with inr v => v | inl _ => [] end.

Section StitcherReads.

Variable corrcoef : list F64.float -> list F64.float -> F64.float.
Variable fr_threshold wf_threshold : F64.float.
Variable min_recs : Z.
Variable chan_range : Z.
Variable clu_info_per_rec : list (list (Z * nat)).
Variable chan_map : list nat.
Variable uni_chans : list nat.
Variable elec_num : list Z.

(** [_get_waveform(clu, rec)] and [_get_firing_rate(clu, rec)] on the files
    of the unit, the recording given by its index. *)
Variable _get_waveform : Z -> nat -> result (list F64.float).
Variable _get_firing_rate : Z -> nat -> result (list F64.float).

(** One candidate of the gathering loop: the waveform is read first. *)
Definition read_candidate (i_rec : nat) (c : Z) : result candidate :=
  let* wf := _get_waveform c i_rec in
  let* fr := _get_firing_rate c i_rec in
  ret (Candidate c wf fr).

(** The gathering loop for one nearby channel: the candidates of every
    recording are appended to those gathered so far. *)
Definition gather_channel (all : list (list candidate)) (ch : nat)
  : result (list (list candidate)) :=
  match chan_map !! ch with
  | None => ret all
  | Some ch_id =>
      let cluster_ids := _get_cluster_ids clu_info_per_rec chan_map ch_id in
      for_each
        (fun i_rec =>
           let* found := for_each (read_candidate i_rec) (nth i_rec cluster_ids []) in
           ret (nth i_rec all [] ++ found)%list)
        (seq 0 (num_recs clu_info_per_rec))
  end.

Definition gather_reading (nearby_chans : list nat)
  : result (list (list candidate)) :=
  fold_result gather_channel (replicate (num_recs clu_info_per_rec) []) nearby_chans.

(** The row of one unit: its firing rate is read first, then its waveform;
    the matching is that of [stitch_unit] on the two. *)
Definition stitch_unit_reading (all : list (list candidate)) (i_rec : nat)
    (clu_id : Z) : result row :=
  let* fr := _get_firing_rate clu_id i_rec in
  let* wf := _get_waveform clu_id i_rec in
  ret (stitch_unit corrcoef fr_threshold wf_threshold clu_info_per_rec
         (fun _ _ => wf) (fun _ _ => fr) all i_rec clu_id).

Definition stitch_channel_reading (current_chan : nat) : result (list row) :=
  let nearby_chans := _get_within_range_channels chan_range elec_num current_chan in
  let* all := gather_reading nearby_chans in
  let current_clu_ids := _get_cluster_ids clu_info_per_rec chan_map current_chan in
  let* rows :=
    for_each
      (fun i_rec =>
         for_each (stitch_unit_reading all i_rec) (nth i_rec current_clu_ids []))
      (seq 0 (num_recs clu_info_per_rec)) in
  ret (concat rows).

Definition prediction_list_reading : result (list row) :=
  let* rows := for_each stitch_channel_reading uni_chans in
  ret (concat rows).

Definition _run_stitching_reading : result (list row) :=
  let* prediction_list := prediction_list_reading in
  match prediction_list with
  | [] => ret []
  | _ :: _ =>
      let stitch_array := prediction_list in
      let unique_stitch := deduplicate stitch_array in
      ret (filter_min_recs min_recs unique_stitch)
  end.

(** An error of the loop is the error of a read. *)
Definition read_raises (e : exn) : Prop :=
  exists clu rec, _get_waveform clu rec = raise e \/
                  _get_firing_rate clu rec = raise e.

Let wf_read := features_read _get_waveform.
Let fr_read := features_read _get_firing_rate.

Lemma read_candidate_cases (i_rec : nat) (c : Z) :
  match read_candidate i_rec c with
  | inr o => o = Candidate c (wf_read c i_rec) (fr_read c i_rec)
  | inl e => read_raises e
  end.
Proof.
  unfold read_candidate, wf_read, fr_read, features_read.
  destruct (_get_waveform c i_rec) as [e|wf] eqn:Ew; cbn [bind].
  - exists c, i_rec. auto.
  - destruct (_get_firing_rate c i_rec) as [e|fr] eqn:Ef; cbn [bind ret].
    + exists c, i_rec. auto.
    + reflexivity.
Qed.

Lemma gather_channel_cases (prefix : list nat) (ch : nat) :
  match gather_channel (gather clu_info_per_rec chan_map wf_read fr_read prefix) ch with
  | inr all => all = gather clu_info_per_rec chan_map wf_read fr_read (prefix ++ [ch])
  | inl e => read_raises e
  end.
Proof.
  unfold gather_channel.
  assert (Hsnoc : forall (extra : nat -> list candidate),
            (forall i_rec,
               extra i_rec =
               match chan_map !! ch with
               | Some ch_id =>
                   map (fun c => Candidate c (wf_read c i_rec) (fr_read c i_rec))
                       (nth i_rec (_get_cluster_ids clu_info_per_rec chan_map ch_id) [])
               | None => []
               end) ->
            map (fun i_rec =>
                   (nth i_rec (gather clu_info_per_rec chan_map wf_read fr_read prefix)
                        [] ++ extra i_rec)%list)
                (seq 0 (num_recs clu_info_per_rec))
            = gather clu_info_per_rec chan_map wf_read fr_read (prefix ++ [ch])).
  { intros extra Hextra. unfold gather. apply map_ext_in. intros i Hi.
    apply in_seq in Hi. rewrite nth_map_seq by lia.
    rewrite flat_map_app. cbn [flat_map]. rewrite app_nil_r, Hextra. reflexivity. }
  destruct (chan_map !! ch) as [ch_id|] eqn:Ech.
  - cbv zeta.
    pose proof (for_each_cases
      (fun i_rec =>
         let* found := for_each (read_candidate i_rec)
                         (nth i_rec (_get_cluster_ids clu_info_per_rec chan_map ch_id) [])
         in ret (nth i_rec (gather clu_info_per_rec chan_map wf_read fr_read prefix) []
                   ++ found)%list)
      (fun i_rec =>
         (nth i_rec (gather clu_info_per_rec chan_map wf_read fr_read prefix) [] ++
          map (fun c => Candidate c (wf_read c i_rec) (fr_read c i_rec))
              (nth i_rec (_get_cluster_ids clu_info_per_rec chan_map ch_id) []))%list)
      read_raises (seq 0 (num_recs clu_info_per_rec))) as Hfe.
    cbv beta in Hfe.
    destruct (for_each _ (seq 0 (num_recs clu_info_per_rec))) as [e|all].
    + apply Hfe. intros i _.
      pose proof (for_each_cases (read_candidate i)
                    (fun c => Candidate c (wf_read c i) (fr_read c i)) read_raises
                    (nth i (_get_cluster_ids clu_info_per_rec chan_map ch_id) [])
                    (fun c _ => read_candidate_cases i c)) as Hin.
      destruct (for_each (read_candidate i) _) as [e'|found]; cbn [bind ret];
        [exact Hin|]. rewrite Hin. reflexivity.
    + rewrite Hfe.
      * apply (Hsnoc (fun i_rec =>
                 map (fun c => Candidate c (wf_read c i_rec) (fr_read c i_rec))
                     (nth i_rec (_get_cluster_ids clu_info_per_rec chan_map ch_id) []))).
        intros i. reflexivity.
      * intros i _.
        pose proof (for_each_cases (read_candidate i)
                      (fun c => Candidate c (wf_read c i) (fr_read c i)) read_raises
                      (nth i (_get_cluster_ids clu_info_per_rec chan_map ch_id) [])
                      (fun c _ => read_candidate_cases i c)) as Hin.
        destruct (for_each (read_candidate i) _) as [e'|found]; cbn [bind ret];
          [exact Hin|]. rewrite Hin. reflexivity.
  - cbn [ret]. rewrite <- (Hsnoc (fun _ => [])) by reflexivity.
    unfold gather. apply map_ext_in. intros i Hi. apply in_seq in Hi.
    rewrite nth_map_seq by lia. rewrite app_nil_r. reflexivity.
Qed.

Lemma gather_reading_cases (nearby_chans : list nat) :
  match gather_reading nearby_chans with
  | inr all => all = gather clu_info_per_rec chan_map wf_read fr_read nearby_chans
  | inl e => read_raises e
  end.
Proof.
  unfold gather_reading.
  assert (Hinit : replicate (num_recs clu_info_per_rec) ([] : list candidate)
                  = gather clu_info_per_rec chan_map wf_read fr_read []).
  { unfold gather. cbn [flat_map]. generalize (num_recs clu_info_per_rec).
    intros n. generalize 0%nat. induction n as [|n IH]; intros k; cbn;
      [reflexivity|]. f_equal. apply IH. }
  rewrite Hinit. change nearby_chans with ([] ++ nearby_chans)%list at 2.
  generalize (@nil nat) as prefix.
  induction nearby_chans as [|ch rest IH]; intros prefix.
  - cbn [fold_result ret]. rewrite app_nil_r. reflexivity.
  - cbn [fold_result].
    pose proof (gather_channel_cases prefix ch) as Hch.
    destruct (gather_channel _ ch) as [e|all]; cbn [bind]; [exact Hch|].
    rewrite Hch.
    replace (prefix ++ ch :: rest)%list with ((prefix ++ [ch]) ++ rest)%list
      by (rewrite <- app_assoc; reflexivity).
    apply IH.
Qed.

Lemma stitch_unit_reading_cases (all : list (list candidate)) (i_rec : nat)
    (clu_id : Z) :
  match stitch_unit_reading all i_rec clu_id with
  | inr r => r = stitch_unit corrcoef fr_threshold wf_threshold clu_info_per_rec
                   wf_read fr_read all i_rec clu_id
  | inl e => read_raises e
  end.
Proof.
  unfold stitch_unit_reading, stitch_unit, wf_read, fr_read, features_read.
  destruct (_get_firing_rate clu_id i_rec) as [e|fr] eqn:Ef; cbn [bind].
  - exists clu_id, i_rec. auto.
  - destruct (_get_waveform clu_id i_rec) as [e|wf] eqn:Ew; cbn [bind ret].
    + exists clu_id, i_rec. auto.
    + reflexivity.
Qed.

Lemma stitch_channel_reading_cases (current_chan : nat) :
  match stitch_channel_reading current_chan with
  | inr rows =>
      rows = stitch_channel corrcoef fr_threshold wf_threshold chan_range
               clu_info_per_rec chan_map elec_num wf_read fr_read current_chan
  | inl e => read_raises e
  end.
Proof.
  unfold stitch_channel_reading, stitch_channel. cbv zeta.
  pose proof (gather_reading_cases
                (_get_within_range_channels chan_range elec_num current_chan)) as Hg.
  destruct (gather_reading _) as [e|all]; cbn [bind]; [exact Hg|]. subst all.
  set (all := gather _ _ _ _ _).
  pose proof (for_each_cases
    (fun i_rec =>
       for_each (stitch_unit_reading all i_rec)
         (nth i_rec (_get_cluster_ids clu_info_per_rec chan_map current_chan) []))
    (fun i_rec =>
       map (stitch_unit corrcoef fr_threshold wf_threshold clu_info_per_rec
              wf_read fr_read all i_rec)
           (nth i_rec (_get_cluster_ids clu_info_per_rec chan_map current_chan) []))
    read_raises (seq 0 (num_recs clu_info_per_rec))
    (fun i _ => for_each_cases (stitch_unit_reading all i) _ read_raises _
                  (fun c _ => stitch_unit_reading_cases all i c))) as Hfe.
  cbv beta in Hfe.
  destruct (for_each _ (seq 0 (num_recs clu_info_per_rec))) as [e|rows];
    cbn [bind ret]; [exact Hfe|].
  rewrite Hfe. symmetry. apply flat_map_concat_map.
Qed.

Lemma prediction_list_reading_cases :
  match prediction_list_reading with
  | inr rows =>
      rows = prediction_list corrcoef fr_threshold wf_threshold chan_range
               clu_info_per_rec chan_map uni_chans elec_num wf_read fr_read
  | inl e => read_raises e
  end.
Proof.
  unfold prediction_list_reading, prediction_list.
  pose proof (for_each_cases stitch_channel_reading _ read_raises uni_chans
                (fun ch _ => stitch_channel_reading_cases ch)) as Hfe.
  destruct (for_each stitch_channel_reading uni_chans) as [e|rows];
    cbn [bind ret]; [exact Hfe|].
  rewrite Hfe. symmetry. apply flat_map_concat_map.
Qed.

(** The loop on the files either raises the error of a read, or returns the
    table [_run_stitching] computes from the features read. *)
Lemma run_stitching_reading_cases :
  match _run_stitching_reading with
  | inr table =>
      table = _run_stitching corrcoef fr_threshold wf_threshold min_recs chan_range
                clu_info_per_rec chan_map uni_chans elec_num
                (features_read _get_waveform) (features_read _get_firing_rate)
  | inl e => read_raises e
  end.
Proof.
  unfold _run_stitching_reading, _run_stitching.
  pose proof prediction_list_reading_cases as Hp.
  destruct prediction_list_reading as [e|rows]; cbn [bind]; [exact Hp|].
  fold wf_read fr_read. rewrite <- Hp. destruct rows; reflexivity.
Qed.

End StitcherReads.

(** Whether the loop raises is a matter of the reads alone: it does not
    depend on the thresholds or on the minimum number of recordings. *)
Lemma run_stitching_reading_raises
    (corrcoef : list F64.float -> list F64.float -> F64.float)
    (fr_threshold wf_threshold fr_threshold' wf_threshold' : F64.float)
    (min_recs min_recs' chan_range : Z)
    (clu_info_per_rec : list (list (Z * nat))) (chan_map uni_chans : list nat)
    (elec_num : list Z)
    (_get_waveform _get_firing_rate : Z -> nat -> result (list F64.float)) :
  raises (_run_stitching_reading corrcoef fr_threshold wf_threshold min_recs
            chan_range clu_info_per_rec chan_map uni_chans elec_num
            _get_waveform _get_firing_rate) =
  raises (_run_stitching_reading corrcoef fr_threshold' wf_threshold' min_recs'
            chan_range clu_info_per_rec chan_map uni_chans elec_num
            _get_waveform _get_firing_rate).
Proof.
  assert (Hunit : forall all i c,
    raises (stitch_unit_reading corrcoef fr_threshold wf_threshold clu_info_per_rec
              _get_waveform _get_firing_rate all i c) =
    raises (stitch_unit_reading corrcoef fr_threshold' wf_threshold' clu_info_per_rec
              _get_waveform _get_firing_rate all i c)).
  { intros all i c. unfold stitch_unit_reading.
    destruct (_get_firing_rate c i); [reflexivity|]. cbn [bind].
    destruct (_get_waveform c i); reflexivity. }
  assert (Hchan : forall ch,
    raises (stitch_channel_reading corrcoef fr_threshold wf_threshold chan_range
              clu_info_per_rec chan_map elec_num _get_waveform _get_firing_rate ch) =
    raises (stitch_channel_reading corrcoef fr_threshold' wf_threshold' chan_range
              clu_info_per_rec chan_map elec_num _get_waveform _get_firing_rate ch)).
  { intros ch. unfold stitch_channel_reading. cbv zeta.
    destruct (gather_reading _ _ _ _ _) as [e|all]; [reflexivity|]. cbn [bind].
    pose proof (for_each_raises_eq
      (fun i_rec =>
         for_each (stitch_unit_reading corrcoef fr_threshold wf_threshold
                     clu_info_per_rec _get_waveform _get_firing_rate all i_rec)
           (nth i_rec (_get_cluster_ids clu_info_per_rec chan_map ch) []))
      (fun i_rec =>
         for_each (stitch_unit_reading corrcoef fr_threshold' wf_threshold'
                     clu_info_per_rec _get_waveform _get_firing_rate all i_rec)
           (nth i_rec (_get_cluster_ids clu_info_per_rec chan_map ch) []))
      (seq 0 (num_recs clu_info_per_rec))
      (fun i => for_each_raises_eq _ _ _ (Hunit all i))) as H.
    cbv beta in H.
    destruct (for_each _ (seq 0 (num_recs clu_info_per_rec)));
      destruct (for_each _ (seq 0 (num_recs clu_info_per_rec)));
      try discriminate H; reflexivity. }
  unfold _run_stitching_reading, prediction_list_reading.
  pose proof (for_each_raises_eq _ _ uni_chans Hchan) as H.
  destruct (for_each _ uni_chans) as [e|rows];
    destruct (for_each _ uni_chans) as [e'|rows'];
    try discriminate H; cbn [bind ret]; [reflexivity|].
  destruct (concat rows), (concat rows'); reflexivity.
Qed.

Section Run.

Variable corrcoef : list F64.float -> list F64.float -> F64.float.
Variable elec_num : list Z.
Variable _get_waveform : Z -> nat -> result (list F64.float).
Variable _get_firing_rate : Z -> nat -> result (list F64.float).

(** The files of the session: whether the data root exists, the [NPclu]
    file of a recording ([None] when neither the HDF5 nor the MATLAB file
    exists) and the channel map of the sorter output ([load_ks_dir]). *)
Variable data_root_exists : bool.
Variable npclu_file : string -> option NPcluFile.
Variable load_chan_map : result (list nat).

(** The stitcher as constructed: recordings, cluster-type filter and the
    stitching parameters of the configuration. *)
Variable recs : list string.
Variable cluster_type : string.
Variable fr_threshold wf_threshold : F64.float.
Variable min_recs : Z.
Variable chan_range : Z.

(** One turn of the loop over the recordings. *)
Definition load_rec (st : ClusterState) (rec : string) : result ClusterState :=
  let* f := match npclu_file rec with
            | Some f => ret f
            | None => raise FileNotFoundError
            end in
  let* selected_info := select_cluster_info cluster_type f in
  let* chan_map := match st_chan_map st with
                   | Some m => ret m
                   | None => load_chan_map
                   end in
  let iso_chans := omap (fun r : Z * nat => chan_map !! snd r) selected_info in
  ret {| st_clu_info_per_rec := st_clu_info_per_rec st ++ [selected_info];
         st_chan_map := Some chan_map;
         st_all_iso_chans := st_all_iso_chans st ++ [iso_chans] |}.

Fixpoint load_recs (st : ClusterState) (recs : list string) : result ClusterState :=
  match recs with
  | [] => ret st
  | rec :: recs' =>
      let* st' := load_rec st rec in
      load_recs st' recs'
  end.

Definition _load_cluster_info : result ClusterState :=
  load_recs {| st_clu_info_per_rec := []; st_chan_map := None;
               st_all_iso_chans := [] |} recs.

(** [run]: validation, loading, stitching; the stitch table of the
    result. An error of a step, a read of a unit file included, ends the
    run. *)
Definition run : result (list row) :=
  let* _ := validate data_root_exists in
  let* st := _load_cluster_info in
  let uni_chans := np_unique (concat (st_all_iso_chans st)) in
  _run_stitching_reading corrcoef fr_threshold wf_threshold min_recs chan_range
    (st_clu_info_per_rec st) (default [] (st_chan_map st)) uni_chans
    elec_num _get_waveform _get_firing_rate.

End Run.

(** The cluster-type filters the stitcher knows. *)
Definition valid_cluster_type (cluster_type : string) : bool :=
  String.eqb cluster_type "All" || String.eqb cluster_type "Good"
  || String.eqb cluster_type "Isolated".

(** A threshold outside the interval from 0 to 1 (a NaN included). *)
Definition outside_unit_interval (x : F64.float) : bool :=
  negb (F64.leb F64.zero x && F64.leb x (F64.of_Z 1)).

Lemma select_cluster_info_invalid (cluster_type : string) (f : NPcluFile) :
  valid_cluster_type cluster_type = false ->
  select_cluster_info cluster_type f = raise ValueError.
Proof.
  unfold valid_cluster_type, select_cluster_info. intros H.
  apply orb_false_elim in H as [H H3]. apply orb_false_elim in H as [H1 H2].
  rewrite H1, H2, H3. reflexivity.
Qed.

(** C9, as the code has it. Whether a run raises does not depend on the two
    correlation thresholds: no range check is made on them. A cluster-type
    filter other than 'All', 'Good' and 'Isolated', on a stitcher with at
    least one recording, makes the run raise, so that no row is produced. *)
Theorem run_raises_on_invalid_cluster_type
    (corrcoef : list F64.float -> list F64.float -> F64.float)
    (elec_num : list Z)
    (_get_waveform _get_firing_rate : Z -> nat -> result (list F64.float))
    (data_root_exists : bool) (npclu_file : string -> option NPcluFile)
    (load_chan_map : result (list nat)) (recs : list string)
    (cluster_type : string) (fr_threshold wf_threshold : F64.float)
    (fr_threshold' wf_threshold' : F64.float) (min_recs chan_range : Z) :
  raises (run corrcoef elec_num _get_waveform _get_firing_rate data_root_exists
            npclu_file load_chan_map recs cluster_type fr_threshold wf_threshold
            min_recs chan_range) =
  raises (run corrcoef elec_num _get_waveform _get_firing_rate data_root_exists
            npclu_file load_chan_map recs cluster_type fr_threshold' wf_threshold'
            min_recs chan_range) /\
  (valid_cluster_type cluster_type = false ->
   recs <> [] ->
   raises (run corrcoef elec_num _get_waveform _get_firing_rate data_root_exists
             npclu_file load_chan_map recs cluster_type fr_threshold wf_threshold
             min_recs chan_range) = true).
Proof.
  unfold run, validate. split.
  - destruct data_root_exists; [|reflexivity]. cbn [bind].
    destruct (_load_cluster_info npclu_file load_chan_map recs cluster_type);
      [reflexivity|]. cbn [bind]. apply run_stitching_reading_raises.
  - intros Hinvalid Hrecs. destruct data_root_exists; [|reflexivity]. cbn [bind].
    unfold _load_cluster_info. destruct recs as [|rec recs']; [congruence|].
    cbn [load_recs]. unfold load_rec at 1.
    destruct (npclu_file rec) as [f|]; [|reflexivity]. cbn [bind ret].
    rewrite (select_cluster_info_invalid cluster_type f Hinvalid). reflexivity.
Qed.

(** *** A run with both thresholds at -1 *)
Module RunExample.

Definition npclu_file (rec : string) : option NPcluFile :=
  if String.eqb rec "007" then
    Some {| clu_info := [(1%Z, 0%nat)]; ks_clu_info := []; iso_clu_info := None |}
  else if String.eqb rec "009" then
    Some {| clu_info := [(2%Z, 0%nat)]; ks_clu_info := []; iso_clu_info := None |}
  else None.

Definition minus_one : F64.float := F64.of_Z (-1).

(** Every read returns the features of the two-recording session. *)
Definition read (clu : Z) (rec : nat) : result (list F64.float) :=
  ret (TwoRecordings.features clu rec).

Definition run_with (cluster_type : string) (threshold : F64.float)
  : result (list row) :=
  run TwoRecordings.corrcoef [] read read
    true npclu_file (ret [0%nat]) ["007"; "009"] cluster_type
    threshold threshold 2 10.

End RunExample.

Lemma run_raises_on_invalid_cluster_type_witness :
  valid_cluster_type "Best" = false /\
  ["007"; "009"] <> ([] : list string) /\
  raises (RunExample.run_with "Best" (F64.of_Z 1)) = true.
Proof.
  assert (H1 : valid_cluster_type "Best" = false) by reflexivity.
  assert (H2 : ["007"; "009"] <> ([] : list string)) by discriminate.
  split; [exact H1|]. split; [exact H2|].
  exact (proj2 (run_raises_on_invalid_cluster_type TwoRecordings.corrcoef []
                  RunExample.read RunExample.read true
                  RunExample.npclu_file (ret [0%nat]) ["007"; "009"] "Best"
                  (F64.of_Z 1) (F64.of_Z 1) (F64.of_Z 1) (F64.of_Z 1) 2 10) H1 H2).
Defined.

(** C9 as the specification words it for the thresholds: a run with a
    threshold outside the interval from 0 to 1 raises. *)
Definition thresholds_are_checked_claim : Prop :=
  forall (corrcoef : list F64.float -> list F64.float -> F64.float)
         (elec_num : list Z)
         (_get_waveform _get_firing_rate : Z -> nat -> result (list F64.float))
         (data_root_exists : bool) (npclu_file : string -> option NPcluFile)
         (load_chan_map : result (list nat)) (recs : list string)
         (cluster_type : string) (fr_threshold wf_threshold : F64.float)
         (min_recs chan_range : Z),
    outside_unit_interval fr_threshold = true \/
    outside_unit_interval wf_threshold = true ->
    raises (run corrcoef elec_num _get_waveform _get_firing_rate data_root_exists
              npclu_file load_chan_map recs cluster_type fr_threshold wf_threshold
              min_recs chan_range) = true.

(** With both thresholds at -1 the run goes through and stitches the two
    units into one row. *)
Lemma thresholds_are_checked_claim_fails : ~ thresholds_are_checked_claim.
Proof.
  intros H.
  specialize (H TwoRecordings.corrcoef [] RunExample.read
                RunExample.read true RunExample.npclu_file (ret [0%nat])
                ["007"; "009"] "All" RunExample.minus_one RunExample.minus_one
                2%Z 10%Z (or_introl eq_refl)).
  vm_compute in H. discriminate H.
Qed.

Example run_with_thresholds_out_of_range :
  RunExample.run_with "All" RunExample.minus_one =
    ret [[F64.of_Z 1; F64.of_Z 2]].
Proof. vm_compute. reflexivity. Qed.

(** *** A trial whose aligning event did not occur

    Recording 007 has both tables; the first trial's [TargsOn] timestamp is
    zero, the second trial's is 500 ms, with one spike of cluster 3 at
    sample 15300 (10 ms after the event). *)
Module SpikeExample.

Definition dayrecs (day : string) : list string := ["007"; "009"].

Definition events : events_table :=
  <["TargsOn" := [F64.zero; F64.of_Z 500]]> ∅.

Definition _load_events (day rec : string) : option events_table :=
  if String.eqb rec "007" then Some events else None.

Definition _load_npclu (day rec : string) : option npclu_table :=
  if String.eqb rec "007" then Some [(F64.of_Z 15300, 3%Z); (F64.of_Z 15300, 4%Z)]
  else None.

Definition trial_of (rec : string) (index : Z) : trial :=
  {| trial_day := "250101"; trial_rec := rec; trial_index := Some index;
     trial_fields := ∅ |}.

Definition first : trial := trial_of "007" 1.
Definition rest : list trial := [trial_of "007" 2; trial_of "009" 1].

End SpikeExample.

Lemma trial_without_event_has_no_spikes_witness :
  (SpikeExample.first :: SpikeExample.rest) !! 0%nat = Some SpikeExample.first /\
  no_timestamp SpikeExample.events "TargsOn" (local_index 0 SpikeExample.first) /\
  window_ok (-300, 500)%Z = true /\
  exists out,
    trial_np_spike SpikeExample.dayrecs SpikeExample._load_events
      SpikeExample._load_npclu (SpikeExample.first :: SpikeExample.rest) 3
      "TargsOn" (-300, 500)%Z = ret out /\
    out !! 0%nat = Some [].
Proof.
  assert (H1 : (SpikeExample.first :: SpikeExample.rest) !! 0%nat
               = Some SpikeExample.first) by reflexivity.
  assert (H2 : no_timestamp SpikeExample.events "TargsOn"
                 (local_index 0 SpikeExample.first)).
  { right. exists F64.zero. split; [reflexivity|]. right. reflexivity. }
  assert (H3 : window_ok (-300, 500)%Z = true) by reflexivity.
  split; [exact H1|]. split; [exact H2|]. split; [exact H3|].
  apply (trial_without_event_has_no_spikes SpikeExample.dayrecs
           SpikeExample._load_events SpikeExample._load_npclu
           SpikeExample.first SpikeExample.rest 0 SpikeExample.first 3
           "TargsOn" (-300, 500)%Z H1); [|exact H3].
  right. right. exists SpikeExample.events. split; [reflexivity|exact H2].
Defined.

(** The second trial keeps its spike, 10 ms after the event; the trial of
    the recording without tables stays empty. *)
Example trial_np_spike_example :
  trial_np_spike SpikeExample.dayrecs SpikeExample._load_events
    SpikeExample._load_npclu (SpikeExample.first :: SpikeExample.rest) 3
    "TargsOn" (-300, 500)%Z = ret [[]; [F64.of_Z 10]; []].
Proof. vm_compute. reflexivity. Qed.

(** A window whose upper bound, in samples, is beyond the floats: the
    second trial, whose event has a timestamp, makes the call raise. *)
Example trial_np_spike_window_overflow :
  trial_np_spike SpikeExample.dayrecs SpikeExample._load_events
    SpikeExample._load_npclu (SpikeExample.first :: SpikeExample.rest) 3
    "TargsOn" (-300, 2 ^ 1024)%Z = raise OverflowError.
Proof. vm_compute. reflexivity. Qed.

(** Without any recording the loop that checks the cluster type is never
    entered: the run returns the empty table. *)
Example run_without_recordings :
  run TwoRecordings.corrcoef [] RunExample.read RunExample.read
    true RunExample.npclu_file (ret [0%nat]) [] "Best"
    (F64.of_Z 1) (F64.of_Z 1) 2 10 = ret [].
Proof. vm_compute. reflexivity. Qed.

(** *** Three recordings, one unit each on the same channel

    Thresholds 0.85 and at least two recordings per row. A correlation is 1
    between equal vectors and 0 otherwise. *)
Module ThreeRecordings.

Fixpoint same_vector (x y : list F64.float) : bool :=
  match x, y with
  | [], [] => true
  | a :: x', b :: y' => F64.eqb a b && same_vector x' y'
  | _, _ => false
  end.

Definition corrcoef (x y : list F64.float) : F64.float :=
  if same_vector x y then F64.of_Z 1 else F64.zero.

Definition npclu_file (rec : string) : option NPcluFile :=
  let unit_on_channel_0 (id : Z) :=
    Some {| clu_info := [(id, 0%nat)]; ks_clu_info := []; iso_clu_info := None |} in
  if String.eqb rec "007" then unit_on_channel_0 1%Z
  else if String.eqb rec "009" then unit_on_channel_0 2%Z
  else if String.eqb rec "010" then unit_on_channel_0 3%Z
  else None.

Definition threshold : F64.float := F64.div (F64.of_Z 85) (F64.of_Z 100).

Definition curve : list F64.float := [F64.of_Z 1; F64.of_Z 5; F64.of_Z 2].
Definition other_curve : list F64.float := [F64.of_Z 4; F64.of_Z 0; F64.of_Z 9].

Definition same_rates (clu : Z) (rec : nat) : result (list F64.float) :=
  ret curve.
Definition one_differs (clu : Z) (rec : nat) : result (list F64.float) :=
  ret (if Nat.eqb rec 2 then other_curve else curve).

Definition run_with (rates : Z -> nat -> result (list F64.float))
  : result (list row) :=
  run corrcoef [] same_rates rates true npclu_file (ret [0%nat])
    ["007"; "009"; "010"] "All" threshold threshold 2 10.

End ThreeRecordings.

(** Identical features in the three recordings: one row with the three
    units. *)
Example three_identical_units_stitch_into_one_row :
  ThreeRecordings.run_with ThreeRecordings.same_rates =
    ret [[F64.of_Z 1; F64.of_Z 2; F64.of_Z 3]].
Proof. vm_compute. reflexivity. Qed.

(** The unit of the third recording fires differently: its slot is missing
    in the row of the other two, and its own row, covering one recording
    only, is dropped. *)
Example uncorrelated_unit_is_left_out :
  ThreeRecordings.run_with ThreeRecordings.one_differs =
    ret [[F64.of_Z 1; F64.of_Z 2; F64.nan]].
Proof. vm_compute. reflexivity. Qed.

(** * Further properties of the code *)

(** ** The channel neighbourhood and the clusters of a channel *)

Lemma elem_of_where_eq (arr : list nat) (v i : nat) :
  i ∈ where_eq arr v <-> arr !! i = Some v.
Proof.
  unfold where_eq. rewrite list_elem_of_In, filter_In, in_seq, Nat.eqb_eq. split.
  - intros [Hi Hv].
    destruct (lookup_lt_is_Some_2 arr i) as [x Hx]; [lia|].
    rewrite (nth_lookup_Some _ _ 0%nat _ Hx) in Hv. congruence.
  - intros Hi. split.
    + apply lookup_lt_Some in Hi. lia.
    + apply nth_lookup_Some. exact Hi.
Qed.

(** X1. Without electrode metadata for the channel (none at all, or fewer
    entries than the channel number) the neighbourhood of a channel is the
    channel alone. With it, the neighbourhood is exactly the channels whose
    electrode number is within [chan_range] of the channel's own, listed in
    increasing order; it contains the channel itself as soon as
    [chan_range] is not negative. *)
Theorem within_range_channels_are_the_electrode_neighbours
    (chan_range : Z) (elec_num : list Z) (selected_channel : nat) :
  let nearby := _get_within_range_channels chan_range elec_num selected_channel in
  let corr_elec := nth selected_channel elec_num 0%Z in
  ((length elec_num <= selected_channel)%nat -> nearby = [selected_channel]) /\
  ((selected_channel < length elec_num)%nat ->
   (forall ch, ch ∈ nearby <->
      exists e, elec_num !! ch = Some e /\ (Z.abs (e - corr_elec) <= chan_range)%Z) /\
   ((0 <= chan_range)%Z -> selected_channel ∈ nearby) /\
   StronglySorted le nearby).
Proof.
  cbv zeta. unfold _get_within_range_channels. split.
  - intros Hle. destruct (Nat.eqb (length elec_num) 0); [reflexivity|].
    destruct (Nat.leb_spec (length elec_num) selected_channel); [reflexivity|lia].
  - intros Hlt. destruct (Nat.eqb_spec (length elec_num) 0) as [H0|_]; [lia|].
    destruct (Nat.leb_spec (length elec_num) selected_channel) as [|_]; [lia|].
    cbn [orb]. cbv zeta.
    assert (Hin : forall ch,
      ch ∈ List.filter
             (fun i => let e := nth i elec_num 0%Z in
                (nth selected_channel elec_num 0 - chan_range <=? e)%Z &&
                (e <? nth selected_channel elec_num 0 + chan_range + 1)%Z)
             (seq 0 (length elec_num)) <->
      exists e, elec_num !! ch = Some e /\
                (Z.abs (e - nth selected_channel elec_num 0) <= chan_range)%Z).
    { intros ch. rewrite list_elem_of_In, filter_In, in_seq. cbv zeta.
      rewrite andb_true_iff, Z.leb_le, Z.ltb_lt. split.
      - intros [Hch Hr]. destruct (lookup_lt_is_Some_2 elec_num ch) as [e He]; [lia|].
        exists e. split; [exact He|].
        rewrite (nth_lookup_Some _ _ 0%Z _ He) in Hr. lia.
      - intros (e & He & Hr). split; [apply lookup_lt_Some in He; lia|].
        rewrite (nth_lookup_Some _ _ 0%Z _ He). lia. }
    split; [exact Hin|]. split.
    + intros Hr. apply Hin.
      destruct (lookup_lt_is_Some_2 elec_num selected_channel Hlt) as [e He].
      exists e. split; [exact He|].
      rewrite (nth_lookup_Some _ _ 0%Z _ He). lia.
    + apply filter_seq_sorted.
Qed.

Lemma within_range_channels_are_the_electrode_neighbours_witness :
  _get_within_range_channels 1 [5; 6; 7; 20]%Z 1 = [0; 1; 2]%nat /\
  _get_within_range_channels 1 [] 1 = [1%nat] /\
  1%nat ∈ _get_within_range_channels 1 [5; 6; 7; 20]%Z 1.
Proof.
  split; [reflexivity|]. split; [reflexivity|].
  destruct (within_range_channels_are_the_electrode_neighbours 1 [5; 6; 7; 20]%Z 1)
    as [_ H].
  destruct H as (_ & Hself & _); [cbn; lia|]. apply Hself. lia.
Defined.

Lemma elem_of_cluster_ids (clu_info_per_rec : list (list (Z * nat)))
    (chan_map : list nat) (channel_id i_rec : nat) (c : Z) :
  c ∈ nth i_rec (_get_cluster_ids clu_info_per_rec chan_map channel_id) [] <->
  exists k, (c, k) ∈ nth i_rec clu_info_per_rec [] /\
            chan_map !! k = Some channel_id.
Proof.
  unfold _get_cluster_ids. cbv zeta.
  set (f := fun info : list (Z * nat) => _).
  change ([] : list Z) with (f []) at 1. rewrite map_nth. subst f. cbv beta.
  set (info := nth i_rec clu_info_per_rec []).
  assert (Hmain : c ∈ map fst (List.filter
              (fun r : Z * nat => existsb (Nat.eqb r.2) (where_eq chan_map channel_id))
              info) <->
            exists k, (c, k) ∈ info /\ chan_map !! k = Some channel_id).
  { rewrite list_elem_of_In, in_map_iff. split.
    - intros ([c' k] & Hc & Hr). cbn in Hc. subst c'.
      apply filter_In in Hr as [Hr Hk]. apply existsb_exists in Hk as (j & Hj & Hjk).
      cbn in Hjk. apply Nat.eqb_eq in Hjk. subst j.
      exists k. split; [apply list_elem_of_In, Hr|].
      apply elem_of_where_eq, list_elem_of_In, Hj.
    - intros (k & Hr & Hk). exists (c, k). split; [reflexivity|].
      apply filter_In. split; [apply list_elem_of_In, Hr|].
      apply existsb_exists. exists k. split; [|apply Nat.eqb_refl].
      apply list_elem_of_In, elem_of_where_eq, Hk. }
  destruct (Nat.eqb_spec (length info) 0) as [Hinfo|_].
  - cbn [orb]. split; [intros H; inversion H|].
    intros (k & Hr & _). destruct info; [inversion Hr|discriminate].
  - destruct (Nat.eqb_spec (length (where_eq chan_map channel_id)) 0) as [Hw|_].
    + cbn [orb]. split; [intros H; inversion H|].
      intros (k & _ & Hk). apply elem_of_where_eq in Hk.
      destruct (where_eq chan_map channel_id); [inversion Hk|discriminate].
    + cbn [orb]. exact Hmain.
Qed.

(** X2. [_get_cluster_ids] returns one list per recording, and a cluster id
    is in the list of a recording exactly when the recording's table has a
    row with that id whose channel index is mapped to the channel by the
    channel map. *)
Theorem cluster_ids_are_the_clusters_on_the_channel
    (clu_info_per_rec : list (list (Z * nat))) (chan_map : list nat)
    (channel_id : nat) :
  length (_get_cluster_ids clu_info_per_rec chan_map channel_id)
    = length clu_info_per_rec /\
  forall i_rec c,
    c ∈ nth i_rec (_get_cluster_ids clu_info_per_rec chan_map channel_id) [] <->
    exists k, (c, k) ∈ nth i_rec clu_info_per_rec [] /\
              chan_map !! k = Some channel_id.
Proof.
  split; [apply length_map|]. intros i_rec c. apply elem_of_cluster_ids.
Qed.

(** ** Rows of the stitch table *)

(** The positions kept by the deduplication step. *)
Lemma deduplicate_positions (rows : list row) :
  deduplicate rows =
    map (fun i => nth i rows [])
      (List.filter (first_occurrence rows) (seq 0 (length rows))).
Proof.
  unfold deduplicate. cbv zeta.
  rewrite (np_sort_unique_index row_cmp row_neq [] (map nan_to_zero rows)
             row_cmp_antisym row_cmp_le_trans).
  - rewrite length_map. f_equal. apply filter_ext.
    intros i. apply is_first_first_occurrence.
  - intros i j _ _. unfold same_key. rewrite !key_nan_to_zero.
    apply row_neq_cmp; apply nan_to_zero_nan_free.
Qed.

(** A row is like one of the rows seen before it: identical once missing
    entries are replaced by 0. *)
Definition seen_before (seen : list row) (r : row) : bool :=
  existsb (fun s => rows_identical (nan_to_zero s) (nan_to_zero r)) seen.

(** Deduplication as one pass over the rows: a row is kept unless it is
    like a row seen before it. *)
Fixpoint keep_first (seen rows : list row) : list row :=
  match rows with
  | [] => []
  | r :: rows' =>
      if seen_before seen r then keep_first (seen ++ [r]) rows'
      else r :: keep_first (seen ++ [r]) rows'
  end.

Lemma map_nth_seq {A : Type} (l : list A) (d : A) :
  map (fun i => nth i l d) (seq 0 (length l)) = l.
Proof.
  apply list_eq. intros i. rewrite list_lookup_fmap.
  destruct (decide (i < length l)%nat) as [Hi|Hi].
  - rewrite lookup_seq_lt by exact Hi. cbn.
    destruct (lookup_lt_is_Some_2 l i Hi) as [x Hx].
    rewrite Hx. f_equal. apply nth_lookup_Some, Hx.
  - rewrite lookup_seq_ge by lia. rewrite lookup_ge_None_2 by lia. reflexivity.
Qed.

Lemma forallb_on_elements {A : Type} (f g : A -> bool) (l : list A) :
  (forall x, In x l -> f x = g x) -> forallb f l = forallb g l.
Proof.
  induction l as [|x l IH]; intros H; cbn; [reflexivity|].
  rewrite (H x) by (left; reflexivity).
  rewrite IH by (intros y Hy; apply H; right; exact Hy). reflexivity.
Qed.

Lemma forallb_of_map {A B : Type} (f : A -> B) (g : B -> bool) (l : list A) :
  forallb g (map f l) = forallb (fun x => g (f x)) l.
Proof. induction l as [|x l IH]; cbn; [reflexivity|]. rewrite IH. reflexivity. Qed.

Lemma forallb_negb_existsb {A : Type} (g : A -> bool) (l : list A) :
  forallb (fun x => negb (g x)) l = negb (existsb g l).
Proof.
  induction l as [|x l IH]; cbn; [reflexivity|]. rewrite IH, negb_orb. reflexivity.
Qed.

Lemma first_occurrence_seen_before (pre rows : list row) (r : row) :
  first_occurrence (pre ++ r :: rows) (length pre) = negb (seen_before pre r).
Proof.
  unfold first_occurrence, seen_before.
  replace (nth (length pre) (pre ++ r :: rows) []) with r
    by (rewrite app_nth2, Nat.sub_diag by lia; reflexivity).
  rewrite <- forallb_negb_existsb.
  rewrite <- (map_nth_seq pre []) at 2. rewrite forallb_of_map.
  apply forallb_on_elements. intros j Hj. apply in_seq in Hj.
  rewrite app_nth1 by lia. reflexivity.
Qed.

Lemma kept_positions_keep_first (pre rows : list row) :
  map (fun i => nth i (pre ++ rows) [])
    (List.filter (first_occurrence (pre ++ rows)) (seq (length pre) (length rows)))
  = keep_first pre rows.
Proof.
  revert pre. induction rows as [|r rows IH]; intros pre; [reflexivity|].
  cbn [length seq List.filter keep_first].
  rewrite first_occurrence_seen_before.
  specialize (IH (pre ++ [r])%list). rewrite <- app_assoc in IH. cbn [app] in IH.
  rewrite length_app in IH. cbn [length] in IH.
  replace (length pre + 1)%nat with (S (length pre)) in IH by lia.
  destruct (seen_before pre r); cbn [negb map].
  - exact IH.
  - rewrite IH. f_equal. rewrite app_nth2, Nat.sub_diag by lia. reflexivity.
Qed.

Lemma deduplicate_keep_first (rows : list row) :
  deduplicate rows = keep_first [] rows.
Proof. rewrite deduplicate_positions. apply (kept_positions_keep_first [] rows). Qed.

Lemma keep_first_sublist (seen rows : list row) :
  keep_first seen rows `sublist_of` rows.
Proof.
  revert seen. induction rows as [|r rows IH]; intros seen; cbn; [constructor|].
  destruct (seen_before seen r).
  - apply sublist_cons, IH.
  - apply sublist_skip, IH.
Qed.

(** No row of the list is like a row of [seen] or like an earlier row of
    the list. *)
Fixpoint all_new (seen rows : list row) : Prop :=
  match rows with
  | [] => True
  | r :: rows' => seen_before seen r = false /\ all_new (seen ++ [r]) rows'
  end.

Lemma keep_first_all_new (seen rows : list row) :
  all_new seen rows -> keep_first seen rows = rows.
Proof.
  revert seen. induction rows as [|r rows IH]; intros seen; cbn; [reflexivity|].
  intros [Hr Hrest]. rewrite Hr. f_equal. apply IH, Hrest.
Qed.

Lemma seen_before_subset (seen seen' : list row) (r : row) :
  (forall s, In s seen' -> In s seen) ->
  seen_before seen r = false -> seen_before seen' r = false.
Proof.
  unfold seen_before. intros Hsub Hr.
  destruct (existsb _ seen') eqn:E; [|reflexivity].
  apply existsb_exists in E as (s & Hs & Hid).
  assert (existsb (fun s => rows_identical (nan_to_zero s) (nan_to_zero r)) seen = true)
    by (apply existsb_exists; exists s; auto).
  congruence.
Qed.

Lemma all_new_keep_first (seen seen' rows : list row) :
  (forall s, In s seen' -> In s seen) ->
  all_new seen' (keep_first seen rows).
Proof.
  revert seen seen'. induction rows as [|r rows IH]; intros seen seen' Hsub; cbn;
    [exact I|].
  destruct (seen_before seen r) eqn:E.
  - apply IH. intros s Hs. apply in_or_app. left. apply Hsub, Hs.
  - cbn. split; [eapply seen_before_subset; eassumption|].
    apply IH. intros s Hs. apply in_app_or in Hs as [Hs|Hs]; apply in_or_app;
      [left; apply Hsub, Hs|right; exact Hs].
Qed.

(** X3. The deduplicated rows are a subsequence of the emitted rows (rows
    are only dropped, never reordered or changed), and deduplicating twice
    is deduplicating once. *)
Theorem deduplicate_is_an_idempotent_selection (rows : list row) :
  deduplicate rows `sublist_of` rows /\
  deduplicate (deduplicate rows) = deduplicate rows.
Proof.
  rewrite !deduplicate_keep_first. split.
  - apply keep_first_sublist.
  - apply keep_first_all_new, all_new_keep_first. auto.
Qed.

(** ** Matching *)

Lemma argmax_loop_bound (l : list F64.float) (mp : F64.float) (max_ind i : nat) :
  (max_ind < i)%nat -> (argmax_loop mp max_ind i l < i + length l)%nat.
Proof.
  revert mp max_ind i. induction l as [|x l IH]; intros mp max_ind i Hlt; cbn.
  - lia.
  - destruct (negb (F64.leb x mp)).
    + destruct (F64.isnan x); [lia|].
      specialize (IH x i (S i)). lia.
    + specialize (IH mp max_ind (S i)). lia.
Qed.

Lemma argmax_bound (l : list F64.float) : l <> [] -> (argmax l < length l)%nat.
Proof.
  destruct l as [|x l]; [congruence|]. intros _. cbn.
  destruct (F64.isnan x); [lia|].
  pose proof (argmax_loop_bound l x 0 1). lia.
Qed.

Lemma leb_true_not_nan (a b : F64.float) :
  F64.leb a b = true -> F64.isnan a = false /\ F64.isnan b = false.
Proof.
  unfold F64.leb, SFleb.
  destruct a as [[]|[]| |[] ma ea], b as [[]|[]| |[] mb eb]; cbn;
    try discriminate; auto.
Qed.

Lemma leb_trans' (a b c : F64.float) :
  F64.leb a b = true -> F64.leb b c = true -> F64.leb a c = true.
Proof.
  intros Hab Hbc.
  destruct (leb_true_not_nan a b Hab) as [Ha Hb].
  destruct (leb_true_not_nan b c Hbc) as [_ Hc].
  exact (leb_trans a b c Ha Hb Hc Hab Hbc).
Qed.

Section Matching.

Variable corrcoef : list F64.float -> list F64.float -> F64.float.

(** A match is always one of the candidates. *)
Lemma match_in_candidate (fr_threshold wf_threshold : F64.float)
    (fr wf : list F64.float) (others : list candidate) (v : F64.float) :
  match_in corrcoef fr_threshold wf_threshold fr wf others = Some v ->
  exists o, o ∈ others /\ v = F64.of_Z (cand_id o).
Proof.
  unfold match_in. destruct (Nat.eqb_spec (length others) 0) as [|Hn]; [discriminate|].
  cbv zeta. destruct (_ && _); [|discriminate]. intros [= <-].
  set (b := argmax _).
  assert (Hb : (b < length others)%nat).
  { pose proof (argmax_bound
      (map nan_to_num_neg_inf
         (map (fun o => _pairwise_corr corrcoef fr (cand_rate o)) others))) as Hb.
    rewrite !length_map in Hb. apply Hb.
    destruct others; [cbn in Hn; lia|discriminate]. }
  destruct (lookup_lt_is_Some_2 others b Hb) as [o Ho].
  exists o. split; [eapply list_elem_of_lookup_2, Ho|].
  rewrite (nth_lookup_Some _ _ _ _ Ho). reflexivity.
Qed.

(** X4. Lowering the thresholds never loses a match: a candidate written to
    a slot under thresholds [fr_threshold], [wf_threshold] is written under
    any thresholds that are not larger. *)
Theorem match_survives_lower_thresholds
    (fr_threshold wf_threshold fr_threshold' wf_threshold' : F64.float)
    (fr wf : list F64.float) (others : list candidate) (v : F64.float) :
  F64.leb fr_threshold' fr_threshold = true ->
  F64.leb wf_threshold' wf_threshold = true ->
  match_in corrcoef fr_threshold wf_threshold fr wf others = Some v ->
  match_in corrcoef fr_threshold' wf_threshold' fr wf others = Some v.
Proof.
  intros Hfr Hwf. unfold match_in.
  destruct (Nat.eqb (length others) 0); [discriminate|]. cbv zeta.
  unfold F64.geb.
  destruct (SFleb fr_threshold _) eqn:E1; [|discriminate].
  destruct (SFleb wf_threshold _) eqn:E2; [|discriminate].
  cbn [andb]. intros Hv.
  pose proof (leb_trans' _ _ _ Hfr E1) as H1.
  pose proof (leb_trans' _ _ _ Hwf E2) as H2.
  unfold F64.leb in H1, H2. rewrite H1, H2. exact Hv.
Qed.

Lemma count_true_all_nan_l (a b : list F64.float) :
  Forall (fun x => F64.isnan x = true) a ->
  count_true (zip_with (fun x y => negb (F64.isnan x || F64.isnan y)) a b) = 0%nat.
Proof.
  intros Ha. revert b. induction Ha as [|x a Hx Ha IH]; intros [|y b]; cbn;
    try reflexivity.
  rewrite Hx. cbn. apply IH.
Qed.

(** The correlation with an all-NaN vector is NaN. *)
Lemma pairwise_corr_all_nan (a b : list F64.float) :
  Forall (fun x => F64.isnan x = true) a ->
  _pairwise_corr corrcoef a b = F64.nan.
Proof.
  intros Ha. unfold _pairwise_corr.
  destruct (Nat.eqb _ 0); [reflexivity|]. cbv zeta.
  rewrite count_true_all_nan_l; [reflexivity|].
  apply Forall_take, Ha.
Qed.

(** X5. Missing data never matches: a unit whose waveform is all NaN, or
    whose firing-rate curve is all NaN while the firing-rate threshold is
    not minus infinity, gets no candidate written to any slot. *)
Theorem missing_features_never_match
    (fr_threshold wf_threshold : F64.float) (fr wf : list F64.float)
    (others : list candidate) :
  Forall (fun x => F64.isnan x = true) wf \/
  (Forall (fun x => F64.isnan x = true) fr /\ fr_threshold <> F64.neg_inf) ->
  match_in corrcoef fr_threshold wf_threshold fr wf others = None.
Proof.
  intros Hmissing. unfold match_in.
  destruct (Nat.eqb_spec (length others) 0) as [|Hn]; [reflexivity|]. cbv zeta.
  set (b := argmax _).
  destruct Hmissing as [Hwf|[Hfr Hthr]].
  - assert (E : nth b (map (fun o => _pairwise_corr corrcoef wf (cand_wf o)) others)
                  F64.nan = F64.nan).
    { destruct (nth_in_or_default b
                  (map (fun o => _pairwise_corr corrcoef wf (cand_wf o)) others)
                  F64.nan) as [Hin|Hd]; [|exact Hd].
      apply in_map_iff in Hin as (o & Ho & _). rewrite <- Ho.
      apply pairwise_corr_all_nan, Hwf. }
    rewrite E. unfold F64.geb, SFleb.
    replace (SFcompare wf_threshold F64.nan) with (@None comparison)
      by (destruct wf_threshold as [[]|[]| |[] m e]; reflexivity).
    rewrite andb_false_r. reflexivity.
  - set (frc := map nan_to_num_neg_inf _) in *.
    assert (E : nth b frc F64.nan = F64.nan \/ nth b frc F64.nan = F64.neg_inf).
    { destruct (nth_in_or_default b frc F64.nan) as [Hin|Hd]; [|left; exact Hd].
      right. subst frc. apply in_map_iff in Hin as (x & Hx & Hin).
      apply in_map_iff in Hin as (o & Ho & _). rewrite <- Hx, <- Ho.
      rewrite pairwise_corr_all_nan by exact Hfr. reflexivity. }
    assert (Hgeb : F64.geb (nth b frc F64.nan) fr_threshold = false).
    { unfold F64.geb, SFleb.
      destruct E as [-> | ->];
        destruct fr_threshold as [[]|[]| |[] m e]; try reflexivity.
      exfalso. apply Hthr. reflexivity. }
    rewrite Hgeb. reflexivity.
Qed.

End Matching.

Lemma match_survives_lower_thresholds_witness :
  F64.leb F64.zero (F64.of_Z 1) = true /\
  match_in TwoRecordings.corrcoef (F64.of_Z 1) (F64.of_Z 1)
    [F64.of_Z 1; F64.of_Z 2] [F64.of_Z 1; F64.of_Z 2]
    [Candidate 7 [F64.of_Z 3; F64.of_Z 4] [F64.of_Z 5; F64.of_Z 6]]
    = Some (F64.of_Z 7) /\
  match_in TwoRecordings.corrcoef F64.zero F64.zero
    [F64.of_Z 1; F64.of_Z 2] [F64.of_Z 1; F64.of_Z 2]
    [Candidate 7 [F64.of_Z 3; F64.of_Z 4] [F64.of_Z 5; F64.of_Z 6]]
    = Some (F64.of_Z 7).
Proof.
  assert (Hle : F64.leb F64.zero (F64.of_Z 1) = true) by reflexivity.
  assert (Hm : match_in TwoRecordings.corrcoef (F64.of_Z 1) (F64.of_Z 1)
                 [F64.of_Z 1; F64.of_Z 2] [F64.of_Z 1; F64.of_Z 2]
                 [Candidate 7 [F64.of_Z 3; F64.of_Z 4] [F64.of_Z 5; F64.of_Z 6]]
               = Some (F64.of_Z 7)) by (vm_compute; reflexivity).
  split; [exact Hle|]. split; [exact Hm|].
  exact (match_survives_lower_thresholds TwoRecordings.corrcoef _ _ _ _ _ _ _ _
           Hle Hle Hm).
Defined.

Lemma missing_features_never_match_witness :
  Forall (fun x => F64.isnan x = true) (replicate 61 F64.nan) /\
  match_in TwoRecordings.corrcoef F64.zero F64.zero
    [F64.of_Z 1; F64.of_Z 2] (replicate 61 F64.nan)
    [Candidate 7 [F64.of_Z 3; F64.of_Z 4] [F64.of_Z 5; F64.of_Z 6]] = None.
Proof.
  assert (H : Forall (fun x => F64.isnan x = true) (replicate 61 F64.nan))
    by (apply Forall_replicate; reflexivity).
  split; [exact H|].
  exact (missing_features_never_match TwoRecordings.corrcoef F64.zero F64.zero
           [F64.of_Z 1; F64.of_Z 2] (replicate 61 F64.nan)
           [Candidate 7 [F64.of_Z 3; F64.of_Z 4] [F64.of_Z 5; F64.of_Z 6]]
           (or_introl H)).
Defined.

(** ** The stitch table *)

(** [F64.of_Z] never yields NaN: rounding a non-negative mantissa keeps it
    non-negative. *)
Lemma shr_1_nonneg (mrs : shr_record) :
  (0 <= shr_m mrs)%Z -> (0 <= shr_m (shr_1 mrs))%Z.
Proof. destruct mrs as [[|[p|p|]|p] r s]; cbn; lia. Qed.

Lemma iter_shr_1_nonneg (p : positive) (mrs : shr_record) :
  (0 <= shr_m mrs)%Z -> (0 <= shr_m (SpecFloat.iter_pos shr_1 p mrs))%Z.
Proof.
  revert mrs. induction p as [p IH|p IH|]; intros mrs H; cbn.
  - apply IH, IH, shr_1_nonneg, H.
  - apply IH, IH, H.
  - apply shr_1_nonneg, H.
Qed.

Lemma shr_fexp_nonneg (m e : Z) (l : location) :
  (0 <= m)%Z -> (0 <= shr_m (fst (shr_fexp F64.prec F64.emax m e l)))%Z.
Proof.
  intros Hm. unfold shr_fexp, shr.
  assert (H0 : (0 <= shr_m (shr_record_of_loc m l))%Z)
    by (destruct l as [|[]]; exact Hm).
  destruct (_ - e)%Z; cbn [fst]; [exact H0| |exact H0].
  apply iter_shr_1_nonneg, H0.
Qed.

Lemma round_nearest_even_nonneg (m : Z) (l : location) :
  (0 <= m)%Z -> (0 <= round_nearest_even m l)%Z.
Proof.
  intros Hm. unfold round_nearest_even.
  destruct l as [|[]]; try destruct (Z.even m); lia.
Qed.

Lemma binary_round_aux_not_nan (sx : bool) (mx ex : Z) (lx : location) :
  (0 <= mx)%Z -> F64.isnan (binary_round_aux F64.prec F64.emax sx mx ex lx) = false.
Proof.
  intros Hm. unfold binary_round_aux.
  pose proof (shr_fexp_nonneg mx ex lx Hm) as H1.
  destruct (shr_fexp F64.prec F64.emax mx ex lx) as [mrs' e']. cbn [fst] in H1.
  pose proof (shr_fexp_nonneg
                (round_nearest_even (shr_m mrs') (loc_of_shr_record mrs')) e'
                loc_Exact (round_nearest_even_nonneg _ _ H1)) as H2.
  destruct (shr_fexp F64.prec F64.emax _ e' loc_Exact) as [mrs'' e''].
  cbn [fst] in H2. destruct (shr_m mrs''); [reflexivity| |lia].
  destruct (_ <=? _)%Z; reflexivity.
Qed.

Lemma of_Z_not_nan (z : Z) : F64.isnan (F64.of_Z z) = false.
Proof.
  unfold F64.of_Z, binary_normalize. destruct z as [|p|p]; [reflexivity| |];
    unfold binary_round; destruct (shl_align _ _ _) as [mz ez];
    apply binary_round_aux_not_nan; lia.
Qed.

Lemma foldl_slot_length (f : nat -> option F64.float) (idxs : list nat)
    (init : list F64.float) :
  length (foldl (fun st j => match f j with Some v => <[j := v]> st | None => st end)
                init idxs) = length init.
Proof.
  revert init. induction idxs as [|j idxs IH]; intros init; cbn; [reflexivity|].
  rewrite IH. destruct (f j); [apply length_insert|reflexivity].
Qed.

Lemma Forall_of_sublist {A : Type} (P : A -> Prop) (l1 l2 : list A) :
  Forall P l2 -> l1 `sublist_of` l2 -> Forall P l1.
Proof.
  intros H Hsub. apply Forall_forall. intros x Hx.
  rewrite Forall_forall in H. apply H. eapply sublist_subseteq; eassumption.
Qed.

Section Table.

Variable corrcoef : list F64.float -> list F64.float -> F64.float.
Variable fr_threshold wf_threshold : F64.float.
Variable min_recs : Z.
Variable chan_range : Z.
Variable clu_info_per_rec : list (list (Z * nat)).
Variable chan_map : list nat.
Variable uni_chans : list nat.
Variable elec_num : list Z.
Variable _get_waveform : Z -> nat -> list F64.float.
Variable _get_firing_rate : Z -> nat -> list F64.float.

(** A well-formed row: one entry per recording, each entry missing or the
    id of a cluster of that recording's table, and at least one entry
    present. *)
Definition well_formed_row (r : row) : Prop :=
  length r = length clu_info_per_rec /\
  (forall i x, r !! i = Some x ->
     F64.isnan x = true \/
     exists c k, (c, k) ∈ nth i clu_info_per_rec [] /\ x = F64.of_Z c) /\
  (1 <= valid_count r)%nat.

Lemma gather_candidate (nearby_chans : list nat) (k : nat) (o : candidate) :
  o ∈ nth k (gather clu_info_per_rec chan_map _get_waveform _get_firing_rate
               nearby_chans) [] ->
  exists j, (cand_id o, j) ∈ nth k clu_info_per_rec [].
Proof.
  unfold gather. intros Ho.
  destruct (decide (k < num_recs clu_info_per_rec)%nat) as [Hk|Hk].
  - set (g := fun i_rec : nat => _) in Ho.
    assert (Hnth : nth k (map g (seq 0 (num_recs clu_info_per_rec))) [] = g k).
    { apply nth_lookup_Some. rewrite list_lookup_fmap, lookup_seq_lt by exact Hk.
      reflexivity. }
    rewrite Hnth in Ho. subst g. cbv beta in Ho.
    apply list_elem_of_In, in_flat_map in Ho as (ch & _ & Ho).
    destruct (chan_map !! ch) as [ch_id|]; [|inversion Ho].
    apply in_map_iff in Ho as (c & <- & Hc). cbn.
    apply list_elem_of_In, elem_of_cluster_ids in Hc as (j & Hj & _).
    exists j. exact Hj.
  - rewrite nth_overflow in Ho; [inversion Ho|].
    rewrite length_map, length_seq. lia.
Qed.

Lemma valid_count_pos (r : row) (i : nat) (x : F64.float) :
  r !! i = Some x -> F64.isnan x = false -> (1 <= valid_count r)%nat.
Proof.
  intros Hi Hx. unfold valid_count.
  assert (Hin : In x (List.filter (fun x => negb (F64.isnan x)) r)).
  { apply filter_In. split; [eapply list_elem_of_In, list_elem_of_lookup_2, Hi|].
    rewrite Hx. reflexivity. }
  destruct (List.filter _ r); [inversion Hin|cbn; lia].
Qed.

Lemma stitch_unit_well_formed (current_chan i_rec : nat) (clu_id : Z) :
  clu_id ∈ nth i_rec (_get_cluster_ids clu_info_per_rec chan_map current_chan) [] ->
  well_formed_row
    (stitch_unit corrcoef fr_threshold wf_threshold clu_info_per_rec
       _get_waveform _get_firing_rate
       (gather clu_info_per_rec chan_map _get_waveform _get_firing_rate
          (_get_within_range_channels chan_range elec_num current_chan))
       i_rec clu_id).
Proof.
  intros Hclu.
  assert (Hi : (i_rec < num_recs clu_info_per_rec)%nat).
  { destruct (Nat.lt_ge_cases i_rec (num_recs clu_info_per_rec)) as [|Hge];
      [assumption|].
    rewrite nth_overflow in Hclu by (rewrite length_get_cluster_ids; exact Hge).
    inversion Hclu. }
  assert (Hlen : length (stitch_unit corrcoef fr_threshold wf_threshold
                   clu_info_per_rec _get_waveform _get_firing_rate
                   (gather clu_info_per_rec chan_map _get_waveform _get_firing_rate
                      (_get_within_range_channels chan_range elec_num current_chan))
                   i_rec clu_id) = length clu_info_per_rec).
  { unfold stitch_unit. cbv zeta.
    rewrite (foldl_slot_length
      (fun j => match_in corrcoef fr_threshold wf_threshold
                  (_get_firing_rate clu_id i_rec) (_get_waveform clu_id i_rec)
                  (nth j _ []))).
    rewrite length_insert, length_replicate. reflexivity. }
  split; [exact Hlen|]. split.
  - intros k x Hk.
    assert (Hkn : (k < num_recs clu_info_per_rec)%nat)
      by (apply lookup_lt_Some in Hk; rewrite Hlen in Hk; exact Hk).
    rewrite (stitch_unit_slot corrcoef fr_threshold wf_threshold min_recs
               clu_info_per_rec _get_waveform _get_firing_rate _ _ _ _ Hkn) in Hk.
    destruct (decide (k = i_rec)) as [->|Hne].
    + injection Hk as <-. right.
      apply elem_of_cluster_ids in Hclu as (j & Hj & _). exists clu_id, j. auto.
    + injection Hk as <-.
      destruct (match_in _ _ _ _ _ _) as [v|] eqn:Em; cbn; [|left; reflexivity].
      apply match_in_candidate in Em as (o & Ho & ->).
      apply gather_candidate in Ho as (j & Hj). right. exists (cand_id o), j. auto.
  - eapply (valid_count_pos _ i_rec (F64.of_Z clu_id)).
    + rewrite (stitch_unit_slot corrcoef fr_threshold wf_threshold min_recs
                 clu_info_per_rec _get_waveform _get_firing_rate _ _ _ _ Hi).
      rewrite decide_True; reflexivity.
    + apply of_Z_not_nan.
Qed.

Lemma prediction_list_well_formed :
  Forall well_formed_row
    (prediction_list corrcoef fr_threshold wf_threshold chan_range clu_info_per_rec
       chan_map uni_chans elec_num _get_waveform _get_firing_rate).
Proof.
  apply Forall_forall. intros r Hr. unfold prediction_list in Hr.
  apply list_elem_of_In, in_flat_map in Hr as (ch & _ & Hr).
  unfold stitch_channel in Hr. cbv zeta in Hr.
  apply in_flat_map in Hr as (i_rec & _ & Hr).
  apply in_map_iff in Hr as (clu_id & <- & Hclu).
  apply stitch_unit_well_formed, list_elem_of_In, Hclu.
Qed.

(** X6. Every row of the stitch table has one entry per recording; every
    entry is missing or the id of a cluster listed in that recording's
    cluster table; and no row is entirely missing. So with [min_recs] at
    most 1 the final filter removes nothing. *)
Theorem stitch_table_rows_are_well_formed :
  let table := _run_stitching corrcoef fr_threshold wf_threshold min_recs
                 chan_range clu_info_per_rec chan_map uni_chans elec_num
                 _get_waveform _get_firing_rate in
  let emitted := prediction_list corrcoef fr_threshold wf_threshold chan_range
                   clu_info_per_rec chan_map uni_chans elec_num _get_waveform
                   _get_firing_rate in
  Forall well_formed_row table /\
  table `sublist_of` emitted /\
  ((min_recs <= 1)%Z -> table = deduplicate emitted).
Proof.
  cbv zeta.
  assert (Heq : _run_stitching corrcoef fr_threshold wf_threshold min_recs
                  chan_range clu_info_per_rec chan_map uni_chans elec_num
                  _get_waveform _get_firing_rate =
                filter_min_recs min_recs
                  (deduplicate (prediction_list corrcoef fr_threshold wf_threshold
                     chan_range clu_info_per_rec chan_map uni_chans elec_num
                     _get_waveform _get_firing_rate))).
  { unfold _run_stitching. destruct (prediction_list _ _ _ _ _ _ _ _ _ _);
      reflexivity. }
  rewrite Heq. clear Heq.
  pose proof prediction_list_well_formed as Hwf.
  set (emitted := prediction_list _ _ _ _ _ _ _ _ _ _) in *.
  assert (Hsub1 : deduplicate emitted `sublist_of` emitted)
    by (rewrite deduplicate_keep_first; apply keep_first_sublist).
  assert (Hded : Forall well_formed_row (deduplicate emitted))
    by (eapply Forall_of_sublist; eassumption).
  assert (Hsub2 : forall l, filter_min_recs min_recs l `sublist_of` l).
  { intros l. unfold filter_min_recs. induction l as [|r l IH]; cbn; [constructor|].
    destruct (_ <=? _)%Z; [apply sublist_skip|apply sublist_cons]; exact IH. }
  split; [eapply Forall_of_sublist; [exact Hded|apply Hsub2]|].
  split; [etransitivity; [apply Hsub2|exact Hsub1]|].
  intros Hmin. unfold filter_min_recs. clear Hsub1.
  induction Hded as [|r l Hr Hl IH]; cbn; [reflexivity|].
  destruct Hr as (_ & _ & Hcount).
  destruct (Z.leb_spec min_recs (Z.of_nat (valid_count r))); [|lia].
  f_equal. exact IH.
Qed.

End Table.

(** ** Sorting by reaction time and the PSTH *)


Lemma gather_items_in_range {A : Type} (l : list A) (idx : list nat) :
  (forall i, i ∈ idx -> (i < length l)%nat) ->
  exists l', gather_items l idx = ret l' /\
             Some <$> l' = (fun i => l !! i) <$> idx.
Proof.
  induction idx as [|i idx IH]; intros Hall; cbn [gather_items].
  - exists []. split; reflexivity.
  - destruct (lookup_lt_is_Some_2 l i) as [x Hx].
    { apply Hall. apply elem_of_cons. auto. }
    destruct IH as (l' & Hl' & Hm).
    { intros j Hj. apply Hall. apply elem_of_cons. auto. }
    rewrite Hx, Hl'. exists (x :: l'). split; [reflexivity|].
    rewrite !fmap_cons, Hm, Hx. reflexivity.
Qed.

Lemma gather_items_out_of_range {A : Type} (l : list A) (idx : list nat) (i : nat) :
  i ∈ idx -> (length l <= i)%nat -> gather_items l idx = raise IndexError.
Proof.
  intros Hi Hge. induction idx as [|j idx IH]; [inversion Hi|].
  cbn [gather_items]. destruct (l !! j) as [x|] eqn:Ej; [|reflexivity].
  apply elem_of_cons in Hi as [->|Hi].
  - apply lookup_lt_Some in Ej. lia.
  - rewrite (IH Hi). reflexivity.
Qed.

Lemma np_argsort_perm (rt : list F64.float) :
  np_argsort rt ≡ₚ seq 0 (length rt).
Proof. apply argsort_perm; [apply sort_cmp_antisym|apply sort_cmp_le_trans]. Qed.

Lemma length_np_argsort (rt : list F64.float) :
  length (np_argsort rt) = length rt.
Proof. rewrite np_argsort_perm. apply length_seq. Qed.

(** X7. [sort_spikes_by_rt] with no reaction times returns the trials as
    they are. With reaction times, at most as many as trials, it returns as
    many trials as reaction times; with more reaction times than trials it
    raises [IndexError]. *)
Theorem sort_spikes_by_rt_lengths (rt : list F64.float)
    (spike_cell : list (option (list F64.float))) :
  sort_spikes_by_rt None spike_cell = ret ([], spike_cell) /\
  sort_spikes_by_rt (Some []) spike_cell = ret ([], spike_cell) /\
  ((0 < length rt <= length spike_cell)%nat ->
   exists sorted_rt sorted_spx,
     sort_spikes_by_rt (Some rt) spike_cell = ret (sorted_rt, sorted_spx) /\
     length sorted_rt = length rt /\ length sorted_spx = length rt) /\
  ((length spike_cell < length rt)%nat ->
   sort_spikes_by_rt (Some rt) spike_cell = raise IndexError).
Proof.
  split; [reflexivity|]. split; [reflexivity|]. split.
  - intros [Hpos Hle]. unfold sort_spikes_by_rt.
    destruct (Nat.eqb_spec (length rt) 0); [lia|]. cbv zeta.
    destruct (gather_items_in_range spike_cell (np_argsort rt)) as (l' & Hl' & Hm).
    { intros i Hi. rewrite np_argsort_perm in Hi. apply elem_of_seq in Hi. lia. }
    rewrite Hl'. cbn. eexists _, l'. split; [reflexivity|].
    split; [rewrite length_map; apply length_np_argsort|].
    apply (f_equal length) in Hm. rewrite !length_fmap in Hm.
    rewrite Hm. apply length_np_argsort.
  - intros Hlt. unfold sort_spikes_by_rt.
    destruct (Nat.eqb_spec (length rt) 0); [lia|]. cbv zeta.
    rewrite (gather_items_out_of_range spike_cell (np_argsort rt) (length spike_cell));
      [reflexivity| |lia].
    rewrite np_argsort_perm. apply elem_of_seq. lia.
Qed.

Lemma gathered_perm {A : Type} (l out : list A) (idx : list nat) :
  Some <$> out = (fun i => l !! i) <$> idx ->
  idx ≡ₚ seq 0 (length l) ->
  out ≡ₚ l.
Proof.
  intros Hm Hp.
  assert (Hl : Some <$> l = (fun i => l !! i) <$> seq 0 (length l)).
  { apply list_eq. intros i. rewrite !list_lookup_fmap.
    destruct (decide (i < length l)%nat) as [Hi|Hi].
    - rewrite lookup_seq_lt by exact Hi. cbn.
      destruct (lookup_lt_is_Some_2 l i Hi) as [x Hx]. rewrite Hx. reflexivity.
    - rewrite lookup_seq_ge by lia. rewrite lookup_ge_None_2 by lia. reflexivity. }
  assert (Hid : forall k : list A, omap (fun o : option A => o) (Some <$> k) = k).
  { induction k as [|x k IH]; cbn; [reflexivity|]. f_equal. exact IH. }
  rewrite <- (Hid out), <- (Hid l), Hm, Hl, Hp. reflexivity.
Qed.

Lemma lookup_zip_Some {A B : Type} (l : list A) (k : list B) (i : nat) (a : A) (b : B) :
  l !! i = Some a -> k !! i = Some b -> zip l k !! i = Some (a, b).
Proof.
  revert k i. induction l as [|x l IH]; intros [|y k] [|i] Ha Hb;
    try discriminate; cbn in *.
  - congruence.
  - apply IH; assumption.
Qed.

Lemma gathered_zip {A B : Type} (l : list A) (k : list B) (d : A)
    (idx : list nat) (out : list B) :
  (forall i, i ∈ idx -> (i < length l)%nat) ->
  Some <$> out = (fun i => k !! i) <$> idx ->
  Some <$> zip (map (fun i => nth i l d) idx) out = (fun i => zip l k !! i) <$> idx.
Proof.
  revert out. induction idx as [|i idx IH]; intros out Hall Hm.
  - destruct out; [reflexivity|discriminate].
  - destruct out as [|b out]; [discriminate|].
    rewrite !fmap_cons in Hm. injection Hm as Hb Hm.
    cbn [map zip zip_with]. rewrite !fmap_cons.
    rewrite (IH out) by (try exact Hm; intros j Hj; apply Hall, elem_of_cons; auto).
    f_equal. symmetry. apply lookup_zip_Some; [|congruence].
    destruct (lookup_lt_is_Some_2 l i) as [a Ha];
      [apply Hall, elem_of_cons; auto|].
    rewrite Ha. f_equal. symmetry. apply nth_lookup_Some, Ha.
Qed.

Lemma StronglySorted_map_keys {A B : Type} (R : A -> A -> Prop) (S : B -> B -> Prop)
    (f : A -> B) (l : list A) :
  (forall a b, R a b -> S (f a) (f b)) ->
  StronglySorted R l -> StronglySorted S (map f l).
Proof.
  intros HRS. induction 1 as [|a l Hl IH Ha]; cbn; constructor; [exact IH|].
  apply Forall_forall. intros y Hy. apply list_elem_of_fmap in Hy as (b & -> & Hb).
  rewrite Forall_forall in Ha. apply HRS, Ha, Hb.
Qed.

(** X8. With as many reaction times as trials, [sort_spikes_by_rt] returns
    the reaction times in increasing order (NaN last) and keeps every trial
    with its own reaction time: the pairs of the result are a rearrangement
    of the pairs of the input. *)
Theorem sort_spikes_by_rt_sorts_the_pairs (rt : list F64.float)
    (spike_cell : list (option (list F64.float))) :
  length rt = length spike_cell ->
  rt <> [] ->
  exists sorted_rt sorted_spx,
    sort_spikes_by_rt (Some rt) spike_cell = ret (sorted_rt, sorted_spx) /\
    zip sorted_rt sorted_spx ≡ₚ zip rt spike_cell /\
    StronglySorted (fun a b => cmp_le (F64.sort_cmp a b) = true) sorted_rt.
Proof.
  intros Hlen Hne. unfold sort_spikes_by_rt.
  destruct (Nat.eqb_spec (length rt) 0) as [H0|_];
    [destruct rt; [congruence|discriminate]|].
  cbv zeta.
  assert (Hrange : forall i, i ∈ np_argsort rt -> (i < length rt)%nat).
  { intros i Hi. rewrite np_argsort_perm in Hi. apply elem_of_seq in Hi. lia. }
  destruct (gather_items_in_range spike_cell (np_argsort rt)) as (l' & Hl' & Hm).
  { intros i Hi. rewrite <- Hlen. apply Hrange, Hi. }
  rewrite Hl'. cbn. eexists _, l'. split; [reflexivity|]. split.
  - apply (gathered_perm _ _ (np_argsort rt)).
    + apply gathered_zip; assumption.
    + rewrite np_argsort_perm.
      assert (Hz : length (zip rt spike_cell) = length rt).
      { rewrite length_zip. lia. }
      rewrite Hz. reflexivity.
  - apply (StronglySorted_map_keys (stable_lt F64.sort_cmp F64.nan rt)).
    + intros a b [Hab _]. exact Hab.
    + apply argsort_sorted; [apply sort_cmp_antisym|apply sort_cmp_le_trans].
Qed.

Lemma sort_spikes_by_rt_sorts_the_pairs_witness :
  length PsthExample.rt = length PsthExample.trials /\
  PsthExample.rt <> [] /\
  exists sorted_rt sorted_spx,
    sort_spikes_by_rt (Some PsthExample.rt) PsthExample.trials
      = ret (sorted_rt, sorted_spx) /\
    zip sorted_rt sorted_spx ≡ₚ zip PsthExample.rt PsthExample.trials /\
    StronglySorted (fun a b => cmp_le (F64.sort_cmp a b) = true) sorted_rt.
Proof.
  assert (H1 : length PsthExample.rt = length PsthExample.trials) by reflexivity.
  assert (H2 : PsthExample.rt <> []) by discriminate.
  split; [exact H1|]. split; [exact H2|].
  exact (sort_spikes_by_rt_sorts_the_pairs PsthExample.rt PsthExample.trials H1 H2).
Defined.

Section PsthFacts.

Variable hist_bin : Z -> Z -> nat -> F64.float -> option nat.
Variable norm_pdf : F64.float -> F64.float -> F64.float.


(** X9. A reversed window is an error as soon as there is a trial: with
    [stop < start], [psth] raises [ValueError] whatever the smoothing. With
    no trial it raises [ValueError] only when [stop < start - 1], and
    returns the empty vector when [stop = start - 1]. *)
Theorem psth_reversed_window_raises (spike_cell : list (option (list F64.float)))
    (start stop : Z) (smoothing : F64.float) :
  (stop < start)%Z ->
  (spike_cell <> [] ->
   psth hist_bin norm_pdf spike_cell (start, stop) smoothing = raise ValueError) /\
  ((stop < start - 1)%Z ->
   psth hist_bin norm_pdf [] (start, stop) smoothing = raise ValueError) /\
  ((stop = start - 1)%Z ->
   psth hist_bin norm_pdf [] (start, stop) smoothing = ret ([], 0%nat)).
Proof.
  intros Hrev. split; [|split].
  - intros Hne. unfold psth.
    destruct (Nat.eqb_spec (length spike_cell) 0) as [H0|_];
      [destruct spike_cell; [congruence|discriminate]|].
    cbv zeta. cbn [fst snd]. unfold np_histogram. rewrite length_arange.
    replace (Z.to_nat (stop + 1 - start)) with 0%nat by lia. reflexivity.
  - intros Hlt. unfold psth, np_zeros. cbn.
    destruct (Z.ltb_spec (stop - start + 1) 0); [reflexivity|lia].
  - intros ->. unfold psth, np_zeros. cbn.
    replace (start - 1 - start + 1)%Z with 0%Z by lia. reflexivity.
Qed.

(** *** The firing-rate curve of a unit ([_get_firing_rate]) *)

(** What a RasterData file holds: the spike arrays of the trials and the
    reaction times (an empty array when the file has none). *)
Record raster_data : Type := {
  rd_spike_clu : list (option (list F64.float));
  rd_rt : list F64.float
}.

(** The window of the stitcher, [self.bn]. *)
Definition stitch_bn : Z * Z := (-300, 500)%Z.

(** The curve computed from one file, or [None] when the file has no
    trial. *)
Definition rate_of_file (rd : raster_data) : option (result (list F64.float)) :=
  match rd_spike_clu rd with
  | [] => None
  | _ :: _ =>
      Some (let* sorted := sort_spikes_by_rt (Some (rd_rt rd)) (rd_spike_clu rd) in
            let* rate := psth hist_bin norm_pdf (snd sorted) stitch_bn (F64.of_Z 10) in
            ret (fst rate))
  end.

(** [_get_firing_rate]: the MATLAB file is tried first, then the HDF5 file;
    [None] stands for a file that is absent or holds no raster data. Without
    a curve from either, the result is NaN over the whole window. *)
Definition get_firing_rate_from (mat h5 : option raster_data)
  : result (list F64.float) :=
  match mat ≫= rate_of_file with
  | Some r => r
  | None =>
      match h5 ≫= rate_of_file with
      | Some r => r
      | None => ret (replicate (Z.to_nat (snd stitch_bn - fst stitch_bn + 1)) F64.nan)
      end
  end.




End PsthFacts.




(** The raster file of the counterexample: the read of the curve raises. *)
Example firing_rate_with_more_reaction_times_than_trials :
  get_firing_rate_from PsthExample.hist_bin PsthExample.norm_pdf
    (Some {| rd_spike_clu := [Some [F64.of_Z 10]];
             rd_rt := [F64.of_Z 100; F64.of_Z 200] |}) None
  = raise IndexError.
Proof. vm_compute. reflexivity. Qed.

(** A raster file with two trials and one reaction time: the sort keeps the
    first trial only, and the curve is that of one trial with one spike,
    not that of the two trials with their three spikes. *)
Example firing_rate_with_fewer_reaction_times_than_trials :
  let spike_clu := [Some [F64.of_Z 10]; Some [F64.of_Z 20; F64.of_Z 30]] in
  sort_spikes_by_rt (Some [F64.of_Z 100]) spike_clu
  = ret ([F64.of_Z 100], [Some [F64.of_Z 10]]) /\
  get_firing_rate_from PsthExample.hist_bin PsthExample.norm_pdf
    (Some {| rd_spike_clu := spike_clu; rd_rt := [F64.of_Z 100] |}) None
  <> (let* rate := psth PsthExample.hist_bin PsthExample.norm_pdf spike_clu
                     stitch_bn (F64.of_Z 10) in
      ret (fst rate)).
Proof.
  cbv zeta. split; [vm_compute; reflexivity|]. intros H.
  apply (f_equal (fun r : result (list F64.float) =>
                    match r with
                    | inr (x :: _) => Some x
                    | _ => None
                    end)) in H.
  vm_compute in H. discriminate H.
Qed.

Lemma psth_reversed_window_raises_witness :
  (0 < 1)%Z /\
  psth PsthExample.hist_bin PsthExample.norm_pdf PsthExample.trials (1, 0)%Z
    PsthExample.one = raise ValueError.
Proof.
  assert (H : (0 < 1)%Z) by lia.
  split; [exact H|].
  apply (proj1 (psth_reversed_window_raises PsthExample.hist_bin PsthExample.norm_pdf
                  PsthExample.trials 1 0 PsthExample.one H)).
  discriminate.
Defined.

(** ** The slots of the trial-aligned extractor *)

Section TrialSpikeFacts.

Variable dayrecs : string -> list string.
Variable _load_events : string -> string -> option events_table.
Variable _load_npclu : string -> string -> option npclu_table.

(** X12. The extractor raises only the [OverflowError] of a window bound
    that is beyond the floats, and returns for every other window. What it
    returns is one array per trial. The array of a trial is the window of
    spikes [_load_np_spike] cuts out of the tables of the trial's own
    recording, provided the recording is one of the day's recordings and
    both its tables load; otherwise it is empty. The day is that of the
    first trial. No trials, no arrays. *)
Theorem trial_np_spike_fills_each_slot_from_its_recording
    (trials : list trial) (cluster_id : Z) (event_field : string) (bn : Z * Z) :
  match trial_np_spike dayrecs _load_events _load_npclu trials cluster_id
          event_field bn with
  | inr out =>
      length out = length trials /\
      forall t0 i t, head trials = Some t0 -> trials !! i = Some t ->
        exists v,
          out !! i = Some v /\
          if bool_decide (trial_rec t ∈ dayrecs (trial_day t0)) then
            match _load_events (trial_day t0) (trial_rec t),
                  _load_npclu (trial_day t0) (trial_rec t) with
            | Some events, Some npclu =>
                _load_np_spike npclu events
                  (default (Z.of_nat i) (trial_index t)) event_field bn cluster_id
                = ret v
            | _, _ => v = []
            end
          else v = []
  | inl e => e = OverflowError /\ window_ok bn = false
  end /\
  (window_ok bn = true ->
   raises (trial_np_spike dayrecs _load_events _load_npclu trials cluster_id
             event_field bn) = false) /\
  (trials = [] ->
   trial_np_spike dayrecs _load_events _load_npclu trials cluster_id
     event_field bn = ret []).
Proof.
  destruct trials as [|t0 rest].
  - cbn. split; [split; [reflexivity|intros t0 i t H; discriminate H]|].
    split; intros; reflexivity.
  - pose proof (trial_np_spike_cases dayrecs _load_events _load_npclu t0 rest
                  cluster_id event_field bn) as Hc.
    destruct (trial_np_spike dayrecs _load_events _load_npclu (t0 :: rest)
                cluster_id event_field bn) as [e|out].
    + split; [exact Hc|]. split; [|discriminate].
      intros Hok. destruct Hc as [_ Hc]. congruence.
    + split; [|split; [reflexivity|discriminate]].
      destruct Hc as [Hl Hs]. split; [exact Hl|].
      intros t0' i t [= <-] Hi. destruct (Hs i t Hi) as (v & Hv & Hslot).
      exists v. split; [exact Hv|exact Hslot].
Qed.

End TrialSpikeFacts.

(** X13. [_load_np_spike] reads slot 0 of the event for every trial index up
    to 1 (the indices 0 and 1 are not told apart); it returns at most as
    many times as the table has rows of the cluster asked for, so a table
    without such a row gives no spike: the empty array for every window
    whose bounds are within the floats, and nothing but the empty array for
    any window. *)
Theorem load_np_spike_event_slot_and_cluster (npclu : npclu_table)
    (events : events_table) (subtrial : Z) (event_field : string) (bn : Z * Z)
    (cluster_id : Z) :
  ((subtrial <= 1)%Z ->
   _load_np_spike npclu events subtrial event_field bn cluster_id
   = _load_np_spike npclu events 1 event_field bn cluster_id) /\
  (forall out,
     _load_np_spike npclu events subtrial event_field bn cluster_id = ret out ->
     (length out
      <= length (List.filter (fun r => Z.eqb (snd r) cluster_id) npclu))%nat) /\
  ((forall r, r ∈ npclu -> snd r <> cluster_id) ->
   (forall out,
      _load_np_spike npclu events subtrial event_field bn cluster_id = ret out ->
      out = []) /\
   (window_ok bn = true ->
    _load_np_spike npclu events subtrial event_field bn cluster_id = ret [])).
Proof.
  assert (Hlen : forall out,
            _load_np_spike npclu events subtrial event_field bn cluster_id = ret out ->
            (length out
             <= length (List.filter (fun r => Z.eqb (snd r) cluster_id) npclu))%nat).
  { intros out. unfold _load_np_spike. cbv zeta.
    destruct (Nat.eqb (length npclu) 0); [intros [= <-]; cbn; lia|].
    destruct (events !! event_field) as [event_times|]; [|intros [= <-]; cbn; lia].
    destruct (Z.of_nat (length event_times) <=? _)%Z; [intros [= <-]; cbn; lia|].
    destruct (F64.isnan _ || F64.eqb _ F64.zero); [intros [= <-]; cbn; lia|].
    destruct (samples_of_ms (fst bn)) as [e|x]; [discriminate|]. cbn [bind].
    destruct (samples_of_ms (snd bn)) as [e|y]; [discriminate|]. cbn [bind].
    intros [= <-]. rewrite length_map.
    etransitivity; [apply filter_length_le|]. rewrite length_map. reflexivity. }
  split; [|split; [exact Hlen|]].
  - intros Hle. unfold _load_np_spike. cbv zeta.
    replace (if (0 <? subtrial)%Z then (subtrial - 1)%Z else 0%Z) with 0%Z;
      [reflexivity|].
    destruct (Z.ltb_spec 0 subtrial); lia.
  - intros Hnone.
    assert (Hf : List.filter (fun r => Z.eqb (snd r) cluster_id) npclu = []).
    { destruct (List.filter _ npclu) as [|r l] eqn:E; [reflexivity|].
      assert (Hr : In r (List.filter (fun r => Z.eqb (snd r) cluster_id) npclu))
        by (rewrite E; left; reflexivity).
      apply filter_In in Hr as [Hr Heq]. apply Z.eqb_eq in Heq.
      exfalso. apply (Hnone r); [apply list_elem_of_In, Hr|exact Heq]. }
    assert (Hempty : forall out,
              _load_np_spike npclu events subtrial event_field bn cluster_id
              = ret out -> out = []).
    { intros out Hout. specialize (Hlen out Hout). rewrite Hf in Hlen.
      destruct out; [reflexivity|cbn in Hlen; lia]. }
    split; [exact Hempty|]. intros Hok.
    destruct (load_np_spike_returns npclu events subtrial event_field bn
                cluster_id Hok) as [v Hv].
    rewrite Hv. rewrite (Hempty v Hv). reflexivity.
Qed.

(** ** Reaction times and the rasters of one task type *)

Lemma for_each_ok {A B : Type} (f : A -> result B) (g : A -> B) (l : list A) :
  (forall x, x ∈ l -> f x = ret (g x)) -> for_each f l = ret (map g l).
Proof.
  induction l as [|a l IH]; intros Hall; [reflexivity|].
  cbn [for_each map]. rewrite (Hall a) by (apply elem_of_cons; auto).
  cbn [bind ret]. rewrite IH by (intros x Hx; apply Hall, elem_of_cons; auto).
  reflexivity.
Qed.

Lemma for_each_raises {A B : Type} (f : A -> result B) (e : exn) (l : list A) (x : A) :
  (forall y, y ∈ l -> raises (f y) = true -> f y = raise e) ->
  x ∈ l -> raises (f x) = true ->
  for_each f l = raise e.
Proof.
  induction l as [|a l IH]; intros Hall Hx Hr; [inversion Hx|].
  cbn [for_each].
  destruct (f a) as [e'|y] eqn:Ea.
  - rewrite <- Ea. rewrite (Hall a); [reflexivity|apply elem_of_cons; auto|].
    rewrite Ea. reflexivity.
  - cbn [bind]. apply elem_of_cons in Hx as [->|Hx].
    + rewrite Ea in Hr. discriminate Hr.
    + rewrite IH; [reflexivity| |exact Hx|exact Hr].
      intros z Hz. apply Hall, elem_of_cons. auto.
Qed.

(** [float(v)] goes through: a scalar, or an array of exactly one number
    under a NumPy that converts such arrays. *)
Definition convertible (size1_converts : bool) (v : value) : bool :=
  match v with
  | VFloat _ => true
  | VArray [_] => size1_converts
  | VArray _ => false
  end.

(** The reaction time of a trial can be computed: a field is missing, or
    both convert. *)
Definition rt_computable (size1_converts : bool) (event_field baseline_field : string)
    (t : trial) : bool :=
  match trial_fields t !! event_field, trial_fields t !! baseline_field with
  | Some ev, Some bl => convertible size1_converts ev && convertible size1_converts bl
  | _, _ => true
  end.

Lemma py_float_convertible (size1_converts : bool) (v : value) :
  if convertible size1_converts v then exists x, py_float size1_converts v = ret x
  else py_float size1_converts v = raise TypeError.
Proof.
  destruct v as [x|[|x [|y a]]]; cbn; eauto.
  destruct size1_converts; eauto.
Qed.

Lemma compute_rt_body (size1_converts : bool) (event_field baseline_field : string)
    (t : trial) :
  let body :=
    match trial_fields t !! event_field, trial_fields t !! baseline_field with
    | Some ev, Some bl =>
        let* e := py_float size1_converts ev in
        let* b := py_float size1_converts bl in
        ret (F64.sub e b)
    | _, _ => ret F64.nan
    end in
  (rt_computable size1_converts event_field baseline_field t = true ->
   exists x, body = ret x /\
     ((trial_fields t !! event_field = None \/
       trial_fields t !! baseline_field = None) -> x = F64.nan)) /\
  (rt_computable size1_converts event_field baseline_field t = false -> body = raise TypeError).
Proof.
  cbv zeta. unfold rt_computable.
  destruct (trial_fields t !! event_field) as [ev|];
    [|split; [intros _; eexists; split; [reflexivity|reflexivity]|discriminate]].
  destruct (trial_fields t !! baseline_field) as [bl|];
    [|split; [intros _; eexists; split; [reflexivity|reflexivity]|discriminate]].
  pose proof (py_float_convertible size1_converts ev) as Hev.
  pose proof (py_float_convertible size1_converts bl) as Hbl.
  destruct (convertible size1_converts ev), (convertible size1_converts bl); cbn [andb]; split; try discriminate.
  - intros _. destruct Hev as [e ->], Hbl as [b ->]. eexists. split; [reflexivity|].
    intros [H|H]; discriminate H.
  - intros _. destruct Hev as [e ->]. rewrite Hbl. reflexivity.
  - intros _. rewrite Hev. reflexivity.
  - intros _. rewrite Hev. reflexivity.
Qed.

Lemma compute_rt_cases (size1_converts : bool) (trials : list trial)
    (event_field baseline_field : string) :
  event_field <> "" -> baseline_field <> "" ->
  (forallb (rt_computable size1_converts event_field baseline_field) trials = true ->
   exists rt, _compute_rt size1_converts trials event_field baseline_field = ret rt /\
     length rt = length trials /\
     forall i t, trials !! i = Some t ->
       (trial_fields t !! event_field = None \/
        trial_fields t !! baseline_field = None) ->
       rt !! i = Some F64.nan) /\
  (forallb (rt_computable size1_converts event_field baseline_field) trials = false ->
   _compute_rt size1_converts trials event_field baseline_field = raise TypeError).
Proof.
  intros Hev Hbl. unfold _compute_rt.
  apply String.eqb_neq in Hev, Hbl. rewrite Hev, Hbl. cbn [orb].
  set (body := fun t : trial => _).
  split.
  - intros Hall.
    destruct (for_each body trials) as [e|rt] eqn:Ef.
    + exfalso.
      assert (Hex : exists t, t ∈ trials /\ raises (body t) = true).
      { clear Hall. revert e Ef. induction trials as [|a l IH]; intros e Ef;
          [discriminate|].
        cbn [for_each] in Ef. destruct (body a) as [e'|y] eqn:Ea.
        - exists a. split; [apply elem_of_cons; auto|]. rewrite Ea. reflexivity.
        - cbn [bind] in Ef. destruct (for_each body l) as [e'|ys] eqn:El;
            [|discriminate].
          destruct (IH e' eq_refl) as (t & Ht & Hr). exists t.
          split; [apply elem_of_cons; auto|exact Hr]. }
      destruct Hex as (t & Ht & Hr).
      rewrite forallb_forall in Hall.
      destruct (proj1 (compute_rt_body size1_converts event_field baseline_field t)) as (x & Hx & _).
      { apply Hall, list_elem_of_In, Ht. }
      subst body. cbv beta in Hr. cbv zeta in Hx. rewrite Hx in Hr. discriminate Hr.
    + exists rt. split; [reflexivity|].
      assert (Hlen : length rt = length trials).
      { clear Hall. revert rt Ef. induction trials as [|a l IH]; intros rt Ef.
        - injection Ef as <-. reflexivity.
        - cbn [for_each] in Ef. destruct (body a); [discriminate|]. cbn [bind] in Ef.
          destruct (for_each body l) as [|ys]; [discriminate|]. injection Ef as <-.
          cbn [length]. f_equal. apply IH. reflexivity. }
      split; [exact Hlen|]. intros i t Hi Hmiss.
      destruct (for_each_lookup _ _ _ _ _ Ef Hi) as (y & Hy & Hl).
      rewrite Hl. f_equal. rewrite forallb_forall in Hall.
      destruct (proj1 (compute_rt_body size1_converts event_field baseline_field t)) as (x & Hx & Hn).
      { apply Hall, list_elem_of_In. eapply list_elem_of_lookup_2, Hi. }
      subst body. cbv beta in Hy. cbv zeta in Hx. rewrite Hx in Hy.
      injection Hy as <-. apply Hn, Hmiss.
  - intros Hsome.
    assert (Hex : exists t, t ∈ trials /\
                            rt_computable size1_converts event_field baseline_field t = false).
    { clear -Hsome. induction trials as [|a l IH]; [discriminate|].
      cbn [forallb] in Hsome. apply andb_false_iff in Hsome as [H|H].
      - exists a. split; [apply elem_of_cons; auto|exact H].
      - destruct (IH H) as (t & Ht & Hr). exists t.
        split; [apply elem_of_cons; auto|exact Hr]. }
    destruct Hex as (t & Ht & Hr).
    apply (for_each_raises body TypeError trials t).
    + intros y _ Hy.
      destruct (rt_computable size1_converts event_field baseline_field y) eqn:Ey.
      * destruct (proj1 (compute_rt_body size1_converts event_field baseline_field y) Ey)
          as (x & Hx & _).
        subst body. cbv beta in Hy |- *. cbv zeta in Hx. rewrite Hx in Hy.
        discriminate Hy.
      * exact (proj2 (compute_rt_body size1_converts event_field baseline_field y) Ey).
    + exact Ht.
    + subst body. cbv beta.
      pose proof (proj2 (compute_rt_body size1_converts event_field baseline_field t) Hr) as Hb.
      cbv zeta in Hb. rewrite Hb. reflexivity.
Qed.

(** X14. Reaction times. With an empty field name there are none. With two
    field names there is one per trial, NaN for a trial that lacks one of
    the fields, unless some trial holds both fields and one of them does
    not convert to a float: an array of other than one number, or, under a
    NumPy that no longer converts them, an array of one number. Then the
    computation raises [TypeError]. *)
Theorem compute_rt_one_per_trial_or_type_error (size1_converts : bool)
    (trials : list trial) (event_field baseline_field : string) :
  (event_field = "" \/ baseline_field = "" ->
   _compute_rt size1_converts trials event_field baseline_field = ret []) /\
  (event_field <> "" /\ baseline_field <> "" ->
   (forallb (rt_computable size1_converts event_field baseline_field) trials = true ->
    exists rt, _compute_rt size1_converts trials event_field baseline_field = ret rt /\
      length rt = length trials /\
      forall i t, trials !! i = Some t ->
        (trial_fields t !! event_field = None \/
         trial_fields t !! baseline_field = None) ->
        rt !! i = Some F64.nan) /\
   (forallb (rt_computable size1_converts event_field baseline_field) trials = false ->
    _compute_rt size1_converts trials event_field baseline_field = raise TypeError)).
Proof.
  split.
  - intros [-> | ->]; unfold _compute_rt.
    + reflexivity.
    + rewrite orb_true_r. reflexivity.
  - intros [Hev Hbl]. exact (compute_rt_cases size1_converts trials event_field baseline_field Hev Hbl).
Qed.

Lemma compute_rt_outcomes (size1_converts : bool) (trials : list trial)
    (event_field baseline_field : string) :
  match _compute_rt size1_converts trials event_field baseline_field with
  | inr rt => rt = [] \/ length rt = length trials
  | inl e => e = TypeError
  end.
Proof.
  destruct (String.eqb_spec event_field "") as [->|Hev]; [left; reflexivity|].
  destruct (String.eqb_spec baseline_field "") as [->|Hbl].
  { unfold _compute_rt. rewrite orb_true_r. left. reflexivity. }
  destruct (compute_rt_cases size1_converts trials event_field baseline_field Hev Hbl) as [Hok Hbad].
  destruct (forallb (rt_computable size1_converts event_field baseline_field) trials).
  - destruct (Hok eq_refl) as (rt & -> & Hlen & _). right. exact Hlen.
  - rewrite (Hbad eq_refl). reflexivity.
Qed.

Section TaskRasterFacts.

Variable dayrecs : string -> list string.
Variable _load_events : string -> string -> option events_table.
Variable _load_npclu : string -> string -> option npclu_table.

Variable size1_converts : bool.

Lemma trial_np_spike_outcomes (trials : list trial) (cluster_id : Z)
    (event_field : string) (bn : Z * Z) :
  match trial_np_spike dayrecs _load_events _load_npclu trials cluster_id
          event_field bn with
  | inr out => length out = length trials
  | inl e => e = OverflowError /\ window_ok bn = false
  end.
Proof.
  destruct trials as [|t0 rest]; [reflexivity|].
  pose proof (trial_np_spike_cases dayrecs _load_events _load_npclu t0 rest
                cluster_id event_field bn) as Hc.
  destruct (trial_np_spike dayrecs _load_events _load_npclu (t0 :: rest)
              cluster_id event_field bn) as [e|out]; [exact Hc|].
  exact (proj1 Hc).
Qed.

(** One attempt: the spikes, then the reaction times. *)
Lemma attempt_outcomes (trials : list trial) (clu : Z) (event : string)
    (bn : Z * Z) (event_field baseline_field : string) :
  match (let* spikes :=
           trial_np_spike dayrecs _load_events _load_npclu trials clu event bn in
         let* rt := _compute_rt size1_converts trials event_field baseline_field in
         ret (spikes, rt)) with
  | inr (spikes, rt) =>
      length spikes = length trials /\ (rt = [] \/ length rt = length trials)
  | inl e => e = TypeError \/ (e = OverflowError /\ window_ok bn = false)
  end.
Proof.
  pose proof (trial_np_spike_outcomes trials clu event bn) as H1.
  destruct (trial_np_spike dayrecs _load_events _load_npclu trials clu event bn)
    as [e|spikes]; cbn [bind]; [right; exact H1|].
  pose proof (compute_rt_outcomes size1_converts trials event_field baseline_field)
    as H2.
  destruct (_compute_rt size1_converts trials event_field baseline_field) as [e|rt];
    cbn [bind ret]; [left; exact H2|].
  split; [exact H1|exact H2].
Qed.

Lemma extract_task_rasters_cases (trials : list trial) (clu : Z)
    (task_cfg : TaskTypeConfig) :
  match _extract_task_rasters dayrecs _load_events _load_npclu size1_converts
          trials clu task_cfg with
  | inr (spikes, rt) =>
      length spikes = length trials /\ (rt = [] \/ length rt = length trials)
  | inl e =>
      (e = TypeError \/
       (e = OverflowError /\ window_ok (time_window task_cfg) = false)) /\
      truthy (fallback_event task_cfg) = true
  end.
Proof.
  unfold _extract_task_rasters, primary_attempt, fallback_attempt. cbv zeta.
  pose proof (attempt_outcomes trials clu (primary_event task_cfg)
                (time_window task_cfg) (rt_event task_cfg) (rt_baseline task_cfg))
    as H1.
  match type of H1 with
  | match ?m with _ => _ end => destruct m as [e|[spikes rt]]
  end; [|exact H1].
  destruct (truthy (fallback_event task_cfg)).
  - pose proof (attempt_outcomes trials clu (default "" (fallback_event task_cfg))
                  (time_window task_cfg)
                  (or_else (rt_fallback_event task_cfg) (rt_event task_cfg))
                  (or_else (rt_fallback_baseline task_cfg) (rt_baseline task_cfg)))
      as H2.
    match type of H2 with
    | match ?m with _ => _ end => destruct m as [e'|[spikes rt]]
    end; [split; [exact H2|reflexivity]|exact H2].
  - cbn [ret]. split; [apply length_map|]. left. reflexivity.
Qed.

(** X15. The rasters of one task type. When the extraction returns, there
    is one spike array per trial, and the reaction times are either none or
    one per trial. It can only fail for a task type that has a fallback
    event, and then with the [TypeError] of a field that does not convert
    to a float or with the [OverflowError] of a window bound that is beyond
    the floats: without a fallback event it always returns. *)
Theorem extract_task_rasters_outcomes (trials : list trial) (clu : Z)
    (task_cfg : TaskTypeConfig) :
  match _extract_task_rasters dayrecs _load_events _load_npclu size1_converts
          trials clu task_cfg with
  | inr (spikes, rt) =>
      length spikes = length trials /\ (rt = [] \/ length rt = length trials)
  | inl e =>
      (e = TypeError \/
       (e = OverflowError /\ window_ok (time_window task_cfg) = false)) /\
      truthy (fallback_event task_cfg) = true
  end.
Proof. apply extract_task_rasters_cases. Qed.

(** *** Sorting the trials into task types ([_categorize_trials]) *)

(** The task type of a trial, [trial.get('PyTaskType', '')]. *)
Variable py_task_type : trial -> string.

(** [result[key].append(trial)]; [None] stands for the [KeyError] of a
    missing key. *)
Definition append_to (result : gmap string (list trial)) (key : string) (t : trial)
  : option (gmap string (list trial)) :=
  match result !! key with
  | Some l => Some (<[key := (l ++ [t])%list]> result)
  | None => None
  end.

(** The body of the loop over the trials. *)
Definition categorize_trial (result : gmap string (list trial)) (t : trial)
  : option (gmap string (list trial)) :=
  let ty := py_task_type t in
  match List.find (fun task_cfg => bool_decide (ty ∈ py_task_types task_cfg))
                  TASK_TYPES with
  | Some task_cfg => append_to result (name task_cfg) t
  | None => if String.eqb ty "" then append_to result "Reach" t else Some result
  end.

Definition _categorize_trials (trials : list trial)
  : option (gmap string (list trial)) :=
  let result := foldl (fun result task_cfg => <[name task_cfg := []]> result)
                      ∅ TASK_TYPES in
  foldl (fun acc t => match acc with
                      | Some result => categorize_trial result t
                      | None => None
                      end)
        (Some result) trials.

(** The trials of a task type: those whose type is listed for it and, for
    the reaches, those without a type. *)
Definition in_category (task_cfg : TaskTypeConfig) (t : trial) : bool :=
  bool_decide (py_task_type t ∈ py_task_types task_cfg)
  || (String.eqb (name task_cfg) "Reach" && String.eqb (py_task_type t) "").

(** The key under which the loop body files a trial. *)
Definition filed_under (t : trial) : option string :=
  match List.find (fun task_cfg => bool_decide (py_task_type t ∈ py_task_types task_cfg))
                  TASK_TYPES with
  | Some task_cfg => Some (name task_cfg)
  | None => if String.eqb (py_task_type t) "" then Some "Reach" else None
  end.

Lemma init_categories_lookup (cfgs : list TaskTypeConfig)
    (m : gmap string (list trial)) (k : string) :
  foldl (fun result task_cfg => <[name task_cfg := []]> result) m cfgs !! k
  = if bool_decide (k ∈ map name cfgs) then Some [] else m !! k.
Proof.
  revert m. induction cfgs as [|c cfgs IH]; intros m; [reflexivity|].
  cbn [foldl map]. rewrite IH.
  destruct (bool_decide_reflect (k ∈ map name cfgs)) as [Hin|Hnin].
  - rewrite bool_decide_eq_true_2 by (apply elem_of_cons; auto). reflexivity.
  - destruct (decide (k = name c)) as [->|Hne].
    + rewrite bool_decide_eq_true_2 by (apply elem_of_cons; auto).
      apply lookup_insert_eq.
    + rewrite bool_decide_eq_false_2
        by (intros H; apply elem_of_cons in H as [H|H]; contradiction).
      apply lookup_insert_ne. congruence.
Qed.

Lemma filed_under_is_a_category (t : trial) (k : string) :
  filed_under t = Some k -> k ∈ map name TASK_TYPES.
Proof.
  unfold filed_under.
  destruct (List.find _ TASK_TYPES) as [c|] eqn:Ef.
  - intros [= <-]. apply find_some in Ef as [Hin _].
    apply list_elem_of_In, in_map, Hin.
  - destruct (String.eqb (py_task_type t) ""); [|discriminate].
    intros [= <-]. apply list_elem_of_In. vm_compute. tauto.
Qed.

Lemma task_types_are_disjoint (c c' : TaskTypeConfig) (ty : string) :
  In c TASK_TYPES -> In c' TASK_TYPES ->
  ty ∈ py_task_types c -> ty ∈ py_task_types c' -> name c = name c'.
Proof.
  assert (Hcheck :
    forallb (fun c => forallb (fun c' => forallb (fun ty =>
      implb (bool_decide (ty ∈ py_task_types c')) (String.eqb (name c) (name c')))
      (py_task_types c)) TASK_TYPES) TASK_TYPES = true) by (vm_compute; reflexivity).
  intros Hc Hc' Hty Hty'.
  rewrite forallb_forall in Hcheck. specialize (Hcheck c Hc).
  rewrite forallb_forall in Hcheck. specialize (Hcheck c' Hc').
  rewrite forallb_forall in Hcheck.
  specialize (Hcheck ty (proj1 (list_elem_of_In _ _) Hty)).
  rewrite bool_decide_eq_true_2 in Hcheck by exact Hty'.
  apply String.eqb_eq, Hcheck.
Qed.

Lemma task_type_is_never_empty (c : TaskTypeConfig) :
  In c TASK_TYPES -> "" ∉ py_task_types c.
Proof.
  assert (Hcheck :
    forallb (fun c => negb (bool_decide ("" ∈ py_task_types c))) TASK_TYPES = true)
    by (vm_compute; reflexivity).
  intros Hc H. rewrite forallb_forall in Hcheck. specialize (Hcheck c Hc).
  rewrite bool_decide_eq_true_2 in Hcheck by exact H. discriminate Hcheck.
Qed.

Lemma task_type_names_differ (c c' : TaskTypeConfig) :
  In c TASK_TYPES -> In c' TASK_TYPES -> name c = name c' -> c = c'.
Proof.
  intros Hc Hc' Hn. unfold TASK_TYPES in Hc, Hc'. cbn [In] in Hc, Hc'.
  repeat match goal with
         | H : _ \/ _ |- _ => destruct H as [H|H]
         | H : False |- _ => destruct H
         end; subst c c'; first [reflexivity | discriminate Hn].
Qed.

Lemma filed_under_in_category (task_cfg : TaskTypeConfig) (t : trial) :
  In task_cfg TASK_TYPES ->
  bool_decide (filed_under t = Some (name task_cfg)) = in_category task_cfg t.
Proof.
  intros Hc. unfold filed_under, in_category.
  destruct (List.find _ TASK_TYPES) as [c0|] eqn:Ef.
  - pose proof (find_some _ _ Ef) as [Hc0 Hty0]. apply bool_decide_eq_true in Hty0.
    assert (Hne : String.eqb (py_task_type t) "" = false).
    { apply String.eqb_neq. intros E. rewrite E in Hty0.
      exact (task_type_is_never_empty c0 Hc0 Hty0). }
    rewrite Hne, andb_false_r, orb_false_r.
    destruct (bool_decide_reflect (py_task_type t ∈ py_task_types task_cfg)) as [H|H].
    + apply bool_decide_eq_true_2. f_equal.
      exact (task_types_are_disjoint c0 task_cfg _ Hc0 Hc Hty0 H).
    + apply bool_decide_eq_false_2. intros [= E].
      apply task_type_names_differ in E; [|exact Hc0|exact Hc]. subst c0.
      contradiction.
  - assert (Hno : bool_decide (py_task_type t ∈ py_task_types task_cfg) = false).
    { exact (find_none _ _ Ef task_cfg Hc). }
    rewrite Hno. cbn [orb].
    destruct (String.eqb (py_task_type t) ""); [|rewrite andb_false_r].
    + rewrite andb_true_r.
      destruct (String.eqb_spec (name task_cfg) "Reach") as [E|E].
      * apply bool_decide_eq_true_2. rewrite E. reflexivity.
      * apply bool_decide_eq_false_2. intros [= E']. congruence.
    + apply bool_decide_eq_false_2. discriminate.
Qed.

(** The dictionary after the trials [prefix] have been filed. *)
Definition filed (prefix : list trial) (m : gmap string (list trial)) : Prop :=
  forall k, m !! k =
    if bool_decide (k ∈ map name TASK_TYPES)
    then Some (List.filter (fun t => bool_decide (filed_under t = Some k)) prefix)
    else None.

Lemma categorize_trial_filed (prefix : list trial) (m : gmap string (list trial))
    (t : trial) :
  filed prefix m ->
  exists m', categorize_trial m t = Some m' /\ filed (prefix ++ [t])%list m'.
Proof.
  intros Hm.
  assert (Happ : forall key, filed_under t = Some key ->
            exists m', append_to m key t = Some m' /\ filed (prefix ++ [t])%list m').
  { intros key Hkey. unfold append_to.
    pose proof (filed_under_is_a_category t key Hkey) as Hin.
    rewrite (Hm key), bool_decide_eq_true_2 by exact Hin.
    eexists. split; [reflexivity|]. intros k.
    rewrite List.filter_app. cbn [List.filter].
    destruct (decide (k = key)) as [->|Hne].
    - rewrite lookup_insert_eq, bool_decide_eq_true_2 by exact Hin.
      rewrite (bool_decide_eq_true_2 _ Hkey). reflexivity.
    - rewrite lookup_insert_ne by congruence. rewrite (Hm k).
      rewrite (bool_decide_eq_false_2 (filed_under t = Some k)) by congruence.
      rewrite app_nil_r. reflexivity. }
  assert (Hnone : filed_under t = None -> filed (prefix ++ [t])%list m).
  { intros Hn k. rewrite List.filter_app. cbn [List.filter].
    rewrite (bool_decide_eq_false_2 (filed_under t = Some k)) by congruence.
    rewrite app_nil_r. apply Hm. }
  unfold categorize_trial. cbv zeta. unfold filed_under in Happ, Hnone.
  destruct (List.find _ TASK_TYPES) as [c|]; [apply Happ; reflexivity|].
  destruct (String.eqb (py_task_type t) ""); [apply Happ; reflexivity|].
  exists m. split; [reflexivity|]. apply Hnone. reflexivity.
Qed.

Lemma categorize_trials_filed (trials : list trial) :
  exists m, _categorize_trials trials = Some m /\ filed trials m.
Proof.
  unfold _categorize_trials. cbv zeta.
  set (init := foldl _ ∅ TASK_TYPES).
  assert (Hinit : filed [] init).
  { intros k. subst init. rewrite init_categories_lookup, lookup_empty.
    destruct (bool_decide _); reflexivity. }
  assert (Hgen : forall rest prefix m, filed prefix m ->
            exists m', foldl (fun acc t => match acc with
                                           | Some result => categorize_trial result t
                                           | None => None
                                           end) (Some m) rest = Some m' /\
                       filed (prefix ++ rest)%list m').
  { induction rest as [|t rest IH]; intros prefix m Hm.
    - exists m. rewrite app_nil_r. split; [reflexivity|exact Hm].
    - cbn [foldl]. destruct (categorize_trial_filed prefix m t Hm) as (m1 & -> & Hm1).
      destruct (IH _ _ Hm1) as (m' & Hf & Hm'). exists m'. split; [exact Hf|].
      rewrite <- app_assoc in Hm'. exact Hm'. }
  exact (Hgen trials [] init Hinit).
Qed.

(** X16. Sorting trials into task types never fails, and the result has
    exactly the task-type names as keys. Under the name of a task type are,
    in their original order, the trials whose type is listed for it; the
    trials without a type are filed with the reaches, and a trial of an
    unlisted type is in no list. *)
Theorem categorize_trials_partitions_by_task_type (trials : list trial) :
  exists m, _categorize_trials trials = Some m /\
    (forall k, is_Some (m !! k) <-> k ∈ map name TASK_TYPES) /\
    (forall task_cfg, task_cfg ∈ TASK_TYPES ->
       m !! name task_cfg = Some (List.filter (in_category task_cfg) trials)).
Proof.
  destruct (categorize_trials_filed trials) as (m & Hm & Hfiled).
  exists m. split; [exact Hm|]. split.
  - intros k. rewrite (Hfiled k).
    destruct (bool_decide_reflect (k ∈ map name TASK_TYPES)) as [H|H].
    + split; [auto|]. intros _. eexists. reflexivity.
    + split; [|contradiction]. intros [x Hx]. discriminate Hx.
  - intros c Hc. apply list_elem_of_In in Hc. rewrite (Hfiled (name c)).
    rewrite bool_decide_eq_true_2 by (apply list_elem_of_In, in_map, Hc).
    f_equal. apply filter_ext. intros t. apply filed_under_in_category, Hc.
Qed.

End TaskRasterFacts.

(** *** The rasters of a cluster over all task types ([extract_rasters]) *)

Section ClusterRasters.

Variable dayrecs : string -> list string.
Variable _load_events : string -> string -> option events_table.
Variable _load_npclu : string -> string -> option npclu_table.
Variable size1_converts : bool.

(** The loop over the task types, started from the spike arrays and the
    reaction times gathered so far; [task_cfgs] is what is left of
    [TASK_TYPES]. *)
Fixpoint extract_tasks (task_cfgs : list TaskTypeConfig)
    (task_trial_map : gmap string (list trial)) (clu : Z)
    (all_spikes : list (list F64.float)) (all_rt : list F64.float)
  : result (list (list F64.float) * list F64.float) :=
  match task_cfgs with
  | [] => ret (all_spikes, all_rt)
  | task_cfg :: task_cfgs' =>
      let task_trials := default [] (task_trial_map !! name task_cfg) in
      match task_trials with
      | [] => extract_tasks task_cfgs' task_trial_map clu all_spikes all_rt
      | _ :: _ =>
          let* r := _extract_task_rasters dayrecs _load_events _load_npclu
                      size1_converts task_trials clu task_cfg in
          extract_tasks task_cfgs' task_trial_map clu
            (all_spikes ++ fst r)%list (all_rt ++ snd r)%list
      end
  end.

Definition extract_all_tasks (task_trial_map : gmap string (list trial)) (clu : Z)
  : result (list (list F64.float) * list F64.float) :=
  extract_tasks TASK_TYPES task_trial_map clu [] [].

Lemma extract_tasks_cases (task_cfgs : list TaskTypeConfig)
    (task_trial_map : gmap string (list trial)) (clu : Z)
    (all_spikes : list (list F64.float)) (all_rt : list F64.float) :
  Forall (fun task_cfg => window_ok (time_window task_cfg) = true) task_cfgs ->
  match extract_tasks task_cfgs task_trial_map clu all_spikes all_rt with
  | inr (spikes, rt) =>
      exists n_spikes n_rt,
        length spikes = (length all_spikes + n_spikes)%nat /\
        length rt = (length all_rt + n_rt)%nat /\
        (n_rt <= n_spikes)%nat /\
        n_spikes = sum_list (map (fun task_cfg =>
                                    length (default [] (task_trial_map !! name task_cfg)))
                                 task_cfgs)
  | inl e => e = TypeError
  end.
Proof.
  intros Hwin. revert all_spikes all_rt.
  induction task_cfgs as [|c cfgs IH]; intros all_spikes all_rt.
  - cbn. exists 0%nat, 0%nat. repeat split; lia.
  - apply Forall_cons in Hwin as [Hc_win Hwin]. specialize (IH Hwin).
    cbn [extract_tasks map sum_list]. cbv zeta.
    destruct (default [] (task_trial_map !! name c)) as [|t ts] eqn:Et.
    + exact (IH all_spikes all_rt).
    + rewrite <- Et.
      pose proof (extract_task_rasters_cases dayrecs _load_events _load_npclu
                    size1_converts (default [] (task_trial_map !! name c)) clu c)
        as Hc.
      destruct (_extract_task_rasters _ _ _ _ _ clu c) as [e|[spikes rt]].
      * cbn [bind]. destruct Hc as [[Hc|[_ Hc]] _]; [exact Hc|congruence].
      * cbn [bind fst snd]. destruct Hc as [Hs Hrt].
        specialize (IH (all_spikes ++ spikes)%list (all_rt ++ rt)%list).
        destruct (extract_tasks cfgs _ _ _ _) as [e|[spikes' rt']]; [exact IH|].
        destruct IH as (ns & nrt & H1 & H2 & H3 & H4).
        rewrite length_app in H1, H2.
        exists (length (default [] (task_trial_map !! name c)) + ns)%nat,
               (length rt + nrt)%nat.
        split; [lia|]. split; [lia|]. split; [|rewrite H4; reflexivity].
        destruct Hrt as [-> | ->]; cbn [length]; lia.
Qed.

(** X17. The rasters of a cluster, gathered over the task types. When the
    loop returns, the spike arrays are as many as the trials of all task
    types together, and the reaction times are never more than the spike
    arrays. The loop can only fail with a [TypeError]. *)
Theorem extract_all_tasks_counts (task_trial_map : gmap string (list trial))
    (clu : Z) :
  match extract_all_tasks task_trial_map clu with
  | inr (all_spikes, all_rt) =>
      length all_spikes
        = sum_list (map (fun task_cfg =>
                           length (default [] (task_trial_map !! name task_cfg)))
                        TASK_TYPES) /\
      (length all_rt <= length all_spikes)%nat
  | inl e => e = TypeError
  end.
Proof.
  unfold extract_all_tasks.
  assert (Hwin : Forall (fun task_cfg => window_ok (time_window task_cfg) = true)
                   TASK_TYPES).
  { unfold TASK_TYPES. repeat constructor; vm_compute; reflexivity. }
  pose proof (extract_tasks_cases TASK_TYPES task_trial_map clu [] [] Hwin) as H.
  destruct (extract_tasks TASK_TYPES task_trial_map clu [] []) as [e|[spikes rt]];
    [exact H|].
  destruct H as (ns & nrt & H1 & H2 & H3 & H4). cbn [length] in H1, H2.
  split; [lia|lia].
Qed.

End ClusterRasters.

(** A reach whose extraction fails, followed by a trial of a later task
    type: the reach contributes a spike array and no reaction time, so the
    only reaction time gathered, that of the second trial, stands at the
    position of the first. *)
Example reaction_times_shift_after_a_failed_task_type (size1_converts : bool) :
  let later_trial :=
    {| trial_day := "250101"; trial_rec := "007"; trial_index := Some 2%Z;
       trial_fields :=
         <["SaccStart" := VFloat (F64.of_Z 350)]>
         (<["disGo" := VFloat (F64.of_Z 100)]> ∅) |} in
  extract_all_tasks RasterExample.dayrecs RasterExample._load_events
    RasterExample._load_npclu size1_converts
    (<["Reach" := [RasterExample.the_trial]]>
     (<["GAF" := [later_trial]]> ∅)) 5
  = ret ([[]; []], [F64.of_Z 250]).
Proof. destruct size1_converts; vm_compute; reflexivity. Qed.

(** ** The channels the profiler picks *)

Lemma argmin_loop_bound (l : list F64.float) (mp : F64.float) (min_ind i : nat) :
  (min_ind < i)%nat -> (argmin_loop mp min_ind i l < i + length l)%nat.
Proof.
  revert mp min_ind i. induction l as [|x l IH]; intros mp min_ind i Hlt;
    cbn [argmin_loop length].
  - lia.
  - destruct (negb (F64.geb x mp)).
    + destruct (F64.isnan x); [lia|].
      specialize (IH x i (S i)). lia.
    + specialize (IH mp min_ind (S i)). lia.
Qed.

Lemma argmin_bound (l : list F64.float) : l <> [] -> (argmin l < length l)%nat.
Proof.
  destruct l as [|x l]; [congruence|]. intros _. cbn [argmin length].
  destruct (F64.isnan x); [lia|].
  pose proof (argmin_loop_bound l x 0 1). lia.
Qed.

Lemma where_bound (n : nat) (mask : nat -> bool) (k : nat) :
  (k < length (where_ n mask))%nat -> (nth k (where_ n mask) 0 < n)%nat.
Proof.
  intros Hk. pose proof (nth_In (where_ n mask) 0%nat Hk) as Hin.
  unfold where_ in *. apply filter_In in Hin as [Hin _].
  apply in_seq in Hin. lia.
Qed.

(** The index after the check of the PC coverage: the first choice, or the
    choice among the eligible channels. *)
Lemma refined_index_bound (n idx k : nat) (b : bool) (mask : nat -> bool) :
  (idx < n)%nat ->
  (where_ n mask <> [] -> (k < length (where_ n mask))%nat) ->
  ((if b then
      if Nat.ltb 0 (length (where_ n mask)) then nth k (where_ n mask) 0%nat else idx
    else idx) < n)%nat.
Proof.
  intros Hidx Hk. destruct b; [|exact Hidx].
  destruct (Nat.ltb_spec 0 (length (where_ n mask))) as [Hlt|_]; [|exact Hidx].
  apply where_bound, Hk. intros E. rewrite E in Hlt. cbn in Hlt. lia.
Qed.

Lemma length_column_energy (wfs : list (list F64.float)) (n : nat) :
  length (column_energy wfs n) = n.
Proof. unfold column_energy. rewrite length_map, length_seq. reflexivity. Qed.

Lemma np_max_nonempty (l : list F64.float) (m : F64.float) :
  np_max l = ret m -> l <> [].
Proof. destruct l; [discriminate|]. intros _. discriminate. Qed.

Lemma for_each_length {A B : Type} (f : A -> result B) (l : list A) (ys : list B) :
  for_each f l = ret ys -> length ys = length l.
Proof.
  revert ys. induction l as [|a l IH]; intros ys Hf.
  - injection Hf as <-. reflexivity.
  - cbn [for_each] in Hf. destruct (f a); [discriminate|]. cbn [bind] in Hf.
    destruct (for_each f l) as [|ys']; [discriminate|]. injection Hf as <-.
    cbn [length]. f_equal. apply IH. reflexivity.
Qed.

Lemma for_each_raises_any {A B : Type} (f : A -> result B) (l : list A) (x : A) :
  x ∈ l -> raises (f x) = true -> raises (for_each f l) = true.
Proof.
  induction l as [|a l IH]; intros Hx Hr; [inversion Hx|].
  cbn [for_each]. destruct (f a) as [e|y] eqn:Ea; [reflexivity|]. cbn [bind].
  apply elem_of_cons in Hx as [->|Hx]; [rewrite Ea in Hr; discriminate Hr|].
  specialize (IH Hx Hr). destruct (for_each f l); [reflexivity|discriminate IH].
Qed.

(** X18. For a cluster that has spikes, the best and the worst channel the
    profiler returns are both among the cluster's own local channels
    [pc_feat_ind[clu_id]], which cannot be empty then: every index the
    profiler computes lies inside that array. *)
Theorem cluster_sites_are_local_channels (sp : KsOutput)
    (clu_id max_site min_site : Z) :
  spikes_of sp clu_id <> [] ->
  cluster_sites sp clu_id = ret (max_site, min_site) ->
  exists tmp_ind,
    py_index (sp_pc_feat_ind sp) clu_id = ret tmp_ind /\
    tmp_ind <> [] /\ max_site ∈ tmp_ind /\ min_site ∈ tmp_ind.
Proof.
  intros Hsp. unfold cluster_sites. cbv zeta.
  destruct (Nat.eqb_spec (length (spikes_of sp clu_id)) 0) as [H0|_];
    [destruct (spikes_of sp clu_id); [congruence|discriminate]|].
  destruct (py_index (sp_temps sp) clu_id) as [e|this_clu_temp]; [discriminate|].
  cbn [bind]. destruct (py_index (sp_pc_feat_ind sp) clu_id) as [e|tmp_ind];
    [discriminate|].
  cbn [bind]. destruct (for_each _ this_clu_temp) as [e|this_clu_wfs]; [discriminate|].
  cbn [bind].
  match goal with
  | |- context [bind ?m _] => destruct m as [e|my_pc_feat]; [discriminate|]
  end.
  cbn [bind].
  set (n_local := length tmp_ind).
  set (ptp_energy := column_energy this_clu_wfs n_local).
  set (nz := match my_pc_feat with
             | Some (n_chan, rows) => _
             | None => replicate n_local F64.zero
             end).
  destruct (np_max ptp_energy) as [e|max_e] eqn:Emax; [discriminate|]. cbn [bind].
  destruct (np_max nz) as [e|max_r] eqn:Emaxr; [discriminate|]. cbn [bind].
  assert (Hn : (0 < n_local)%nat).
  { apply np_max_nonempty in Emax.
    assert (Hl : length ptp_energy = n_local) by apply length_column_energy.
    destruct ptp_energy; [congruence|]. cbn in Hl. lia. }
  assert (Hnz : length nz = n_local).
  { subst nz. destruct my_pc_feat as [[n_chan rows]|].
    - rewrite length_map, length_seq. reflexivity.
    - apply length_replicate. }
  set (combined_score := zip_with _ _ _).
  assert (Hcs : length combined_score = n_local).
  { subst combined_score. rewrite length_zip_with, !length_map, Hnz.
    subst ptp_energy. rewrite length_column_energy. lia. }
  assert (Hne : forall l : list F64.float, length l = n_local -> l <> []).
  { intros l Hl E. rewrite E in Hl. cbn in Hl. lia. }
  assert (Hmapne : forall (g : nat -> F64.float) (l : list nat),
            l <> [] -> map g l <> []).
  { intros g [|x l] Hl; [congruence|discriminate]. }
  intros [= <- <-]. exists tmp_ind. split; [reflexivity|].
  split; [intros E; subst n_local; rewrite E in Hn; cbn in Hn; lia|].
  split; apply list_elem_of_In, nth_In; fold n_local.
  - apply refined_index_bound.
    + rewrite <- Hcs. apply argmax_bound, Hne, Hcs.
    + intros Hel. rewrite <- (length_map (fun i => nth i combined_score F64.nan)).
      apply argmax_bound, Hmapne, Hel.
  - apply refined_index_bound.
    + rewrite <- (length_column_energy this_clu_wfs n_local).
      apply argmin_bound, Hne, length_column_energy.
    + intros Hel. rewrite <- (length_map (fun i => nth i ptp_energy F64.nan)).
      apply argmin_bound, Hmapne, Hel.
Qed.

Lemma cluster_sites_are_local_channels_witness :
  spikes_of ProfilerExample.sp 1 <> [] /\
  cluster_sites ProfilerExample.sp 1 = ret (1%Z, 2%Z) /\
  exists tmp_ind,
    py_index (sp_pc_feat_ind ProfilerExample.sp) 1 = ret tmp_ind /\
    tmp_ind <> [] /\ 1%Z ∈ tmp_ind /\ 2%Z ∈ tmp_ind.
Proof.
  assert (H1 : spikes_of ProfilerExample.sp 1 <> []) by (vm_compute; discriminate).
  assert (H2 : cluster_sites ProfilerExample.sp 1 = ret (1%Z, 2%Z))
    by (vm_compute; reflexivity).
  split; [exact H1|]. split; [exact H2|].
  exact (cluster_sites_are_local_channels ProfilerExample.sp 1 1 2 H1 H2).
Defined.

(** X19. The profiler is all or nothing. When it returns, both arrays have
    one entry per cluster id. When one cluster fails, the whole call fails;
    this is what happens for a cluster with spikes whose id is not a
    position of the template array (neither from the front nor, negative,
    from the back): an [IndexError]. *)
Theorem clus_channel_info_all_or_nothing (sp : KsOutput) (cids : list Z) :
  (forall max_site min_site,
     clus_channel_info sp cids = ret (max_site, min_site) ->
     length max_site = length cids /\ length min_site = length cids) /\
  (forall clu_id, clu_id ∈ cids -> raises (cluster_sites sp clu_id) = true ->
     raises (clus_channel_info sp cids) = true) /\
  (forall clu_id, spikes_of sp clu_id <> [] ->
     (Z.of_nat (length (sp_temps sp)) <= clu_id \/
      clu_id < - Z.of_nat (length (sp_temps sp)))%Z ->
     cluster_sites sp clu_id = raise IndexError).
Proof.
  split; [|split].
  - intros max_site min_site. unfold clus_channel_info.
    destruct (for_each (cluster_sites sp) cids) as [e|sites] eqn:Ef; [discriminate|].
    cbn [bind ret]. intros [= <- <-]. rewrite !length_map.
    split; apply (for_each_length _ _ _ Ef).
  - intros clu_id Hin Hr. unfold clus_channel_info.
    pose proof (for_each_raises_any (cluster_sites sp) cids clu_id Hin Hr) as H.
    destruct (for_each (cluster_sites sp) cids); [reflexivity|discriminate H].
  - intros clu_id Hsp Hout. unfold cluster_sites. cbv zeta.
    destruct (Nat.eqb_spec (length (spikes_of sp clu_id)) 0) as [H0|_];
      [destruct (spikes_of sp clu_id); [congruence|discriminate]|].
    assert (Hidx : py_index (sp_temps sp) clu_id = raise IndexError).
    { unfold py_index. cbv zeta.
      destruct (Z.ltb_spec clu_id 0) as [Hneg|Hpos].
      - destruct (Z.ltb_spec (clu_id + Z.of_nat (length (sp_temps sp))) 0);
          [reflexivity|lia].
      - destruct (Z.ltb_spec clu_id 0); [lia|].
        rewrite lookup_ge_None_2 by lia. reflexivity. }
    rewrite Hidx. reflexivity.
Qed.

(** ** Neighbouring clusters ([_find_neighbor_clus]) *)

Definition _find_neighbor_clus (max_site : list Z) (clu : Z) : result (list Z) :=
  if (Z.of_nat (length max_site) <=? clu - 1)%Z then ret []
  else
    let* target_site := py_index max_site (clu - 1) in
    let neighbors :=
      where_ (length max_site) (fun i => Z.eqb (nth i max_site 0%Z) target_site) in
    ret (map (fun n => (Z.of_nat n + 1)%Z)
             (List.filter (fun n => negb (Z.eqb (Z.of_nat n) (clu - 1))) neighbors)).

Lemma elem_of_neighbors (max_site : list Z) (target_site skip m : Z) :
  m ∈ map (fun n => (Z.of_nat n + 1)%Z)
        (List.filter (fun n => negb (Z.eqb (Z.of_nat n) skip))
           (where_ (length max_site)
              (fun i => Z.eqb (nth i max_site 0%Z) target_site)))
  <-> (1 <= m <= Z.of_nat (length max_site))%Z /\ (m - 1)%Z <> skip /\
      max_site !! Z.to_nat (m - 1) = Some target_site.
Proof.
  rewrite list_elem_of_In, in_map_iff. unfold where_. split.
  - intros (n & <- & Hn). apply filter_In in Hn as [Hn Hskip].
    apply filter_In in Hn as [Hn Heq]. apply in_seq in Hn. apply Z.eqb_eq in Heq.
    apply negb_true_iff, Z.eqb_neq in Hskip.
    split; [lia|]. split; [lia|].
    replace (Z.to_nat (Z.of_nat n + 1 - 1)) with n by lia.
    destruct (lookup_lt_is_Some_2 max_site n) as [x Hx]; [lia|].
    rewrite (nth_lookup_Some _ _ _ _ Hx) in Heq. congruence.
  - intros (Hm & Hskip & Hl). exists (Z.to_nat (m - 1)). split; [lia|].
    apply filter_In. split.
    + apply filter_In. split; [apply in_seq; lia|].
      rewrite (nth_lookup_Some _ _ _ _ Hl). apply Z.eqb_refl.
    + apply negb_true_iff, Z.eqb_neq. lia.
Qed.

(** X20. The neighbours of cluster [clu] (clusters are numbered from 1). A
    number beyond the site array has none. For a cluster of the array they
    are exactly the other clusters with the same best site, so that the
    cluster is never its own neighbour and being neighbours is mutual. A
    number below 1 is read from the back of the array, and then the cluster
    read is listed among its own neighbours; below minus the length it is
    an [IndexError]. *)
Theorem find_neighbor_clus_same_site (max_site : list Z) (clu : Z) :
  let n := Z.of_nat (length max_site) in
  ((n < clu)%Z -> _find_neighbor_clus max_site clu = ret []) /\
  ((1 <= clu <= n)%Z ->
   exists neighbors,
     _find_neighbor_clus max_site clu = ret neighbors /\
     forall m, m ∈ neighbors <->
       (1 <= m <= n)%Z /\ m <> clu /\
       max_site !! Z.to_nat (m - 1) = max_site !! Z.to_nat (clu - 1)) /\
  ((- n < clu <= 0)%Z ->
   exists neighbors,
     _find_neighbor_clus max_site clu = ret neighbors /\ (n + clu)%Z ∈ neighbors) /\
  ((clu <= - n)%Z ->
   _find_neighbor_clus max_site clu = raise IndexError).
Proof.
  cbv zeta. unfold _find_neighbor_clus. split; [|split; [|split]].
  - intros Hgt. destruct (Z.leb_spec (Z.of_nat (length max_site)) (clu - 1));
      [reflexivity|lia].
  - intros Hin. destruct (Z.leb_spec (Z.of_nat (length max_site)) (clu - 1)); [lia|].
    destruct (lookup_lt_is_Some_2 max_site (Z.to_nat (clu - 1))) as [x Hx]; [lia|].
    assert (Hidx : py_index max_site (clu - 1) = ret x).
    { unfold py_index. cbv zeta. destruct (Z.ltb_spec (clu - 1) 0); [lia|].
      destruct (Z.ltb_spec (clu - 1) 0); [lia|]. rewrite Hx. reflexivity. }
    rewrite Hidx. cbn [bind]. eexists. split; [reflexivity|].
    intros m. rewrite elem_of_neighbors, Hx. split.
    + intros (H1 & H2 & H3). split; [exact H1|]. split; [lia|exact H3].
    + intros (H1 & H2 & H3). split; [exact H1|]. split; [lia|exact H3].
  - intros Hwrap. destruct (Z.leb_spec (Z.of_nat (length max_site)) (clu - 1)); [lia|].
    set (j := (clu - 1 + Z.of_nat (length max_site))%Z).
    destruct (lookup_lt_is_Some_2 max_site (Z.to_nat j)) as [x Hx]; [lia|].
    assert (Hidx : py_index max_site (clu - 1) = ret x).
    { unfold py_index. cbv zeta. destruct (Z.ltb_spec (clu - 1) 0); [|lia].
      fold j. destruct (Z.ltb_spec j 0); [lia|]. rewrite Hx. reflexivity. }
    rewrite Hidx. cbn [bind]. eexists. split; [reflexivity|].
    apply elem_of_neighbors. split; [lia|]. split; [lia|].
    replace (Z.of_nat (length max_site) + clu - 1)%Z with j by lia. exact Hx.
  - intros Hlow.
    destruct (Z.leb_spec (Z.of_nat (length max_site)) (clu - 1)); [lia|].
    unfold py_index. cbv zeta. destruct (Z.ltb_spec (clu - 1) 0); [|lia].
    destruct (Z.ltb_spec (clu - 1 + Z.of_nat (length max_site)) 0); [|lia].
    reflexivity.
Qed.

(** ** Loading the cluster tables ([_load_cluster_info]) *)

Section RunFacts.

Variable npclu_file : string -> option NPcluFile.
Variable load_chan_map : result (list nat).
Variable cluster_type : string.

(** The table the stitcher takes from the file of recording [rec]. *)
Definition table_of (rec : string) (info : list (Z * nat)) : Prop :=
  exists f, npclu_file rec = Some f /\ select_cluster_info cluster_type f = ret info.

Lemma load_recs_tables (recs : list string) (st st' : ClusterState) :
  load_recs npclu_file load_chan_map cluster_type st recs = ret st' ->
  exists infos,
    st_clu_info_per_rec st' = (st_clu_info_per_rec st ++ infos)%list /\
    Forall2 table_of recs infos /\
    match st_chan_map st with
    | Some m => st_chan_map st' = Some m
    | None =>
        match recs with
        | [] => st_chan_map st' = None
        | _ :: _ => exists m, load_chan_map = ret m /\ st_chan_map st' = Some m
        end
    end.
Proof.
  revert st. induction recs as [|rec recs IH]; intros st Hload.
  - injection Hload as <-. exists []. rewrite app_nil_r. split; [reflexivity|].
    split; [constructor|]. destruct (st_chan_map st); reflexivity.
  - cbn [load_recs] in Hload.
    destruct (load_rec npclu_file load_chan_map cluster_type st rec) as [e|st1] eqn:E1;
      [discriminate|].
    cbn [bind] in Hload. destruct (IH st1 Hload) as (infos & Hinfos & Hall & Hmap).
    unfold load_rec in E1.
    destruct (npclu_file rec) as [f|] eqn:Ef; [|discriminate]. cbn [bind ret] in E1.
    destruct (select_cluster_info cluster_type f) as [e|info] eqn:Es; [discriminate|].
    cbn [bind] in E1.
    assert (Hst1 : exists m,
              match st_chan_map st with Some m0 => m0 = m | None => load_chan_map = ret m end
              /\ st_clu_info_per_rec st1 = (st_clu_info_per_rec st ++ [info])%list
              /\ st_chan_map st1 = Some m).
    { destruct (st_chan_map st) as [m0|].
      - cbn [bind ret] in E1. injection E1 as <-. exists m0. auto.
      - destruct load_chan_map as [e|m]; [discriminate|]. cbn [bind ret] in E1.
        injection E1 as <-. exists m. auto. }
    destruct Hst1 as (m & Hm & Hinfo1 & Hmap1).
    exists (info :: infos). rewrite Hinfos, Hinfo1, <- app_assoc.
    split; [reflexivity|]. split.
    + constructor; [exists f; auto|exact Hall].
    + rewrite Hmap1 in Hmap. destruct (st_chan_map st) as [m0|].
      * rewrite Hmap. f_equal. auto.
      * exists m. auto.
Qed.

Lemma load_recs_raises (recs : list string) (rec : string) :
  rec ∈ recs ->
  (forall st, raises (load_rec npclu_file load_chan_map cluster_type st rec) = true) ->
  forall st, raises (load_recs npclu_file load_chan_map cluster_type st recs) = true.
Proof.
  intros Hin Hrec. induction recs as [|r recs IH]; intros st; [inversion Hin|].
  cbn [load_recs].
  destruct (load_rec npclu_file load_chan_map cluster_type st r) as [e|st1] eqn:E1;
    [reflexivity|].
  cbn [bind]. apply elem_of_cons in Hin as [->|Hin].
  - specialize (Hrec st). rewrite E1 in Hrec. discriminate Hrec.
  - apply IH, Hin.
Qed.

(** X21. When the cluster tables load, there is one table per recording, in
    the order of the recordings, each the table the cluster type selects
    from that recording's file; and the channel map is the one of the sorter
    output, loaded if there is a recording at all. *)
Theorem load_cluster_info_one_table_per_recording (recs : list string)
    (st : ClusterState) :
  _load_cluster_info npclu_file load_chan_map recs cluster_type = ret st ->
  Forall2 table_of recs (st_clu_info_per_rec st) /\
  match recs with
  | [] => st_chan_map st = None
  | _ :: _ => exists m, load_chan_map = ret m /\ st_chan_map st = Some m
  end.
Proof.
  unfold _load_cluster_info. intros Hload.
  destruct (load_recs_tables recs _ st Hload) as (infos & Hinfos & Hall & Hmap).
  cbn in Hinfos, Hmap. rewrite Hinfos. split; [exact Hall|exact Hmap].
Qed.

(** X22. One recording without a usable file stops the run: when a
    recording has no [NPclu] file, or the cluster type is 'Isolated' and the
    file of a recording has no table of isolated clusters, the run raises
    and returns no table, wherever the recording stands in the list. *)
Theorem run_raises_on_unusable_recording
    (corrcoef : list F64.float -> list F64.float -> F64.float)
    (elec_num : list Z)
    (_get_waveform _get_firing_rate : Z -> nat -> result (list F64.float))
    (data_root_exists : bool) (recs : list string) (rec : string)
    (fr_threshold wf_threshold : F64.float) (min_recs chan_range : Z) :
  rec ∈ recs ->
  (npclu_file rec = None \/
   (cluster_type = "Isolated" /\
    exists f, npclu_file rec = Some f /\ iso_clu_info f = None)) ->
  raises (run corrcoef elec_num _get_waveform _get_firing_rate data_root_exists
            npclu_file load_chan_map recs cluster_type fr_threshold wf_threshold
            min_recs chan_range) = true.
Proof.
  intros Hin Hbad. unfold run, validate.
  destruct data_root_exists; [|reflexivity]. cbn [bind]. unfold _load_cluster_info.
  assert (Hrec : forall st,
            raises (load_rec npclu_file load_chan_map cluster_type st rec) = true).
  { intros st. unfold load_rec. destruct Hbad as [-> | (-> & f & -> & Hiso)];
      [reflexivity|].
    cbn [bind ret]. unfold select_cluster_info. cbn. rewrite Hiso. reflexivity. }
  pose proof (load_recs_raises recs rec Hin Hrec
                {| st_clu_info_per_rec := []; st_chan_map := None;
                   st_all_iso_chans := [] |}) as H.
  destruct (load_recs _ _ _ _ recs); [reflexivity|discriminate H].
Qed.

End RunFacts.

Lemma load_cluster_info_one_table_per_recording_witness :
  exists st,
    _load_cluster_info RunExample.npclu_file (ret [0%nat]) ["007"; "009"] "All"
      = ret st /\
    Forall2 (table_of RunExample.npclu_file "All") ["007"; "009"]
      (st_clu_info_per_rec st) /\
    exists m, ret [0%nat] = (ret m : result (list nat)) /\ st_chan_map st = Some m.
Proof.
  eexists. split; [vm_compute; reflexivity|].
  apply (load_cluster_info_one_table_per_recording RunExample.npclu_file
           (ret [0%nat]) "All" ["007"; "009"]).
  vm_compute. reflexivity.
Defined.

Lemma run_raises_on_unusable_recording_witness :
  "010" ∈ ["007"; "010"] /\
  RunExample.npclu_file "010" = None /\
  raises (run TwoRecordings.corrcoef [] RunExample.read RunExample.read
            true RunExample.npclu_file (ret [0%nat]) ["007"; "010"] "All"
            (F64.of_Z 1) (F64.of_Z 1) 2 10) = true.
Proof.
  assert (H1 : "010" ∈ ["007"; "010"]) by (apply elem_of_cons; right; apply elem_of_cons; left; reflexivity).
  assert (H2 : RunExample.npclu_file "010" = None) by reflexivity.
  split; [exact H1|]. split; [exact H2|].
  exact (run_raises_on_unusable_recording RunExample.npclu_file (ret [0%nat]) "All"
           TwoRecordings.corrcoef [] RunExample.read RunExample.read
           true ["007"; "010"] "010" (F64.of_Z 1) (F64.of_Z 1) 2 10 H1
           (or_introl H2)).
Defined.

(** ** Smoothing widths the PSTH estimator rejects *)

Section PsthSmoothing.

Variable hist_bin : Z -> Z -> nat -> F64.float -> option nat.
Variable norm_pdf : F64.float -> F64.float -> F64.float.

Lemma psth_half_width (spike_cell : list (option (list F64.float)))
    (start stop : Z) (smoothing : F64.float) :
  spike_cell <> [] ->
  (start <= stop)%Z ->
  match py_int (F64.mul (F64.of_Z 3) smoothing) with
  | inl e => psth hist_bin norm_pdf spike_cell (start, stop) smoothing = raise e
  | inr half_width =>
      (half_width < 0)%Z ->
      psth hist_bin norm_pdf spike_cell (start, stop) smoothing = raise ValueError
  end.
Proof.
  intros Hne Hwin. unfold psth.
  destruct (Nat.eqb_spec (length spike_cell) 0) as [H0|Hn];
    [destruct spike_cell; [congruence|discriminate]|].
  cbv zeta. cbn [fst snd]. unfold np_histogram. rewrite length_arange.
  destruct (Nat.ltb_spec (Z.to_nat (stop + 1 - start)) 1); [lia|].
  destruct (Z.ltb_spec stop start); [lia|].
  cbn [bind ret].
  destruct (py_int (F64.mul (F64.of_Z 3) smoothing)) as [e|half_width];
    [reflexivity|].
  intros Hneg. cbn [bind ret]. unfold np_convolve.
  rewrite !length_map, length_arange.
  replace (Z.to_nat (half_width + 1 - - half_width)) with 0%nat by lia.
  rewrite orb_true_r. reflexivity.
Qed.

(** X23. With at least one trial and a window that is not reversed, the
    estimator rejects a smoothing width that is NaN ([ValueError]), one that
    is infinite ([OverflowError]) and one whose triple truncates to a
    negative number, which leaves an empty kernel ([ValueError]). *)
Theorem psth_rejects_bad_smoothing (spike_cell : list (option (list F64.float)))
    (start stop : Z) (smoothing : F64.float) :
  spike_cell <> [] ->
  (start <= stop)%Z ->
  (F64.isnan smoothing = true ->
   psth hist_bin norm_pdf spike_cell (start, stop) smoothing = raise ValueError) /\
  (smoothing = F64.pos_inf \/ smoothing = F64.neg_inf ->
   psth hist_bin norm_pdf spike_cell (start, stop) smoothing = raise OverflowError) /\
  (forall half_width,
     py_int (F64.mul (F64.of_Z 3) smoothing) = ret half_width ->
     (half_width < 0)%Z ->
     psth hist_bin norm_pdf spike_cell (start, stop) smoothing = raise ValueError).
Proof.
  intros Hne Hwin.
  pose proof (psth_half_width spike_cell start stop smoothing Hne Hwin) as H.
  split; [|split].
  - intros Hnan. destruct smoothing as [| | |]; try discriminate Hnan.
    exact H.
  - intros [-> | ->]; exact H.
  - intros half_width Hhw Hneg. rewrite Hhw in H. exact (H Hneg).
Qed.

End PsthSmoothing.

Lemma psth_rejects_bad_smoothing_witness :
  PsthExample.trials <> [] /\ (-1 <= 1)%Z /\
  psth PsthExample.hist_bin PsthExample.norm_pdf PsthExample.trials (-1, 1)%Z
    (F64.of_Z (-1)) = raise ValueError.
Proof.
  assert (H1 : PsthExample.trials <> []) by discriminate.
  assert (H2 : (-1 <= 1)%Z) by lia.
  split; [exact H1|]. split; [exact H2|].
  apply (proj2 (proj2 (psth_rejects_bad_smoothing PsthExample.hist_bin
                         PsthExample.norm_pdf PsthExample.trials (-1) 1
                         (F64.of_Z (-1)) H1 H2)) (-3)%Z).
  - reflexivity.
  - lia.
Defined.

(** ** No unit is lost by deduplication *)

Lemma rows_identical_cmp (r1 r2 : row) :
  nan_free r1 -> nan_free r2 -> rows_identical r1 r2 = cmp_eq (row_cmp r1 r2).
Proof.
  intros H1 H2. unfold rows_identical. rewrite (row_neq_cmp r1 r2 H1 H2).
  apply negb_involutive.
Qed.

Lemma rows_identical_refl (r : row) : nan_free r -> rows_identical r r = true.
Proof.
  intros H. rewrite (rows_identical_cmp r r H H).
  pose proof (row_cmp_antisym r r) as Ha.
  destruct (row_cmp r r); [reflexivity|discriminate Ha|discriminate Ha].
Qed.

Lemma rows_identical_trans (r1 r2 r3 : row) :
  nan_free r1 -> nan_free r2 -> nan_free r3 ->
  rows_identical r1 r2 = true -> rows_identical r2 r3 = true ->
  rows_identical r1 r3 = true.
Proof.
  intros H1 H2 H3. rewrite (rows_identical_cmp r1 r2 H1 H2),
    (rows_identical_cmp r2 r3 H2 H3), (rows_identical_cmp r1 r3 H1 H3).
  intros E12 E23.
  destruct (row_cmp r1 r2) eqn:C12; try discriminate E12.
  destruct (row_cmp r2 r3) eqn:C23; try discriminate E23.
  pose proof (row_cmp_le_trans r1 r2 r3) as Hle. rewrite C12, C23 in Hle.
  specialize (Hle eq_refl eq_refl).
  pose proof (row_cmp_le_trans r3 r2 r1) as Hge.
  rewrite (row_cmp_antisym r2 r3), (row_cmp_antisym r1 r2), C12, C23 in Hge.
  specialize (Hge eq_refl eq_refl). rewrite (row_cmp_antisym r1 r3) in Hge.
  destruct (row_cmp r1 r3); [reflexivity|discriminate Hge|discriminate Hle].
Qed.

Lemma keep_first_represents (seen rows : list row) (r : row) :
  r ∈ rows ->
  exists r', (r' ∈ seen \/ r' ∈ keep_first seen rows) /\
             rows_identical (nan_to_zero r') (nan_to_zero r) = true.
Proof.
  revert seen. induction rows as [|r0 rows IH]; intros seen Hr; [inversion Hr|].
  cbn [keep_first].
  assert (Hhead : exists r', (r' ∈ seen \/
                     r' ∈ (if seen_before seen r0
                           then keep_first (seen ++ [r0])%list rows
                           else r0 :: keep_first (seen ++ [r0])%list rows)) /\
                    rows_identical (nan_to_zero r') (nan_to_zero r0) = true).
  { destruct (seen_before seen r0) eqn:Es.
    - unfold seen_before in Es. apply existsb_exists in Es as (s & Hs & Hid).
      exists s. split; [left; apply list_elem_of_In, Hs|exact Hid].
    - exists r0. split; [right; apply elem_of_cons; auto|].
      apply rows_identical_refl, nan_to_zero_nan_free. }
  apply elem_of_cons in Hr as [->|Hr]; [exact Hhead|].
  destruct (IH (seen ++ [r0])%list Hr) as (r' & Hr' & Hid).
  destruct Hr' as [Hr'|Hr'].
  - apply elem_of_app in Hr' as [Hr'|Hr'].
    + exists r'. split; [left; exact Hr'|exact Hid].
    + apply list_elem_of_singleton in Hr'. subst r'.
      destruct Hhead as (r'' & Hr'' & Hid'').
      exists r''. split; [exact Hr''|].
      apply (rows_identical_trans _ (nan_to_zero r0)); auto using nan_to_zero_nan_free.
  - exists r'. split; [|exact Hid]. right.
    destruct (seen_before seen r0); [exact Hr'|apply elem_of_cons; auto].
Qed.

Lemma nan_to_zero_lookup (r : list F64.float) (i : nat) :
  nan_to_zero r !! i = (fun x => if F64.isnan x then F64.zero else x) <$> (r !! i).
Proof. exact (list_lookup_fmap _ r i). Qed.

Lemma rows_identical_lookup (r1 r2 : row) (i : nat) (y : F64.float) :
  rows_identical r1 r2 = true -> r2 !! i = Some y ->
  exists x, r1 !! i = Some x /\ F64.eqb x y = true.
Proof.
  unfold rows_identical. rewrite negb_true_iff.
  revert r2 i. induction r1 as [|a r1 IH]; intros [|b r2] i Hid Hy; cbn in Hid;
    try discriminate.
  apply orb_false_elim in Hid as [Hab Hrest]. apply negb_false_iff in Hab.
  destruct i as [|i]; cbn in Hy |- *.
  - injection Hy as <-. exists a. auto.
  - apply (IH r2 i Hrest Hy).
Qed.

Section Coverage.

Variable corrcoef : list F64.float -> list F64.float -> F64.float.
Variable fr_threshold wf_threshold : F64.float.
Variable min_recs : Z.
Variable chan_range : Z.
Variable clu_info_per_rec : list (list (Z * nat)).
Variable chan_map : list nat.
Variable uni_chans : list nat.
Variable elec_num : list Z.
Variable _get_waveform : Z -> nat -> list F64.float.
Variable _get_firing_rate : Z -> nat -> list F64.float.

Lemma run_stitching_keeps_all_rows :
  (min_recs <= 1)%Z ->
  _run_stitching corrcoef fr_threshold wf_threshold min_recs chan_range
    clu_info_per_rec chan_map uni_chans elec_num _get_waveform _get_firing_rate
  = keep_first []
      (prediction_list corrcoef fr_threshold wf_threshold chan_range
         clu_info_per_rec chan_map uni_chans elec_num _get_waveform
         _get_firing_rate).
Proof.
  intros Hmin.
  pose proof (prediction_list_well_formed corrcoef fr_threshold wf_threshold
                min_recs chan_range clu_info_per_rec chan_map uni_chans elec_num
                _get_waveform _get_firing_rate) as Hwf.
  unfold _run_stitching.
  set (emitted := prediction_list _ _ _ _ _ _ _ _ _ _) in *.
  assert (Heq : match emitted with
                | [] => []
                | _ :: _ => filter_min_recs min_recs (deduplicate emitted)
                end = filter_min_recs min_recs (deduplicate emitted))
    by (destruct emitted; reflexivity).
  rewrite Heq, deduplicate_keep_first.
  assert (Hkept : Forall (well_formed_row clu_info_per_rec) (keep_first [] emitted))
    by (eapply Forall_of_sublist; [exact Hwf|apply keep_first_sublist]).
  unfold filter_min_recs.
  induction Hkept as [|r l Hr Hl IH]; cbn [List.filter]; [reflexivity|].
  destruct Hr as (_ & _ & Hcount).
  destruct (Z.leb_spec min_recs (Z.of_nat (valid_count r))); [|lia].
  f_equal. exact IH.
Qed.

(** X24. No unit is lost when [min_recs] is at most 1: for every cluster
    listed on one of the channels gone through, the final table has a row
    whose entry for the cluster's recording equals the cluster's id; only
    for an id that converts to 0 may that entry be missing instead, since
    deduplication does not tell a missing entry from 0. *)
Theorem every_unit_is_in_the_table (current_chan i_rec : nat) (clu_id : Z) :
  (min_recs <= 1)%Z ->
  current_chan ∈ uni_chans ->
  clu_id ∈ nth i_rec (_get_cluster_ids clu_info_per_rec chan_map current_chan) [] ->
  exists r x,
    r ∈ _run_stitching corrcoef fr_threshold wf_threshold min_recs chan_range
          clu_info_per_rec chan_map uni_chans elec_num _get_waveform
          _get_firing_rate /\
    r !! i_rec = Some x /\
    (F64.eqb x (F64.of_Z clu_id) = true \/
     (F64.isnan x = true /\ F64.eqb F64.zero (F64.of_Z clu_id) = true)).
Proof.
  intros Hmin Hch Hclu.
  assert (Hrec : (i_rec < length clu_info_per_rec)%nat).
  { destruct (decide (i_rec < length clu_info_per_rec)%nat) as [H|H]; [exact H|].
    rewrite nth_overflow in Hclu; [inversion Hclu|].
    rewrite length_get_cluster_ids. unfold num_recs. lia. }
  set (unit_row :=
         stitch_unit corrcoef fr_threshold wf_threshold clu_info_per_rec
           _get_waveform _get_firing_rate
           (gather clu_info_per_rec chan_map _get_waveform _get_firing_rate
              (_get_within_range_channels chan_range elec_num current_chan))
           i_rec clu_id).
  assert (Hemitted : unit_row ∈
            prediction_list corrcoef fr_threshold wf_threshold chan_range
              clu_info_per_rec chan_map uni_chans elec_num _get_waveform
              _get_firing_rate).
  { unfold prediction_list. apply list_elem_of_In, in_flat_map.
    exists current_chan. split; [apply list_elem_of_In, Hch|].
    unfold stitch_channel. cbv zeta. apply in_flat_map. exists i_rec.
    split; [apply in_seq; unfold num_recs; lia|].
    apply in_map, list_elem_of_In, Hclu. }
  assert (Hown : unit_row !! i_rec = Some (F64.of_Z clu_id)).
  { subst unit_row.
    rewrite (stitch_unit_slot corrcoef fr_threshold wf_threshold min_recs
               clu_info_per_rec _get_waveform _get_firing_rate _ _ _ _ Hrec).
    destruct (decide (i_rec = i_rec)); [reflexivity|congruence]. }
  destruct (keep_first_represents [] _ unit_row Hemitted) as (r & [Hr|Hr] & Hid);
    [inversion Hr|].
  assert (Hown' : nan_to_zero unit_row !! i_rec = Some (F64.of_Z clu_id)).
  { etransitivity; [apply nan_to_zero_lookup|].
    etransitivity; [exact (f_equal _ Hown)|]. cbn.
    rewrite of_Z_not_nan. reflexivity. }
  destruct (rows_identical_lookup _ _ _ _ Hid Hown') as (x' & Hx' & Heq).
  pose proof (nan_to_zero_lookup r i_rec) as Er.
  unfold row in *.
  destruct (r !! i_rec) as [x|] eqn:Ex; cbn in Er; [|congruence].
  assert (x' = if F64.isnan x then F64.zero else x) by congruence.
  subst x'.
  exists r, x. split; [rewrite (run_stitching_keeps_all_rows Hmin); exact Hr|].
  split; [exact Ex|].
  destruct (F64.isnan x); [right; auto|left; exact Heq].
Qed.

End Coverage.

Lemma every_unit_is_in_the_table_witness :
  (1 <= 1)%Z /\ 0%nat ∈ [0%nat] /\
  exists r x,
    r ∈ _run_stitching TwoRecordings.corrcoef TwoRecordings.one TwoRecordings.one 1 10
          TwoRecordings.clu_info_per_rec TwoRecordings.chan_map [0%nat]
          TwoRecordings.elec_num TwoRecordings.features TwoRecordings.features /\
    r !! 1%nat = Some x /\
    (F64.eqb x (F64.of_Z 2) = true \/
     (F64.isnan x = true /\ F64.eqb F64.zero (F64.of_Z 2) = true)).
Proof.
  assert (H1 : (1 <= 1)%Z) by lia.
  assert (H2 : 0%nat ∈ [0%nat]) by (apply elem_of_cons; left; reflexivity).
  assert (H3 : 2%Z ∈ nth 1 (_get_cluster_ids TwoRecordings.clu_info_per_rec
                              TwoRecordings.chan_map 0) [])
    by (vm_compute; constructor).
  split; [exact H1|]. split; [exact H2|].
  exact (every_unit_is_in_the_table TwoRecordings.corrcoef TwoRecordings.one
           TwoRecordings.one 1 10 TwoRecordings.clu_info_per_rec
           TwoRecordings.chan_map [0%nat] TwoRecordings.elec_num
           TwoRecordings.features TwoRecordings.features 0%nat 1%nat 2%Z H1 H2 H3).
Defined.

(** ** A run whose inputs are all there *)

Section RunSuccess.

Variable corrcoef : list F64.float -> list F64.float -> F64.float.
Variable elec_num : list Z.
Variable _get_waveform _get_firing_rate : Z -> nat -> result (list F64.float).
Variable npclu_file : string -> option NPcluFile.
Variable load_chan_map : result (list nat).
Variable cluster_type : string.
Variable fr_threshold wf_threshold : F64.float.
Variable min_recs chan_range : Z.

Lemma load_recs_succeeds (recs : list string) (st : ClusterState) :
  (forall rec, rec ∈ recs -> exists info, table_of npclu_file cluster_type rec info) ->
  (st_chan_map st = None -> recs <> [] -> exists m, load_chan_map = ret m) ->
  exists st', load_recs npclu_file load_chan_map cluster_type st recs = ret st'.
Proof.
  revert st. induction recs as [|rec recs IH]; intros st Hfiles Hmap.
  - exists st. reflexivity.
  - cbn [load_recs]. unfold load_rec.
    destruct (Hfiles rec) as (info & f & Hf & Hsel); [apply elem_of_cons; auto|].
    rewrite Hf. cbn [bind ret]. rewrite Hsel. cbn [bind ret].
    assert (Hm : exists m, match st_chan_map st with
                           | Some m0 => ret m0
                           | None => load_chan_map
                           end = ret m).
    { destruct (st_chan_map st) as [m0|] eqn:E; [exists m0; reflexivity|].
      apply Hmap; [reflexivity|discriminate]. }
    destruct Hm as (m & ->). cbn [bind ret]. apply IH.
    + intros r Hr. apply Hfiles, elem_of_cons. auto.
    + cbn. discriminate.
Qed.

(** X25. A run whose inputs are all there: the data root exists, every
    recording has a file from which the cluster type selects a table, and
    the channel map of the sorter output loads. Such a run fails only with
    the error that a read of a unit file raises, and it returns a table when
    every read returns. The rows of a returned table have one entry per
    recording. *)
Theorem run_returns_when_inputs_are_present (recs : list string) :
  (forall rec, rec ∈ recs -> exists info, table_of npclu_file cluster_type rec info) ->
  (recs <> [] -> exists m, load_chan_map = ret m) ->
  match run corrcoef elec_num _get_waveform _get_firing_rate true npclu_file
          load_chan_map recs cluster_type fr_threshold wf_threshold min_recs
          chan_range with
  | inr table => Forall (fun r : row => length r = length recs) table
  | inl e => read_raises _get_waveform _get_firing_rate e
  end /\
  ((forall clu rec, raises (_get_waveform clu rec) = false /\
                    raises (_get_firing_rate clu rec) = false) ->
   exists table,
     run corrcoef elec_num _get_waveform _get_firing_rate true npclu_file
       load_chan_map recs cluster_type fr_threshold wf_threshold min_recs
       chan_range = ret table).
Proof.
  intros Hfiles Hmap. unfold run, validate. cbn [bind ret]. unfold _load_cluster_info.
  destruct (load_recs_succeeds recs
              {| st_clu_info_per_rec := []; st_chan_map := None;
                 st_all_iso_chans := [] |} Hfiles (fun _ => Hmap)) as (st & Hst).
  rewrite Hst. cbn [bind ret].
  pose proof (run_stitching_reading_cases corrcoef fr_threshold wf_threshold
                min_recs chan_range (st_clu_info_per_rec st)
                (default [] (st_chan_map st))
                (np_unique (concat (st_all_iso_chans st))) elec_num
                _get_waveform _get_firing_rate) as Hc.
  destruct (_run_stitching_reading _ _ _ _ _ _ _ _ _ _ _) as [e|table].
  { split; [exact Hc|]. intros Hreads. exfalso.
    destruct Hc as (clu & rec & [H|H]); destruct (Hreads clu rec) as [H1 H2];
      [rewrite H in H1; discriminate H1|rewrite H in H2; discriminate H2]. }
  split; [|intros _; exists table; reflexivity]. subst table.
  destruct (load_recs_tables npclu_file load_chan_map cluster_type recs _ st Hst)
    as (infos & Hinfos & Hall & _).
  cbn in Hinfos. apply Forall2_length in Hall.
  pose proof (prediction_list_well_formed corrcoef fr_threshold wf_threshold
                min_recs chan_range (st_clu_info_per_rec st)
                (default [] (st_chan_map st))
                (np_unique (concat (st_all_iso_chans st))) elec_num
                (features_read _get_waveform) (features_read _get_firing_rate))
    as Hwf.
  unfold _run_stitching.
  set (emitted := prediction_list _ _ _ _ _ _ _ _ _ _) in *.
  assert (Hrows : Forall (fun r : row => length r = length recs) emitted).
  { apply Forall_forall. intros r Hr. rewrite Forall_forall in Hwf.
    destruct (Hwf r Hr) as (Hlen & _). rewrite Hlen, Hinfos, Hall. reflexivity. }
  destruct emitted as [|r0 rest] eqn:Eem; [constructor|]. rewrite <- Eem in *.
  cbv zeta. eapply Forall_of_sublist; [exact Hrows|].
  transitivity (deduplicate emitted).
  - unfold filter_min_recs. generalize (deduplicate emitted). intros l.
    induction l as [|r l IH]; cbn; [constructor|].
    destruct (_ <=? _)%Z; [apply sublist_skip|apply sublist_cons]; exact IH.
  - rewrite deduplicate_keep_first. apply keep_first_sublist.
Qed.

End RunSuccess.

Lemma run_returns_when_inputs_are_present_witness :
  (forall rec, rec ∈ ["007"; "009"] ->
     exists info, table_of RunExample.npclu_file "All" rec info) /\
  (["007"; "009"] <> [] -> exists m, ret [0%nat] = (ret m : result (list nat))) /\
  (forall clu rec, raises (RunExample.read clu rec) = false /\
                   raises (RunExample.read clu rec) = false) /\
  exists table, RunExample.run_with "All" (F64.of_Z 1) = ret table.
Proof.
  assert (H1 : forall rec, rec ∈ ["007"; "009"] ->
                 exists info, table_of RunExample.npclu_file "All" rec info).
  { intros rec Hrec. unfold table_of.
    apply elem_of_cons in Hrec as [->|Hrec];
      [eexists; eexists; split; reflexivity|].
    apply elem_of_cons in Hrec as [->|Hrec];
      [eexists; eexists; split; reflexivity|].
    inversion Hrec. }
  assert (H2 : ["007"; "009"] <> [] ->
                 exists m, ret [0%nat] = (ret m : result (list nat)))
    by (intros _; eexists; reflexivity).
  assert (H3 : forall clu rec, raises (RunExample.read clu rec) = false /\
                               raises (RunExample.read clu rec) = false)
    by (intros clu rec; split; reflexivity).
  split; [exact H1|]. split; [exact H2|]. split; [exact H3|].
  exact (proj2 (run_returns_when_inputs_are_present TwoRecordings.corrcoef []
                  RunExample.read RunExample.read RunExample.npclu_file
                  (ret [0%nat]) "All" (F64.of_Z 1) (F64.of_Z 1) 2 10
                  ["007"; "009"] H1 H2) H3).
Defined.

(** A unit whose raster file holds one trial and two reaction times: the
    read of its firing rate raises [IndexError], and so does the run. *)
Example run_raises_on_a_raster_file_with_too_many_reaction_times :
  run TwoRecordings.corrcoef [] RunExample.read
    (fun _ _ =>
       get_firing_rate_from PsthExample.hist_bin PsthExample.norm_pdf
         (Some {| rd_spike_clu := [Some [F64.of_Z 10]];
                  rd_rt := [F64.of_Z 100; F64.of_Z 200] |}) None)
    true RunExample.npclu_file (ret [0%nat]) ["007"; "009"] "All"
    (F64.of_Z 1) (F64.of_Z 1) 2 10 = raise IndexError.
Proof. vm_compute. reflexivity. Qed.
